(** * Shader gallery: the shader-canvas rendering core

    A shallow embedding of the TypeScript sources

    - [src/lib/webgl-utils.ts]       (context, compile, link, quad, uniforms),
    - [shader-gallery]               (the catalog and its two helpers),
    - [shader-canvas]                (refs, [initShader], the frame callback,
                                      the effects of the component),
    - the shaders page               ([handleShaderSelect] and friends),

    followed by the properties of the rendering core that the specification
    states about them.

    Conventions of the embedding.

    - A JavaScript [number] is an exact rational ([Q]).  Rounding of binary64
      is not part of the model; the module [Binary64] re-runs [lerp] on
      IEEE doubles at the points where the difference matters.  A quotient
      by zero is [0] in [Q] where JavaScript gives an infinity or [NaN]; the
      theorems about a quotient assume its divisor positive.
    - A [Record<string, number>] is an association list in insertion order,
      which is the order [Object.entries] enumerates for keys that are not
      array indices and not [__proto__] ([ordinaryKey] below); the theorems
      about the order of keys assume such keys, as the catalog's are.
    - WebGL objects (shaders, programs, vertex arrays, buffers, uniform
      locations) are opaque in JavaScript; here each is a natural number, a
      fresh one per [create*] call.
    - What the GPU driver and the browser decide (does this source compile,
      does the link succeed, is there a uniform of that name, what does
      [performance.now()] read) is a [Device]; the general theorems hold
      for every device.
    - What the code does to the platform is recorded, in order, as a list of
      [Call]s.  Queries ([getShaderParameter], [getUniformLocation], ...) are
      answered by the device and leave no record.
    - React is modelled by its contract for [useEffect]: on a commit, the
      effects whose dependency array changed run their clean-up, then their
      body, in declaration order; an effect that returned before its
      [return () => ...] has no clean-up. *)

From Stdlib Require Import String Ascii List Bool Arith ZArith QArith Lia Lqa.
From Stdlib Require Import Floats.
Import ListNotations.
Local Open Scope string_scope.
Local Open Scope Q_scope.

(* ====================================================================== *)
(** * GLSL sources (verbatim) *)
(* ====================================================================== *)

Definition VERTEX_SHADER_SOURCE : string :=
"#version 300 es
precision highp float;

in vec2 a_position;

out vec2 v_uv;

void main() {
  v_uv = a_position * 0.5 + 0.5;
  gl_Position = vec4(a_position, 0.0, 1.0);
}
".

Definition plasmaFragmentSource : string :=
"#version 300 es
precision highp float;

uniform float u_time;
uniform vec2 u_resolution;
uniform vec2 u_mouse;
uniform float u_speed;
uniform float u_scale;
uniform float u_colorShift;

out vec4 fragColor;

void main() {
    vec2 uv = gl_FragCoord.xy / u_resolution.xy;
    float t = u_time * u_speed;

    // Create plasma pattern with layered sine waves
    float v1 = sin(uv.x * u_scale + t);
    float v2 = sin(uv.y * u_scale + t);
    float v3 = sin((uv.x + uv.y) * u_scale + t);
    float v4 = sin(sqrt(uv.x * uv.x + uv.y * uv.y) * u_scale * 2.0 + t);

    float plasma = (v1 + v2 + v3 + v4) * 0.25;

    // Site colors
    vec3 teal = vec3(0.086, 0.722, 0.651);
    vec3 pink = vec3(0.850, 0.275, 0.937);
    vec3 blue = vec3(0.133, 0.827, 0.933);

    // Mix colors based on plasma value and color shift
    float shift = plasma + u_colorShift;
    vec3 color = mix(teal, pink, smoothstep(-0.5, 0.5, sin(shift * 3.14159)));
    color = mix(color, blue, smoothstep(-0.5, 0.5, cos(shift * 3.14159 + t * 0.5)));

    // Add some brightness variation
    color *= 0.8 + 0.2 * sin(plasma * 3.14159 * 2.0);

    fragColor = vec4(color, 1.0);
}
".

Definition sphereFragmentSource : string :=
"#version 300 es
precision highp float;

uniform float u_time;
uniform vec2 u_resolution;
uniform vec2 u_mouse;
uniform float u_rotationSpeed;
uniform float u_glossiness;
uniform float u_sphereScale;

out vec4 fragColor;

#define MAX_STEPS 100
#define MAX_DIST 100.0
#define SURF_DIST 0.001

mat2 rot2D(float angle) {
    float s = sin(angle);
    float c = cos(angle);
    return mat2(c, -s, s, c);
}

float sdSphere(vec3 p, float r) {
    return length(p) - r;
}

float getDist(vec3 p) {
    // Rotate the point around Y axis
    float angle = u_time * u_rotationSpeed;
    p.xz *= rot2D(angle);
    p.yz *= rot2D(angle * 0.7);

    float sphere = sdSphere(p, 0.8 * u_sphereScale);
    float plane = p.y + 1.5;

    return min(sphere, plane);
}

float rayMarch(vec3 ro, vec3 rd) {
    float d0 = 0.0;
    for(int i = 0; i < MAX_STEPS; i++) {
        vec3 p = ro + rd * d0;
        float ds = getDist(p);
        d0 += ds;
        if(d0 > MAX_DIST || ds < SURF_DIST) break;
    }
    return d0;
}

vec3 getNormal(vec3 p) {
    float d = getDist(p);
    vec2 e = vec2(0.001, 0.0);
    vec3 n = d - vec3(
        getDist(p - e.xyy),
        getDist(p - e.yxy),
        getDist(p - e.yyx)
    );
    return normalize(n);
}

float softShadow(vec3 ro, vec3 rd, float mint, float maxt, float k) {
    float res = 1.0;
    float t = mint;
    for(int i = 0; i < 32; i++) {
        float h = getDist(ro + rd * t);
        res = min(res, k * h / t);
        t += clamp(h, 0.02, 0.1);
        if(h < 0.001 || t > maxt) break;
    }
    return clamp(res, 0.0, 1.0);
}

void main() {
    vec2 uv = (gl_FragCoord.xy - 0.5 * u_resolution.xy) / u_resolution.y;

    // Camera setup
    vec3 ro = vec3(0.0, 0.5, 3.0);
    vec3 rd = normalize(vec3(uv, -1.0));

    // Site colors
    vec3 teal = vec3(0.086, 0.722, 0.651);
    vec3 pink = vec3(0.850, 0.275, 0.937);
    vec3 blue = vec3(0.133, 0.827, 0.933);

    float d = rayMarch(ro, rd);
    vec3 color = vec3(0.02, 0.02, 0.05); // Dark background

    if(d < MAX_DIST) {
        vec3 p = ro + rd * d;
        vec3 n = getNormal(p);

        // Light position (rotates)
        vec3 lightPos = vec3(2.0 * sin(u_time * 0.5), 2.0, 2.0 * cos(u_time * 0.5));
        vec3 lightDir = normalize(lightPos - p);
        vec3 viewDir = normalize(ro - p);
        vec3 halfDir = normalize(lightDir + viewDir);

        // Diffuse
        float diff = max(dot(n, lightDir), 0.0);

        // Specular (Blinn-Phong)
        float spec = pow(max(dot(n, halfDir), 0.0), 32.0 * u_glossiness);

        // Fresnel
        float fresnel = pow(1.0 - max(dot(n, viewDir), 0.0), 3.0);

        // Soft shadow
        float shadow = softShadow(p + n * 0.02, lightDir, 0.02, 5.0, 8.0);

        // Combine colors based on surface angle
        vec3 baseColor = mix(teal, pink, fresnel);
        baseColor = mix(baseColor, blue, 0.3 + 0.3 * sin(u_time));

        color = baseColor * (0.2 + diff * shadow * 0.8);
        color += spec * shadow * u_glossiness * vec3(1.0);
        color += fresnel * blue * 0.3;
    }

    // Gamma correction
    color = pow(color, vec3(0.4545));

    fragColor = vec4(color, 1.0);
}
".

Definition noiseFragmentSource : string :=
"#version 300 es
precision highp float;

uniform float u_time;
uniform vec2 u_resolution;
uniform vec2 u_mouse;
uniform int u_octaves;
uniform float u_persistence;
uniform float u_zoom;

out vec4 fragColor;

// Simplex 2D noise
vec3 permute(vec3 x) { return mod(((x*34.0)+1.0)*x, 289.0); }

float snoise(vec2 v) {
    const vec4 C = vec4(0.211324865405187, 0.366025403784439,
                        -0.577350269189626, 0.024390243902439);
    vec2 i  = floor(v + dot(v, C.yy));
    vec2 x0 = v - i + dot(i, C.xx);
    vec2 i1;
    i1 = (x0.x > x0.y) ? vec2(1.0, 0.0) : vec2(0.0, 1.0);
    vec4 x12 = x0.xyxy + C.xxzz;
    x12.xy -= i1;
    i = mod(i, 289.0);
    vec3 p = permute(permute(i.y + vec3(0.0, i1.y, 1.0))
                     + i.x + vec3(0.0, i1.x, 1.0));
    vec3 m = max(0.5 - vec3(dot(x0,x0), dot(x12.xy,x12.xy),
                            dot(x12.zw,x12.zw)), 0.0);
    m = m*m;
    m = m*m;
    vec3 x = 2.0 * fract(p * C.www) - 1.0;
    vec3 h = abs(x) - 0.5;
    vec3 ox = floor(x + 0.5);
    vec3 a0 = x - ox;
    m *= 1.79284291400159 - 0.85373472095314 * (a0*a0 + h*h);
    vec3 g;
    g.x  = a0.x  * x0.x  + h.x  * x0.y;
    g.yz = a0.yz * x12.xz + h.yz * x12.yw;
    return 130.0 * dot(m, g);
}

float fbm(vec2 p, int octaves, float persistence) {
    float value = 0.0;
    float amplitude = 0.5;
    float frequency = 1.0;
    float maxValue = 0.0;

    for(int i = 0; i < 6; i++) {
        if(i >= octaves) break;
        value += amplitude * snoise(p * frequency);
        maxValue += amplitude;
        amplitude *= persistence;
        frequency *= 2.0;
    }

    return value / maxValue;
}

void main() {
    vec2 uv = gl_FragCoord.xy / u_resolution.xy;
    vec2 p = uv * u_zoom;

    // Animate the noise
    float t = u_time * 0.3;

    // Layer multiple noise samples with time offset
    float n1 = fbm(p + vec2(t * 0.5, t * 0.3), u_octaves, u_persistence);
    float n2 = fbm(p + vec2(-t * 0.4, t * 0.2) + vec2(5.2, 1.3), u_octaves, u_persistence);
    float n3 = fbm(p + vec2(t * 0.3, -t * 0.5) + vec2(3.7, 8.1), u_octaves, u_persistence);

    // Site colors
    vec3 teal = vec3(0.086, 0.722, 0.651);
    vec3 pink = vec3(0.850, 0.275, 0.937);
    vec3 blue = vec3(0.133, 0.827, 0.933);
    vec3 dark = vec3(0.02, 0.02, 0.05);

    // Create color based on noise values
    float blend1 = smoothstep(-0.3, 0.3, n1);
    float blend2 = smoothstep(-0.3, 0.3, n2);
    float blend3 = smoothstep(-0.3, 0.3, n3);

    vec3 color = mix(dark, teal, blend1 * 0.8);
    color = mix(color, pink, blend2 * 0.6);
    color = mix(color, blue, blend3 * 0.5);

    // Add some variation
    float detail = snoise(p * 4.0 + t);
    color += detail * 0.05;

    // Vignette
    float vignette = 1.0 - smoothstep(0.3, 0.9, length(uv - 0.5));
    color *= 0.7 + 0.3 * vignette;

    fragColor = vec4(color, 1.0);
}
".

Definition kaleidoscopeFragmentSource : string :=
"#version 300 es
precision highp float;

uniform float u_time;
uniform vec2 u_resolution;
uniform vec2 u_mouse;
uniform int u_segments;
uniform float u_rotationSpeed;
uniform float u_zoom;

out vec4 fragColor;

#define PI 3.14159265359
#define TAU 6.28318530718

// Simple hash function for pseudo-random
float hash(vec2 p) {
    return fract(sin(dot(p, vec2(127.1, 311.7))) * 43758.5453);
}

// Value noise
float noise(vec2 p) {
    vec2 i = floor(p);
    vec2 f = fract(p);
    f = f * f * (3.0 - 2.0 * f);

    float a = hash(i);
    float b = hash(i + vec2(1.0, 0.0));
    float c = hash(i + vec2(0.0, 1.0));
    float d = hash(i + vec2(1.0, 1.0));

    return mix(mix(a, b, f.x), mix(c, d, f.x), f.y);
}

vec2 kaleidoscope(vec2 uv, int segments) {
    float angle = atan(uv.y, uv.x);
    float radius = length(uv);

    // Segment angle
    float segmentAngle = TAU / float(segments);

    // Fold the angle into one segment
    angle = mod(angle, segmentAngle);

    // Mirror alternate segments
    angle = abs(angle - segmentAngle * 0.5);

    return vec2(cos(angle), sin(angle)) * radius;
}

void main() {
    vec2 uv = (gl_FragCoord.xy - 0.5 * u_resolution.xy) / u_resolution.y;

    float t = u_time * u_rotationSpeed;

    // Apply rotation
    float c = cos(t);
    float s = sin(t);
    uv = mat2(c, -s, s, c) * uv;

    // Apply kaleidoscope symmetry
    vec2 kUv = kaleidoscope(uv, u_segments);

    // Scale
    kUv *= u_zoom;

    // Create pattern
    float r = length(kUv);
    float a = atan(kUv.y, kUv.x);

    // Layered patterns
    float pattern1 = sin(r * 10.0 - t * 2.0) * 0.5 + 0.5;
    float pattern2 = sin(a * 5.0 + r * 5.0 + t) * 0.5 + 0.5;
    float pattern3 = noise(kUv * 3.0 + t * 0.5);

    // Combine patterns
    float pattern = pattern1 * pattern2;
    pattern = mix(pattern, pattern3, 0.3);

    // Site colors
    vec3 teal = vec3(0.086, 0.722, 0.651);
    vec3 pink = vec3(0.850, 0.275, 0.937);
    vec3 blue = vec3(0.133, 0.827, 0.933);
    vec3 dark = vec3(0.02, 0.02, 0.05);

    // Color mapping
    vec3 color = dark;
    color = mix(color, teal, smoothstep(0.2, 0.4, pattern));
    color = mix(color, pink, smoothstep(0.5, 0.7, pattern));
    color = mix(color, blue, smoothstep(0.7, 0.9, pattern));

    // Add glow at center
    float glow = exp(-r * 3.0) * 0.5;
    color += glow * mix(pink, blue, sin(t) * 0.5 + 0.5);

    // Radial fade
    color *= smoothstep(1.5, 0.2, r);

    fragColor = vec4(color, 1.0);
}
".

Definition auroraFragmentSource : string :=
"#version 300 es
precision highp float;

uniform float u_time;
uniform vec2 u_resolution;
uniform vec2 u_mouse;
uniform float u_intensity;
uniform float u_speed;
uniform float u_waveHeight;

out vec4 fragColor;

// Simplex noise function
vec3 permute(vec3 x) { return mod(((x*34.0)+1.0)*x, 289.0); }

float snoise(vec2 v) {
    const vec4 C = vec4(0.211324865405187, 0.366025403784439,
                        -0.577350269189626, 0.024390243902439);
    vec2 i  = floor(v + dot(v, C.yy));
    vec2 x0 = v - i + dot(i, C.xx);
    vec2 i1;
    i1 = (x0.x > x0.y) ? vec2(1.0, 0.0) : vec2(0.0, 1.0);
    vec4 x12 = x0.xyxy + C.xxzz;
    x12.xy -= i1;
    i = mod(i, 289.0);
    vec3 p = permute(permute(i.y + vec3(0.0, i1.y, 1.0))
                     + i.x + vec3(0.0, i1.x, 1.0));
    vec3 m = max(0.5 - vec3(dot(x0,x0), dot(x12.xy,x12.xy),
                            dot(x12.zw,x12.zw)), 0.0);
    m = m*m;
    m = m*m;
    vec3 x = 2.0 * fract(p * C.www) - 1.0;
    vec3 h = abs(x) - 0.5;
    vec3 ox = floor(x + 0.5);
    vec3 a0 = x - ox;
    m *= 1.79284291400159 - 0.85373472095314 * (a0*a0 + h*h);
    vec3 g;
    g.x  = a0.x  * x0.x  + h.x  * x0.y;
    g.yz = a0.yz * x12.xz + h.yz * x12.yw;
    return 130.0 * dot(m, g);
}

float fbm(vec2 p) {
    float value = 0.0;
    float amplitude = 0.5;
    for(int i = 0; i < 5; i++) {
        value += amplitude * snoise(p);
        p *= 2.0;
        amplitude *= 0.5;
    }
    return value;
}

void main() {
    vec2 uv = gl_FragCoord.xy / u_resolution.xy;

    float t = u_time * u_speed;

    // Site colors for aurora
    vec3 teal = vec3(0.086, 0.722, 0.651);
    vec3 pink = vec3(0.850, 0.275, 0.937);
    vec3 blue = vec3(0.133, 0.827, 0.933);
    vec3 dark = vec3(0.01, 0.01, 0.03);

    // Create multiple aurora curtains
    vec3 color = dark;

    for(int i = 0; i < 5; i++) {
        float fi = float(i);
        float offset = fi * 0.15;

        // Horizontal wave motion
        float wave = fbm(vec2(uv.x * 2.0 + t * 0.3 + fi, t * 0.1 + fi * 0.5));
        wave *= u_waveHeight;

        // Vertical position with wave
        float y = uv.y - 0.3 - offset + wave * 0.3;

        // Aurora curtain shape
        float curtain = exp(-y * y * 8.0);

        // Add flowing variation
        float flow = fbm(vec2(uv.x * 3.0 + t * 0.5, y * 2.0 + t * 0.2 + fi));
        curtain *= 0.5 + 0.5 * flow;

        // Shimmer effect
        float shimmer = sin(uv.x * 20.0 + t * 3.0 + fi * 2.0) * 0.5 + 0.5;
        shimmer *= sin(y * 30.0 + t * 2.0) * 0.5 + 0.5;
        curtain *= 0.7 + 0.3 * shimmer;

        // Color gradient within each curtain
        vec3 curtainColor;
        if(i < 2) {
            curtainColor = mix(teal, blue, smoothstep(-0.2, 0.2, y));
        } else if(i < 4) {
            curtainColor = mix(blue, pink, smoothstep(-0.1, 0.3, y));
        } else {
            curtainColor = mix(pink, teal, smoothstep(-0.1, 0.3, y));
        }

        // Add to color with intensity
        color += curtainColor * curtain * u_intensity * 0.4;
    }

    // Add stars in the dark areas
    float stars = pow(snoise(uv * 100.0), 8.0);
    stars *= smoothstep(0.3, 0.0, length(color));
    color += stars * 0.5;

    // Add subtle gradient at bottom (ground glow)
    float groundGlow = smoothstep(0.3, 0.0, uv.y);
    color += groundGlow * teal * 0.05;

    // Vignette
    float vignette = 1.0 - smoothstep(0.5, 1.5, length((uv - 0.5) * vec2(1.0, 0.5)));
    color *= vignette;

    fragColor = vec4(color, 1.0);
}
".

(* ====================================================================== *)
(** * shader-gallery: the catalog *)
(* ====================================================================== *)

(** [type: 'float' | 'int'] of a [ShaderUniform]. *)
Inductive NumericKind : Type := float | int.

Module ShaderUniform.
Record t : Type := mk {
  name : string;
  label : string;
  type : NumericKind;
  min : Q;
  max : Q;
  step : Q;
  defaultValue : Q
}.
End ShaderUniform.

Module ShaderDefinition.
Record t : Type := mk {
  id : string;
  name : string;
  description : string;
  fragmentSource : string;
  uniforms : list ShaderUniform.t
}.
End ShaderDefinition.

Definition plasmaShader : ShaderDefinition.t :=
  ShaderDefinition.mk "plasma" "Plasma Waves"
    "Classic plasma effect using layered sine waves with vibrant site colors"
    plasmaFragmentSource
    [ ShaderUniform.mk "u_speed" "Speed" float 0.5 2 0.1 1;
      ShaderUniform.mk "u_scale" "Scale" float 1 10 0.5 4;
      ShaderUniform.mk "u_colorShift" "Color Shift" float 0 1 0.05 0.5 ].

Definition sphereShader : ShaderDefinition.t :=
  ShaderDefinition.mk "sphere" "Raymarched Sphere"
    "SDF sphere with phong lighting and soft shadows using raymarching"
    sphereFragmentSource
    [ ShaderUniform.mk "u_rotationSpeed" "Rotation Speed" float 0 2 0.1 0.5;
      ShaderUniform.mk "u_glossiness" "Glossiness" float 0.1 1 0.05 0.5;
      ShaderUniform.mk "u_sphereScale" "Sphere Scale" float 0.5 1.5 0.1 1 ].

Definition noiseShader : ShaderDefinition.t :=
  ShaderDefinition.mk "noise" "Fractal Noise"
    "Layered simplex noise creating organic, flowing patterns"
    noiseFragmentSource
    [ ShaderUniform.mk "u_octaves" "Octaves" int 1 6 1 4;
      ShaderUniform.mk "u_persistence" "Persistence" float 0.3 0.7 0.05 0.5;
      ShaderUniform.mk "u_zoom" "Zoom" float 1 5 0.25 2 ].

Definition kaleidoscopeShader : ShaderDefinition.t :=
  ShaderDefinition.mk "kaleidoscope" "Kaleidoscope"
    "Radial symmetry with rotating procedural patterns creating mandala-like visuals"
    kaleidoscopeFragmentSource
    [ ShaderUniform.mk "u_segments" "Segments" int 4 16 1 8;
      ShaderUniform.mk "u_rotationSpeed" "Rotation Speed" float 0 2 0.1 0.5;
      ShaderUniform.mk "u_zoom" "Zoom" float 0.5 3 0.1 1.5 ].

Definition auroraShader : ShaderDefinition.t :=
  ShaderDefinition.mk "aurora" "Aurora Borealis"
    "Flowing curtains of light resembling the northern lights"
    auroraFragmentSource
    [ ShaderUniform.mk "u_intensity" "Intensity" float 0.5 2 0.1 1;
      ShaderUniform.mk "u_speed" "Speed" float 0.5 2 0.1 1;
      ShaderUniform.mk "u_waveHeight" "Wave Height" float 0.3 1 0.05 0.6 ].

Definition SHADERS : list ShaderDefinition.t :=
  [ plasmaShader; sphereShader; noiseShader; kaleidoscopeShader; auroraShader ].

(** [SHADERS.find(shader => shader.id === id)] *)
Definition getShaderById (id : string) : option ShaderDefinition.t :=
  find (fun shader => String.eqb (ShaderDefinition.id shader) id) SHADERS.

(** A [Record<string, number>]: keys in insertion order, no key twice. *)
Definition Uniforms : Type := list (string * Q).

(** [o[k]]: [None] is JavaScript's [undefined]. *)
Fixpoint lookup (k : string) (o : Uniforms) : option Q :=
  match o with
  | [] => None
  | (k', v) :: rest => if String.eqb k' k then Some v else lookup k rest
  end.

(** [o[k] = v]: an existing key keeps its place, a new key goes last. *)
Fixpoint assign (k : string) (v : Q) (o : Uniforms) : Uniforms :=
  match o with
  | [] => [(k, v)]
  | (k', v') :: rest =>
      if String.eqb k' k then (k, v) :: rest else (k', v') :: assign k v rest
  end.

(** [for (const uniform of shader.uniforms) defaults[uniform.name] =
    uniform.defaultValue] *)
Definition getDefaultUniforms (shader : ShaderDefinition.t) : Uniforms :=
  fold_left
    (fun defaults uniform =>
       assign (ShaderUniform.name uniform)
              (ShaderUniform.defaultValue uniform) defaults)
    (ShaderDefinition.uniforms shader) [].

(* ====================================================================== *)
(** * The platform: WebGL2 context, clock, animation frames *)
(* ====================================================================== *)

(** [gl.VERTEX_SHADER], [gl.FRAGMENT_SHADER] *)
Inductive ShaderType : Type := VERTEX_SHADER | FRAGMENT_SHADER.

(** [UniformType = "float" | "int" | "vec2" | "vec3" | "vec4"] *)
Inductive UniformType : Type := U_float | U_int | U_vec2 | U_vec3 | U_vec4.

(** [number | number[]] *)
Inductive UniformValue : Type :=
| num (x : Q)
| arr (xs : list Q).

(** Everything the component does to its environment.  The [gl_*] calls are
    the methods of the rendering context, under their own names. *)
Inductive Call : Type :=
| gl_createShader (type : ShaderType) (shader : nat)
| gl_shaderSource (shader : nat) (source : string)
| gl_compileShader (shader : nat)
| gl_deleteShader (shader : nat)
| gl_createProgram (program : nat)
| gl_attachShader (program shader : nat)
| gl_linkProgram (program : nat)
| gl_deleteProgram (program : nat)
| gl_createVertexArray (vao : nat)
| gl_bindVertexArray (vao : option nat)
| gl_createBuffer (buffer : nat)
| gl_bindBuffer (buffer : option nat)
| gl_bufferData (vertices : list Q)
| gl_enableVertexAttribArray (index : nat)
| gl_vertexAttribPointer (index size : nat)
| gl_deleteVertexArray (vao : nat)
| gl_viewport (x y width height : Q)
| gl_clearColor (r g b a : Q)
| gl_clear
| gl_useProgram (program : nat)
| gl_uniform1f (location : nat) (value : UniformValue)
| gl_uniform1i (location : nat) (value : UniformValue)
| gl_uniform2fv (location : nat) (value : UniformValue)
| gl_uniform3fv (location : nat) (value : UniformValue)
| gl_uniform4fv (location : nat) (value : UniformValue)
| gl_drawArrays (first count : nat)
| console_error (args : list string)
| onError (error : string)
| requestAnimationFrame (id : nat)
| cancelAnimationFrame (id : nat)
| drawDebugOverlay (fps : Q).

(** What the browser and the driver answer.  Object names are handed out by
    a counter of [create*] calls; [allocates k] says whether the [k]-th such
    call returns an object or [null]. *)
Record Device : Type := {
  getContext : bool;
  allocates : nat -> bool;
  COMPILE_STATUS : ShaderType -> string -> bool;
  getShaderInfoLog : ShaderType -> string -> string;
  LINK_STATUS : nat -> bool;
  getProgramInfoLog : nat -> string;
  getUniformLocation : nat -> string -> option nat;
  performance_now : nat -> Q
}.

(** State of the page outside the component's refs. *)
Record Host : Type := {
  canvas_width : Q;
  canvas_height : Q;
  parent_width : Q;
  parent_height : Q;
  reads : nat;
  nextName : nat;
  scheduled : option nat;
  debugCanvas : bool;
  listening : bool
}.

Definition set_canvas (w h : Q) (o : Host) : Host :=
  {| canvas_width := w; canvas_height := h;
     parent_width := parent_width o; parent_height := parent_height o;
     reads := reads o; nextName := nextName o; scheduled := scheduled o;
     debugCanvas := debugCanvas o; listening := listening o |}.

Definition set_parent (w h : Q) (o : Host) : Host :=
  {| canvas_width := canvas_width o; canvas_height := canvas_height o;
     parent_width := w; parent_height := h;
     reads := reads o; nextName := nextName o; scheduled := scheduled o;
     debugCanvas := debugCanvas o; listening := listening o |}.

Definition set_reads (v : nat) (o : Host) : Host :=
  {| canvas_width := canvas_width o; canvas_height := canvas_height o;
     parent_width := parent_width o; parent_height := parent_height o;
     reads := v; nextName := nextName o; scheduled := scheduled o;
     debugCanvas := debugCanvas o; listening := listening o |}.

Definition set_nextName (v : nat) (o : Host) : Host :=
  {| canvas_width := canvas_width o; canvas_height := canvas_height o;
     parent_width := parent_width o; parent_height := parent_height o;
     reads := reads o; nextName := v; scheduled := scheduled o;
     debugCanvas := debugCanvas o; listening := listening o |}.

Definition set_scheduled (v : option nat) (o : Host) : Host :=
  {| canvas_width := canvas_width o; canvas_height := canvas_height o;
     parent_width := parent_width o; parent_height := parent_height o;
     reads := reads o; nextName := nextName o; scheduled := v;
     debugCanvas := debugCanvas o; listening := listening o |}.

Definition set_debugCanvas (v : bool) (o : Host) : Host :=
  {| canvas_width := canvas_width o; canvas_height := canvas_height o;
     parent_width := parent_width o; parent_height := parent_height o;
     reads := reads o; nextName := nextName o; scheduled := scheduled o;
     debugCanvas := v; listening := listening o |}.

Definition set_listening (v : bool) (o : Host) : Host :=
  {| canvas_width := canvas_width o; canvas_height := canvas_height o;
     parent_width := parent_width o; parent_height := parent_height o;
     reads := reads o; nextName := nextName o; scheduled := scheduled o;
     debugCanvas := debugCanvas o; listening := v |}.

(* ====================================================================== *)
(** * shader-canvas: the refs of the component *)
(* ====================================================================== *)

(** [{ x: number; y: number }] *)
Record Point : Type := { x : Q; y : Q }.

(** [interface FPSMonitor] *)
Record FPSMonitor : Type := {
  samples : list Q;
  lastTime : Q;
  currentFPS : Q
}.

(** The [useRef] cells of [ShaderCanvas].  [canvasRef] is attached for as
    long as the component is listening and is not a field; [glRef] records
    whether the context is held. *)
Record Refs : Type := {
  glRef : bool;
  programRef : option nat;
  vaoRef : option nat;
  animationFrameRef : nat;
  startTimeRef : Q;
  fpsMonitorRef : FPSMonitor;
  hasErrorRef : bool;
  targetMouseRef : Point;
  currentMouseRef : Point;
  uniformsRef : Uniforms;
  showDebugRef : bool
}.

Definition set_glRef (v : bool) (r : Refs) : Refs :=
  {| glRef := v; programRef := programRef r; vaoRef := vaoRef r;
     animationFrameRef := animationFrameRef r;
     startTimeRef := startTimeRef r; fpsMonitorRef := fpsMonitorRef r;
     hasErrorRef := hasErrorRef r; targetMouseRef := targetMouseRef r;
     currentMouseRef := currentMouseRef r; uniformsRef := uniformsRef r;
     showDebugRef := showDebugRef r |}.

Definition set_programRef (v : option nat) (r : Refs) : Refs :=
  {| glRef := glRef r; programRef := v; vaoRef := vaoRef r;
     animationFrameRef := animationFrameRef r;
     startTimeRef := startTimeRef r; fpsMonitorRef := fpsMonitorRef r;
     hasErrorRef := hasErrorRef r; targetMouseRef := targetMouseRef r;
     currentMouseRef := currentMouseRef r; uniformsRef := uniformsRef r;
     showDebugRef := showDebugRef r |}.

Definition set_vaoRef (v : option nat) (r : Refs) : Refs :=
  {| glRef := glRef r; programRef := programRef r; vaoRef := v;
     animationFrameRef := animationFrameRef r;
     startTimeRef := startTimeRef r; fpsMonitorRef := fpsMonitorRef r;
     hasErrorRef := hasErrorRef r; targetMouseRef := targetMouseRef r;
     currentMouseRef := currentMouseRef r; uniformsRef := uniformsRef r;
     showDebugRef := showDebugRef r |}.

Definition set_animationFrameRef (v : nat) (r : Refs) : Refs :=
  {| glRef := glRef r; programRef := programRef r; vaoRef := vaoRef r;
     animationFrameRef := v; startTimeRef := startTimeRef r;
     fpsMonitorRef := fpsMonitorRef r; hasErrorRef := hasErrorRef r;
     targetMouseRef := targetMouseRef r;
     currentMouseRef := currentMouseRef r; uniformsRef := uniformsRef r;
     showDebugRef := showDebugRef r |}.

Definition set_startTimeRef (v : Q) (r : Refs) : Refs :=
  {| glRef := glRef r; programRef := programRef r; vaoRef := vaoRef r;
     animationFrameRef := animationFrameRef r; startTimeRef := v;
     fpsMonitorRef := fpsMonitorRef r; hasErrorRef := hasErrorRef r;
     targetMouseRef := targetMouseRef r;
     currentMouseRef := currentMouseRef r; uniformsRef := uniformsRef r;
     showDebugRef := showDebugRef r |}.

Definition set_fpsMonitorRef (v : FPSMonitor) (r : Refs) : Refs :=
  {| glRef := glRef r; programRef := programRef r; vaoRef := vaoRef r;
     animationFrameRef := animationFrameRef r;
     startTimeRef := startTimeRef r; fpsMonitorRef := v;
     hasErrorRef := hasErrorRef r; targetMouseRef := targetMouseRef r;
     currentMouseRef := currentMouseRef r; uniformsRef := uniformsRef r;
     showDebugRef := showDebugRef r |}.

Definition set_hasErrorRef (v : bool) (r : Refs) : Refs :=
  {| glRef := glRef r; programRef := programRef r; vaoRef := vaoRef r;
     animationFrameRef := animationFrameRef r;
     startTimeRef := startTimeRef r; fpsMonitorRef := fpsMonitorRef r;
     hasErrorRef := v; targetMouseRef := targetMouseRef r;
     currentMouseRef := currentMouseRef r; uniformsRef := uniformsRef r;
     showDebugRef := showDebugRef r |}.

Definition set_targetMouseRef (v : Point) (r : Refs) : Refs :=
  {| glRef := glRef r; programRef := programRef r; vaoRef := vaoRef r;
     animationFrameRef := animationFrameRef r;
     startTimeRef := startTimeRef r; fpsMonitorRef := fpsMonitorRef r;
     hasErrorRef := hasErrorRef r; targetMouseRef := v;
     currentMouseRef := currentMouseRef r; uniformsRef := uniformsRef r;
     showDebugRef := showDebugRef r |}.

Definition set_currentMouseRef (v : Point) (r : Refs) : Refs :=
  {| glRef := glRef r; programRef := programRef r; vaoRef := vaoRef r;
     animationFrameRef := animationFrameRef r;
     startTimeRef := startTimeRef r; fpsMonitorRef := fpsMonitorRef r;
     hasErrorRef := hasErrorRef r; targetMouseRef := targetMouseRef r;
     currentMouseRef := v; uniformsRef := uniformsRef r;
     showDebugRef := showDebugRef r |}.

Definition set_uniformsRef (v : Uniforms) (r : Refs) : Refs :=
  {| glRef := glRef r; programRef := programRef r; vaoRef := vaoRef r;
     animationFrameRef := animationFrameRef r;
     startTimeRef := startTimeRef r; fpsMonitorRef := fpsMonitorRef r;
     hasErrorRef := hasErrorRef r; targetMouseRef := targetMouseRef r;
     currentMouseRef := currentMouseRef r; uniformsRef := v;
     showDebugRef := showDebugRef r |}.

Definition set_showDebugRef (v : bool) (r : Refs) : Refs :=
  {| glRef := glRef r; programRef := programRef r; vaoRef := vaoRef r;
     animationFrameRef := animationFrameRef r;
     startTimeRef := startTimeRef r; fpsMonitorRef := fpsMonitorRef r;
     hasErrorRef := hasErrorRef r; targetMouseRef := targetMouseRef r;
     currentMouseRef := currentMouseRef r; uniformsRef := uniformsRef r;
     showDebugRef := v |}.

(** The component's state: its refs and the page around it. *)
Record World : Type := { refs : Refs; host : Host }.

(** ** Sequencing

    The TypeScript is imperative.  A computation takes the world and yields
    a value, the world after it, and the calls it made, in order. *)
Record Outcome (A : Type) : Type := {
  value : A;
  world : World;
  trace : list Call
}.
Arguments value {A} _.
Arguments world {A} _.
Arguments trace {A} _.

Definition M (A : Type) : Type := World -> Outcome A.

Definition ret {A : Type} (a : A) : M A :=
  fun w => {| value := a; world := w; trace := [] |}.

Definition bind {A B : Type} (c : M A) (k : A -> M B) : M B :=
  fun w =>
    let 'Build_Outcome _ a w1 t1 := c w in
    let 'Build_Outcome _ b w2 t2 := k a w1 in
    {| value := b; world := w2; trace := (t1 ++ t2)%list |}.

Declare Scope m_scope.
Delimit Scope m_scope with m.
Notation "x <- c ;; k" := (bind c (fun x => k))
  (at level 61, c at next level, right associativity) : m_scope.
Notation "c ;; k" := (bind c (fun _ => k))
  (at level 61, right associativity) : m_scope.
Local Open Scope m_scope.

Definition getRefs : M Refs :=
  fun w => {| value := refs w; world := w; trace := [] |}.

Definition modifyRefs (f : Refs -> Refs) : M unit :=
  fun w => {| value := tt;
              world := {| refs := f (refs w); host := host w |};
              trace := [] |}.

Definition getHost : M Host :=
  fun w => {| value := host w; world := w; trace := [] |}.

Definition modifyHost (f : Host -> Host) : M unit :=
  fun w => {| value := tt;
              world := {| refs := refs w; host := f (host w) |};
              trace := [] |}.

(** Make one call. *)
Definition call (c : Call) : M unit :=
  fun w => {| value := tt; world := w; trace := [c] |}.

(** [when c k]: [if (c) k]. *)
Definition when (c : bool) (k : M unit) : M unit := if c then k else ret tt.

(** [for (const a of l) body(a)] *)
Fixpoint forEach {A : Type} (l : list A) (body : A -> M unit) : M unit :=
  match l with
  | [] => ret tt
  | a :: rest => body a ;; forEach rest body
  end.


(* ====================================================================== *)
(** * shader-canvas: helpers *)
(* ====================================================================== *)

(** [getBoundingClientRect()] of the canvas, as an event sees it. *)
Record Rect : Type := { left : Q; top : Q; width : Q; height : Q }.

Definition FPS_SAMPLE_SIZE : nat := 30.

(** [lerp(a, b, t)] *)
Definition lerp (a b t : Q) : Q := a + (b - a) * t.

(** [createFPSMonitor()], given the reading of [performance.now()]. *)
Definition createFPSMonitor (now : Q) : FPSMonitor :=
  {| samples := []; lastTime := now; currentFPS := 60 |}.

(** [updateFPSMonitor(monitor)], given the reading of [performance.now()]:
    the monitor after the call; the value returned is its [currentFPS]. *)
Definition updateFPSMonitor (now : Q) (monitor : FPSMonitor) : FPSMonitor :=
  let delta := now - lastTime monitor in
  match 0 ?= delta with
  | Lt =>
      let fps := 1000 / delta in
      let pushed := (samples monitor ++ [fps])%list in
      let kept :=
        if (FPS_SAMPLE_SIZE <? length pushed)%nat then tl pushed else pushed in
      let avgFPS :=
        fold_left Qplus kept 0 / inject_Z (Z.of_nat (length kept)) in
      {| samples := kept; lastTime := now; currentFPS := avgFPS |}
  | _ =>
      {| samples := samples monitor; lastTime := now;
         currentFPS := currentFPS monitor |}
  end.

(** [name.includes(needle)] *)
Fixpoint includes (needle name : string) : bool :=
  String.prefix needle name
  || match name with
     | EmptyString => false
     | String _ rest => includes needle rest
     end.


(** [const isInt = name.includes("octave") || name.includes("segment")],
    the type [render] gives a custom uniform. *)
Definition isInt (name : string) : bool :=
  includes "octave" name || includes "segment" name.

(** The [switch (type)] of [setUniform]: the context method that uploads a
    value of that type. *)
Definition uniform (type : UniformType) (location : nat) (value : UniformValue)
  : Call :=
  match type with
  | U_float => gl_uniform1f location value
  | U_int => gl_uniform1i location value
  | U_vec2 => gl_uniform2fv location value
  | U_vec3 => gl_uniform3fv location value
  | U_vec4 => gl_uniform4fv location value
  end.
Section Platform.

Variable dev : Device.

(** [performance.now()]: the next reading of the clock. *)
Definition now : M Q :=
  o <- getHost ;;
  modifyHost (set_reads (S (reads o))) ;;
  ret (performance_now dev (reads o)).

(** A [gl.create*()] call: the next object name, or [null]. *)
Definition create (made : nat -> Call) : M (option nat) :=
  o <- getHost ;;
  modifyHost (set_nextName (S (nextName o))) ;;
  if allocates dev (nextName o)
  then call (made (nextName o)) ;; ret (Some (nextName o))
  else ret None.

(** [requestAnimationFrame(render)] *)
Definition request_frame : M nat :=
  o <- getHost ;;
  modifyHost (set_nextName (S (nextName o))) ;;
  modifyHost (set_scheduled (Some (nextName o))) ;;
  call (requestAnimationFrame (nextName o)) ;;
  ret (nextName o).

(** [cancelAnimationFrame(id)] *)
Definition cancel_frame (id : nat) : M unit :=
  o <- getHost ;;
  call (cancelAnimationFrame id) ;;
  match scheduled o with
  | Some pending =>
      when (Nat.eqb pending id) (modifyHost (set_scheduled None))
  | None => ret tt
  end.

(* ==================================================================== *)
(** * webgl-utils *)
(* ==================================================================== *)

(** [createWebGLContext(canvas)]: [true] stands for the context. *)
Definition createWebGLContext : M bool :=
  if getContext dev then ret true
  else call (console_error ["WebGL2 is not supported in this browser"]) ;;
       ret false.

(** [compileShader(gl, type, source)] *)
Definition compileShader (type : ShaderType) (source : string)
  : M (option nat) :=
  shader <- create (gl_createShader type) ;;
  match shader with
  | None =>
      call (console_error ["Failed to create shader"]) ;;
      ret None
  | Some shader =>
      call (gl_shaderSource shader source) ;;
      call (gl_compileShader shader) ;;
      if negb (COMPILE_STATUS dev type source)
      then
        let info := getShaderInfoLog dev type source in
        call (console_error ["Shader compilation error:"; info]) ;;
        call (gl_deleteShader shader) ;;
        ret None
      else ret (Some shader)
  end.

(** [createProgram(gl, vertexShader, fragmentShader)] *)
Definition createProgram (vertexShader fragmentShader : nat)
  : M (option nat) :=
  program <- create gl_createProgram ;;
  match program with
  | None =>
      call (console_error ["Failed to create program"]) ;;
      ret None
  | Some program =>
      call (gl_attachShader program vertexShader) ;;
      call (gl_attachShader program fragmentShader) ;;
      call (gl_linkProgram program) ;;
      if negb (LINK_STATUS dev program)
      then
        let info := getProgramInfoLog dev program in
        call (console_error ["Program link error:"; info]) ;;
        call (gl_deleteProgram program) ;;
        ret None
      else ret (Some program)
  end.

(** [createFullscreenQuad(gl)] *)
Definition createFullscreenQuad : M (option nat) :=
  vao <- create gl_createVertexArray ;;
  match vao with
  | None =>
      call (console_error ["Failed to create VAO"]) ;;
      ret None
  | Some vao =>
      call (gl_bindVertexArray (Some vao)) ;;
      buffer <- create gl_createBuffer ;;
      call (gl_bindBuffer buffer) ;;
      call (gl_bufferData
              [ -1; -1;   1; -1;   -1; 1;
                -1; 1;    1; -1;   1; 1 ]) ;;
      call (gl_enableVertexAttribArray 0) ;;
      call (gl_vertexAttribPointer 0 2) ;;
      call (gl_bindVertexArray None) ;;
      ret (Some vao)
  end.

(** [setUniform(gl, program, name, type, value)] *)
Definition setUniform (program : nat) (name : string) (type : UniformType)
    (value : UniformValue) : M unit :=
  match getUniformLocation dev program name with
  | None =>
      (* Uniform may be optimized out, not necessarily an error *)
      ret tt
  | Some location => call (uniform type location value)
  end.


(* ==================================================================== *)
(** * shader-canvas: the component *)
(* ==================================================================== *)

(** The three lines every failure path of the component repeats:
    [console.error(error); onError?.(error); hasErrorRef.current = true]. *)
Definition fail (error : string) : M unit :=
  call (console_error [error]) ;;
  call (onError error) ;;
  modifyRefs (set_hasErrorRef true).

(** [initShader()], for the [shaderId] the callback closes over. *)
Definition initShader (shaderId : string) : M bool :=
  r <- getRefs ;;
  if negb (glRef r) then ret false
  else
    (* Clean up existing program *)
    match programRef r with
    | Some program =>
        call (gl_deleteProgram program) ;;
        modifyRefs (set_programRef None)
    | None => ret tt
    end ;;
    match getShaderById shaderId with
    | None =>
        fail ("Shader not found: " ++ shaderId) ;;
        ret false
    | Some shaderDef =>
        vertexShader <- compileShader VERTEX_SHADER VERTEX_SHADER_SOURCE ;;
        match vertexShader with
        | None =>
            fail "Failed to compile vertex shader" ;;
            ret false
        | Some vertexShader =>
            fragmentShader <-
              compileShader FRAGMENT_SHADER
                (ShaderDefinition.fragmentSource shaderDef) ;;
            match fragmentShader with
            | None =>
                call (gl_deleteShader vertexShader) ;;
                fail ("Failed to compile fragment shader: "
                        ++ ShaderDefinition.name shaderDef) ;;
                ret false
            | Some fragmentShader =>
                program <- createProgram vertexShader fragmentShader ;;
                (* Clean up shaders (they're attached to the program now) *)
                call (gl_deleteShader vertexShader) ;;
                call (gl_deleteShader fragmentShader) ;;
                match program with
                | None =>
                    fail ("Failed to link shader program: "
                            ++ ShaderDefinition.name shaderDef) ;;
                    ret false
                | Some program =>
                    modifyRefs (set_programRef (Some program)) ;;
                    modifyRefs (set_hasErrorRef false) ;;
                    ret true
                end
            end
        end
    end.

(** [handleResize()] *)
Definition handleResize : M unit :=
  o <- getHost ;;
  modifyHost (set_canvas (parent_width o) (parent_height o)) ;;
  r <- getRefs ;;
  when (glRef r)
    (call (gl_viewport 0 0 (parent_width o) (parent_height o))).

(** The position [handleMouseMove] and [handleTouchMove] compute from the
    client coordinates of the pointer (of the first touch). *)
Definition pointer (clientX clientY : Q) (rect : Rect) : Point :=
  {| x := (clientX - left rect) / width rect;
     (* Flip Y for GL coordinates (0 at bottom, 1 at top) *)
     y := 1 - (clientY - top rect) / height rect |}.

(** [handleMouseMove(e)] *)
Definition handleMouseMove (clientX clientY : Q) (rect : Rect) : M unit :=
  modifyRefs (set_targetMouseRef (pointer clientX clientY rect)).

(** [handleTouchMove(e)]: [touches] are the client coordinates of
    [e.touches]. *)
Definition handleTouchMove (touches : list (Q * Q)) (rect : Rect) : M unit :=
  match touches with
  | [] => ret tt
  | (clientX, clientY) :: _ =>
      modifyRefs (set_targetMouseRef (pointer clientX clientY rect))
  end.

(** The fallback and clear color, [(0.02, 0.02, 0.05, 1.0)]. *)
Definition clearToBackground : M unit :=
  call (gl_clearColor 0.02 0.02 0.05 1.0) ;;
  call gl_clear.

(** [render], the frame callback.  Its [gl] is the context the effect
    obtained, so [!gl] is false and [gl?.] always calls. *)
Definition render : M unit :=
  r <- getRefs ;;
  match programRef r, vaoRef r, hasErrorRef r with
  | Some program, Some vao, false =>
      (* Update FPS monitor *)
      t <- now ;;
      modifyRefs (fun r =>
        set_fpsMonitorRef (updateFPSMonitor t (fpsMonitorRef r)) r) ;;
      r <- getRefs ;;
      let currentFPS := currentFPS (fpsMonitorRef r) in
      (* Smooth mouse interpolation *)
      modifyRefs (set_currentMouseRef
        {| x := lerp (x (currentMouseRef r)) (x (targetMouseRef r)) 0.1;
           y := lerp (y (currentMouseRef r)) (y (targetMouseRef r)) 0.1 |}) ;;
      (* Calculate time in seconds *)
      t <- now ;;
      let time := (t - startTimeRef r) / 1000 in
      clearToBackground ;;
      call (gl_useProgram program) ;;
      call (gl_bindVertexArray (Some vao)) ;;
      (* Set standard uniforms *)
      o <- getHost ;;
      r <- getRefs ;;
      setUniform program "u_time" U_float (num time) ;;
      setUniform program "u_resolution" U_vec2
        (arr [canvas_width o; canvas_height o]) ;;
      setUniform program "u_mouse" U_vec2
        (arr [x (currentMouseRef r); y (currentMouseRef r)]) ;;
      (* Set custom uniforms from props *)
      forEach (uniformsRef r) (fun '(name, value) =>
        setUniform program name (if isInt name then U_int else U_float)
          (num value)) ;;
      (* Draw fullscreen quad (6 vertices) *)
      call (gl_drawArrays 0 6) ;;
      call (gl_bindVertexArray None) ;;
      (* Draw debug overlay if enabled *)
      when (showDebugRef r && debugCanvas o)
        (call (drawDebugOverlay currentFPS)) ;;
      (* Continue render loop *)
      id <- request_frame ;;
      modifyRefs (set_animationFrameRef id)
  | _, _, _ =>
      (* Draw fallback dark background if there's an error *)
      when (hasErrorRef r) clearToBackground ;;
      id <- request_frame ;;
      modifyRefs (set_animationFrameRef id)
  end.

(** The body of the first [useEffect] of the component
    ("Initialize WebGL context and start render loop"). *)
Definition startEffect (shaderId : string) : M unit :=
  gl <- createWebGLContext ;;
  if negb gl then fail "WebGL2 is not supported in this browser"
  else
    modifyRefs (set_glRef true) ;;
    (* Initial resize *)
    handleResize ;;
    vao <- createFullscreenQuad ;;
    match vao with
    | None => fail "Failed to create fullscreen quad"
    | Some vao =>
        modifyRefs (set_vaoRef (Some vao)) ;;
        ok <- initShader shaderId ;;
        if negb ok then ret tt
        else
          (* Reset timing *)
          t <- now ;;
          modifyRefs (set_startTimeRef t) ;;
          t <- now ;;
          modifyRefs (set_fpsMonitorRef (createFPSMonitor t)) ;;
          r <- getRefs ;;
          modifyHost (set_debugCanvas (showDebugRef r)) ;;
          (* Start render loop *)
          render ;;
          (* listeners and observer attached; the clean-up is returned *)
          modifyHost (set_listening true)
    end.

(** The clean-up that effect returns ("Cleanup on unmount"). *)
Definition stopEffect : M unit :=
  r <- getRefs ;;
  cancel_frame (animationFrameRef r) ;;
  modifyHost (set_listening false) ;;
  modifyHost (set_debugCanvas false) ;;
  match vaoRef r with
  | Some vao =>
      call (gl_deleteVertexArray vao) ;;
      modifyRefs (set_vaoRef None)
  | None => ret tt
  end ;;
  match programRef r with
  | Some program =>
      call (gl_deleteProgram program) ;;
      modifyRefs (set_programRef None)
  | None => ret tt
  end ;;
  modifyRefs (set_glRef false).

(** The body of the last [useEffect]
    ("Reinitialize shader when shaderId changes"). *)
Definition shaderIdEffect (shaderId : string) : M unit :=
  r <- getRefs ;;
  match vaoRef r with
  | Some _ =>
      when (glRef r)
        (_ <- initShader shaderId ;;
         (* Reset timing for new shader *)
         t <- now ;;
         modifyRefs (set_startTimeRef t))
  | None => ret tt
  end.


(* ==================================================================== *)
(** * The component under React *)
(* ==================================================================== *)

(** The props the page passes: [shaderId], [uniforms], [showDebug]; its
    [onError] is the state setter [setError], the same function on every
    render. *)
Record Props : Type := {
  shaderId : string;
  uniforms : Uniforms;
  showDebug : bool
}.

(** One evaluation of the function [ShaderCanvas]: the arguments of
    [useRef(performance.now())] and [useRef(createFPSMonitor())] are
    evaluated on every render and used on the first. *)
Definition evaluate : M (Q * Q) :=
  t0 <- now ;;
  t1 <- now ;;
  ret (t0, t1).

(** The effects of one commit.  [changed] says whether [shaderId] differs
    from the previous render (on the first render it does): [initShader]
    is a [useCallback] on [[shaderId, onError]], the other callbacks are
    [useCallback]s on [[]], so the first and the last effect re-run exactly
    then.  The two small effects copy a prop into a ref; running them on
    an unchanged prop changes nothing. *)
Definition effects (changed : bool) (p : Props) : M unit :=
  o <- getHost ;;
  when (changed && listening o) stopEffect ;;
  modifyRefs (set_uniformsRef (uniforms p)) ;;
  modifyRefs (set_showDebugRef (showDebug p)) ;;
  when changed
    (startEffect (shaderId p) ;;
     shaderIdEffect (shaderId p)).

(** A re-render with new props. *)
Definition update (prev p : Props) : M unit :=
  _ <- evaluate ;;
  effects (negb (String.eqb (shaderId prev) (shaderId p))) p.

(** The first render, in a container of the given size.  A canvas element
    starts 300 by 150. *)
Definition mount (parent_w parent_h : Q) (p : Props) : Outcome unit :=
  let w0 :=
    {| refs :=
         {| glRef := false; programRef := None; vaoRef := None;
            animationFrameRef := 0;
            startTimeRef := performance_now dev 0;
            fpsMonitorRef := createFPSMonitor (performance_now dev 1);
            hasErrorRef := false;
            targetMouseRef := {| x := 0.5; y := 0.5 |};
            currentMouseRef := {| x := 0.5; y := 0.5 |};
            uniformsRef := uniforms p;
            showDebugRef := showDebug p |};
       host :=
         {| canvas_width := 300; canvas_height := 150;
            parent_width := parent_w; parent_height := parent_h;
            reads := 2; nextName := 0; scheduled := None;
            debugCanvas := false; listening := false |} |} in
  effects true p w0.

(* ==================================================================== *)
(** * The shaders page *)
(* ==================================================================== *)

(** The state of [ShadersPage]. *)
Record Page : Type := {
  props : Props;
  error : option string
}.

Definition initialPage : Page :=
  {| props :=
       {| shaderId := "plasma";
          uniforms := match getShaderById "plasma" with
                      | Some initialShader => getDefaultUniforms initialShader
                      | None => []
                      end;
          showDebug := false |};
     error := None |}.

(** The handlers return the state they set, or [None] when they set none
    (and React renders nothing). *)

(** [handleShaderSelect(id)] *)
Definition handleShaderSelect (id : string) (page : Page) : option Page :=
  match getShaderById id with
  | Some shader =>
      Some {| props := {| shaderId := id;
                          uniforms := getDefaultUniforms shader;
                          showDebug := showDebug (props page) |};
              error := None |}
  | None => None
  end.

(** [handleUniformChange(name, value)] *)
Definition handleUniformChange (name : string) (value : Q) (page : Page)
  : option Page :=
  Some {| props := {| shaderId := shaderId (props page);
                      uniforms := assign name value (uniforms (props page));
                      showDebug := showDebug (props page) |};
          error := error page |}.

(** [handleResetDefaults()] *)
Definition handleResetDefaults (page : Page) : option Page :=
  match getShaderById (shaderId (props page)) with
  | Some shader =>
      Some {| props := {| shaderId := shaderId (props page);
                          uniforms := getDefaultUniforms shader;
                          showDebug := showDebug (props page) |};
              error := error page |}
  | None => None
  end.

(** [setShowDebug((prev) => !prev)] *)
Definition toggleDebug (page : Page) : option Page :=
  Some {| props := {| shaderId := shaderId (props page);
                      uniforms := uniforms (props page);
                      showDebug := negb (showDebug (props page)) |};
          error := error page |}.

(** The last [onError(error)] among some calls. *)
Definition lastError (cs : list Call) : option string :=
  fold_left (fun acc c => match c with onError e => Some e | _ => acc end)
    cs None.

(** The page, the canvas it renders, and every call made so far. *)
Record App : Type := { page : Page; canvas : World; calls : list Call }.

(** The canvas ran [c]. *)
Definition then_ (c : M unit) (app : App) : App :=
  {| page := page app;
     canvas := world (c (canvas app));
     calls := (calls app ++ trace (c (canvas app)))%list |}.

(** After a commit that made the calls [made]: if the effects called
    [onError], which is [setError], the page renders once more, with the
    same [shaderId]. *)
Definition surface (made : list Call) (app : App) : App :=
  match lastError made with
  | Some e =>
      then_ (update (props (page app)) (props (page app)))
        {| page := {| props := props (page app); error := Some e |};
           canvas := canvas app;
           calls := calls app |}
  | None => app
  end.

(** The page is opened in a container of the given size. *)
Definition open (parent_w parent_h : Q) : App :=
  let first := mount parent_w parent_h (props initialPage) in
  surface (trace first)
    {| page := initialPage; canvas := world first; calls := trace first |}.

(** A handler set new state: the page renders, the canvas commits. *)
Definition rerender (next : option Page) (app : App) : App :=
  match next with
  | Some next =>
      let commit := update (props (page app)) (props next) (canvas app) in
      surface (trace commit)
        {| page := next;
           canvas := world commit;
           calls := (calls app ++ trace commit)%list |}
  | None => app
  end.

(** What can happen to the page. *)
Inductive Event : Type :=
| frame
| mousemove (clientX clientY : Q) (rect : Rect)
| touchmove (touches : list (Q * Q)) (rect : Rect)
| resize (parent_w parent_h : Q)
| select (id : string)
| change (name : string) (value : Q)
| reset
| debug.

(** The browser runs the scheduled animation-frame callback. *)
Definition animate : M unit :=
  o <- getHost ;;
  match scheduled o with
  | Some _ => modifyHost (set_scheduled None) ;; render
  | None => ret tt
  end.

(** The canvas and the observer react only while the first effect's
    listeners are attached. *)
Definition listen (handler : M unit) : M unit :=
  o <- getHost ;;
  when (listening o) handler.

Definition step (e : Event) (app : App) : App :=
  match e with
  | frame => then_ animate app
  | mousemove clientX clientY rect =>
      then_ (listen (handleMouseMove clientX clientY rect)) app
  | touchmove touches rect =>
      then_ (listen (handleTouchMove touches rect)) app
  | resize parent_w parent_h =>
      then_ (modifyHost (set_parent parent_w parent_h) ;; listen handleResize)
        app
  | select id => rerender (handleShaderSelect id (page app)) app
  | change name value =>
      rerender (handleUniformChange name value (page app)) app
  | reset => rerender (handleResetDefaults (page app)) app
  | debug => rerender (toggleDebug (page app)) app
  end.

(** A history of the page, oldest event first. *)
Definition run (es : list Event) (app : App) : App :=
  fold_left (fun app e => step e app) es app.

End Platform.

(** Seconds since the time origin, as [render] computes them. *)
Definition elapsed (t : Q) (w : World) : Q := (t - startTimeRef (refs w)) / 1000.

(* ====================================================================== *)
(** * shader-controls-panel *)
(* ====================================================================== *)

(** [SHADER_BUTTONS]: the id each button selects, and its label. *)
Definition SHADER_BUTTONS : list (string * string) :=
  [ ("plasma", "Plas"); ("sphere", "Sphere"); ("noise", "Noise");
    ("kaleidoscope", "Kaleid"); ("aurora", "Rora") ].

(** [getDecimalPlaces(step)] of [Slider] *)
Definition getDecimalPlaces (step : Q) : nat :=
  match (step ?= 0.01)%Q with
  | Lt => 4
  | _ =>
      match (step ?= 0.1)%Q with
      | Lt => 2
      | _ =>
          match (step ?= 1)%Q with
          | Lt => 1
          | _ => 0
          end
      end
  end.

(** The [value] a slider is given:
    [uniforms[uniform.name] ?? uniform.defaultValue]. *)
Definition sliderValue (uniforms : Uniforms) (uniform : ShaderUniform.t) : Q :=
  match lookup (ShaderUniform.name uniform) uniforms with
  | Some value => value
  | None => ShaderUniform.defaultValue uniform
  end.

(* ====================================================================== *)
(** * The shaders page: shortcuts *)
(* ====================================================================== *)

(** A handler either returns or throws a [TypeError]. *)
Inductive Completion (A : Type) : Type :=
| normal (a : A)
| TypeError.
Arguments normal {A} a.
Arguments TypeError {A}.

(** [l.findIndex(f)]: [-1] when nothing is found. *)
Fixpoint findIndexFrom {A : Type} (f : A -> bool) (l : list A) (i : Z) : Z :=
  match l with
  | [] => (-1)%Z
  | a :: rest => if f a then i else findIndexFrom f rest (i + 1)%Z
  end.

Definition findIndex {A : Type} (f : A -> bool) (l : list A) : Z :=
  findIndexFrom f l 0%Z.

(** [l[i]]: [None] is [undefined]. *)
Definition at_ {A : Type} (l : list A) (i : Z) : option A :=
  if (i <? 0)%Z then None else nth_error l (Z.to_nat i).

(** [cycleShader(direction)]; the remainder [%] takes the sign of the
    dividend, and [nextShader.id] throws when [nextShader] is
    [undefined]. *)
Definition cycleShader (direction : Z) (page : Page)
  : Completion (option Page) :=
  let currentIndex :=
    findIndex (fun s => String.eqb (ShaderDefinition.id s)
                          (shaderId (props page))) SHADERS in
  let nextIndex :=
    Z.rem (currentIndex + direction + Z.of_nat (length SHADERS))
          (Z.of_nat (length SHADERS)) in
  match at_ SHADERS nextIndex with
  | Some nextShader =>
      normal (handleShaderSelect (ShaderDefinition.id nextShader) page)
  | None => TypeError
  end.

(** [if (SHADERS[i]) handleShaderSelect(SHADERS[i].id)] *)
Definition selectNth (i : Z) (page : Page) : option Page :=
  match at_ SHADERS i with
  | Some shader => handleShaderSelect (ShaderDefinition.id shader) page
  | None => None
  end.

(** [handleKeyDown(e)]: [typing] says whether [e.target] is an input or a
    text area, [code] is [e.code]. *)
Definition handleKeyDown (typing : bool) (code : string) (page : Page)
  : Completion (option Page) :=
  if typing then normal None
  else if String.eqb code "ArrowLeft" then cycleShader (-1) page
  else if String.eqb code "ArrowRight" then cycleShader 1 page
  else if String.eqb code "KeyR" then normal (handleResetDefaults page)
  else if String.eqb code "KeyD" then normal (toggleDebug page)
  else if String.eqb code "Digit1" then normal (selectNth 0 page)
  else if String.eqb code "Digit2" then normal (selectNth 1 page)
  else if String.eqb code "Digit3" then normal (selectNth 2 page)
  else if String.eqb code "Digit4" then normal (selectNth 3 page)
  else if String.eqb code "Digit5" then normal (selectNth 4 page)
  else normal None.

(** What the user can do to the page. *)
Inductive Action : Type :=
| click (id : string)
| slide (name : string) (value : Q)
| clickReset
| keydown (typing : bool) (code : string).

(** The state of the page after an action; a handler that sets no state,
    or throws, leaves it as it was. *)
Definition act (page : Page) (a : Action) : Page :=
  let settled (next : option Page) :=
    match next with Some next => next | None => page end in
  match a with
  | click id => settled (handleShaderSelect id page)
  | slide name value => settled (handleUniformChange name value page)
  | clickReset => settled (handleResetDefaults page)
  | keydown typing code =>
      match handleKeyDown typing code page with
      | normal next => settled next
      | TypeError => page
      end
  end.

(* ====================================================================== *)
(** * The same interpolation on IEEE doubles *)
(* ====================================================================== *)

Module Binary64.

(** The double nearest to [0.1], which is what the literal [0.1] denotes
    in the source. *)
Definition tenth : PrimFloat.float := 0x1.999999999999ap-4%float.

(** [lerp(a, b, t)] as the engine evaluates it. *)
Definition lerp (a b t : PrimFloat.float) : PrimFloat.float := (a + (b - a) * t)%float.

(** [|a - b|] *)
Definition gap (a b : PrimFloat.float) : PrimFloat.float := PrimFloat.abs (a - b)%float.

(** One coordinate of the smoothed position after [n] frames with the same
    target. *)
Definition frames (n : nat) (current target : PrimFloat.float)
  : PrimFloat.float :=
  Nat.iter n (fun c => lerp c target tenth) current.

End Binary64.

(* ====================================================================== *)
(** * Vocabulary of the properties *)
(* ====================================================================== *)

(** How often a shader object is created, and released, among some calls. *)
Definition creations (shader : nat) (cs : list Call) : nat :=
  length (filter (fun c => match c with
                           | gl_createShader _ s => Nat.eqb s shader
                           | _ => false
                           end) cs).

Definition releases (shader : nat) (cs : list Call) : nat :=
  length (filter (fun c => match c with
                           | gl_deleteShader s => Nat.eqb s shader
                           | _ => false
                           end) cs).

(** The calls that follow the link attempt, if one was made. *)
Fixpoint afterLink (cs : list Call) : option (list Call) :=
  match cs with
  | [] => None
  | gl_linkProgram _ :: rest => Some rest
  | _ :: rest => afterLink rest
  end.

(** The errors handed to the caller, and what went to the console. *)
Definition surfaced (cs : list Call) : list string :=
  flat_map (fun c => match c with onError e => [e] | _ => [] end) cs.

Definition logged (cs : list Call) : list (list string) :=
  flat_map (fun c => match c with console_error a => [a] | _ => [] end) cs.

Definition isDraw (c : Call) : bool :=
  match c with gl_drawArrays _ _ => true | _ => false end.

Definition isUpload (c : Call) : bool :=
  match c with
  | gl_uniform1f _ _ | gl_uniform1i _ _ | gl_uniform2fv _ _
  | gl_uniform3fv _ _ | gl_uniform4fv _ _ => true
  | _ => false
  end.

(** What [setUniform] sends: one call, or none when the program has no
    uniform of that name. *)
Definition upload (dev : Device) (program : nat) (name : string)
    (type : UniformType) (value : UniformValue) : list Call :=
  match getUniformLocation dev program name with
  | Some location => [uniform type location value]
  | None => []
  end.

(** The custom uniforms of one frame. *)
Definition customUploads (dev : Device) (program : nat) (u : Uniforms)
  : list Call :=
  flat_map (fun '(name, value) =>
              upload dev program name (if isInt name then U_int else U_float)
                (num value)) u.

(** The values sent to one uniform location. *)
Definition uploadsTo (location : nat) (cs : list Call) : list UniformValue :=
  flat_map (fun c =>
              match c with
              | gl_uniform1f l v | gl_uniform1i l v | gl_uniform2fv l v
              | gl_uniform3fv l v | gl_uniform4fv l v =>
                  if Nat.eqb l location then [v] else []
              | _ => []
              end) cs.

(** The values sent to one location as floats, and as integers. *)
Definition floatsTo (location : nat) (cs : list Call) : list UniformValue :=
  flat_map (fun c =>
              match c with
              | gl_uniform1f l v => if Nat.eqb l location then [v] else []
              | _ => []
              end) cs.

Definition intsTo (location : nat) (cs : list Call) : list UniformValue :=
  flat_map (fun c =>
              match c with
              | gl_uniform1i l v => if Nat.eqb l location then [v] else []
              | _ => []
              end) cs.

(** The type the catalog declares, as a [UniformType]. *)
Definition declared (d : ShaderUniform.t) : UniformType :=
  match ShaderUniform.type d with
  | int => U_int
  | float => U_float
  end.

(** [[0,1] x [0,1]] *)
Definition inUnitSquare (p : Point) : Prop :=
  (0 <= x p <= 1) /\ (0 <= y p <= 1).

(** One smoothing step of [render] towards [target]. *)
Definition smooth (current target : Point) : Point :=
  {| x := lerp (x current) (x target) 0.1;
     y := lerp (y current) (y target) 0.1 |}.

(** The last [n] elements. *)
Definition lastN {A : Type} (n : nat) (l : list A) : list A :=
  skipn (length l - n) l.

(** The frame rates [1000 / delta] of the frames whose clock readings are
    [ts], the reading before them being [t0]; a reading that does not
    advance the clock contributes none. *)
Fixpoint rates (t0 : Q) (ts : list Q) : list Q :=
  match ts with
  | [] => []
  | t :: rest =>
      match 0 ?= t - t0 with
      | Lt => (1000 / (t - t0)) :: rates t rest
      | _ => rates t rest
      end
  end.

(** The monitor after the frames read at [ts]. *)
Definition monitored (t0 : Q) (ts : list Q) : FPSMonitor :=
  fold_left (fun monitor t => updateFPSMonitor t monitor) ts
    (createFPSMonitor t0).

(** An event that moves the pointer puts it inside the canvas. *)
Definition pointsInside (e : Event) : Prop :=
  match e with
  | mousemove clientX clientY rect => inUnitSquare (pointer clientX clientY rect)
  | touchmove ((clientX, clientY) :: _) rect =>
      inUnitSquare (pointer clientX clientY rect)
  | _ => True
  end.

(** An event that moves the pointer happens on a canvas of positive size
    and puts the pointer inside it.  (On a canvas of no width or height the
    source divides by zero and the position is not a number.) *)
Definition positive (rect : Rect) : Prop := 0 < width rect /\ 0 < height rect.

Definition onCanvas (e : Event) : Prop :=
  match e with
  | mousemove clientX clientY rect =>
      positive rect /\ inUnitSquare (pointer clientX clientY rect)
  | touchmove ((clientX, clientY) :: _) rect =>
      positive rect /\ inUnitSquare (pointer clientX clientY rect)
  | _ => True
  end.


(** ** Invariants of the world *)

(** [c] keeps [P]: if [P] holds of the world before, it holds after. *)
Definition preserves {A : Type} (P : World -> Prop) (c : M A) : Prop :=
  forall w, P w -> P (world (c w)).

(** Both pointer positions lie in the unit square. *)
Definition pointerInside (w : World) : Prop :=
  inUnitSquare (currentMouseRef (refs w))
  /\ inUnitSquare (targetMouseRef (refs w)).

(** The clock has been read at least [k] times. *)
Definition readsAtLeast (k : nat) (w : World) : Prop :=
  (k <= reads (host w))%nat.

(** The context is held and the quad is [vao]. *)
Definition ready (vao : nat) (w : World) : Prop :=
  glRef (refs w) = true /\ vaoRef (refs w) = Some vao.

(** ** Sample devices *)

(** Uniform locations of a program that declares the standard uniforms and
    those of the plasma shader. *)
Definition plasmaLocations (name : string) : option nat :=
  if String.eqb name "u_time" then Some 0%nat
  else if String.eqb name "u_resolution" then Some 1%nat
  else if String.eqb name "u_mouse" then Some 2%nat
  else if String.eqb name "u_speed" then Some 3%nat
  else if String.eqb name "u_scale" then Some 4%nat
  else if String.eqb name "u_colorShift" then Some 5%nat
  else None.

(** A device on which everything succeeds; the clock advances 16 ms per
    reading. *)
Definition desktop : Device :=
  {| getContext := true;
     allocates := fun _ => true;
     COMPILE_STATUS := fun _ _ => true;
     getShaderInfoLog := fun _ _ => "";
     LINK_STATUS := fun _ => true;
     getProgramInfoLog := fun _ => "";
     getUniformLocation := fun _ => plasmaLocations;
     performance_now := fun n => inject_Z (Z.of_nat n) * 16 |}.

(** The same device with a driver that rejects the sphere shader. *)
Definition picky : Device :=
  {| getContext := true;
     allocates := fun _ => true;
     COMPILE_STATUS := fun type source =>
       match type with
       | VERTEX_SHADER => true
       | FRAGMENT_SHADER => negb (String.eqb source sphereFragmentSource)
       end;
     getShaderInfoLog := fun _ _ => "ERROR: 0:12: 'for' : loop limit exceeded";
     LINK_STATUS := fun _ => true;
     getProgramInfoLog := fun _ => "";
     getUniformLocation := fun _ => plasmaLocations;
     performance_now := fun n => inject_Z (Z.of_nat n) * 16 |}.

(** A parameter the catalog could declare: an integer whose name has
    neither "octave" nor "segment" in it. *)
Definition stepsUniform : ShaderUniform.t :=
  ShaderUniform.mk "u_steps" "Steps" int 1 64 1 8.

(** A device whose programs declare [u_steps], at location 3. *)
Definition lab : Device :=
  {| getContext := true;
     allocates := fun _ => true;
     COMPILE_STATUS := fun _ _ => true;
     getShaderInfoLog := fun _ _ => "";
     LINK_STATUS := fun _ => true;
     getProgramInfoLog := fun _ => "";
     getUniformLocation := fun _ name =>
       if String.eqb name "u_steps" then Some 3%nat else None;
     performance_now := fun n => inject_Z (Z.of_nat n) * 16 |}.

(** A canvas in mid-session: context held, program 4 installed, quad 0. *)
Definition running (u : Uniforms) (error : bool) : World :=
  {| refs :=
       {| glRef := true; programRef := Some 4%nat; vaoRef := Some 0%nat;
          animationFrameRef := 5; startTimeRef := 0;
          fpsMonitorRef := createFPSMonitor 0; hasErrorRef := error;
          targetMouseRef := {| x := 0.5; y := 0.5 |};
          currentMouseRef := {| x := 0.5; y := 0.5 |};
          uniformsRef := u; showDebugRef := false |};
     host :=
       {| canvas_width := 800; canvas_height := 600;
          parent_width := 800; parent_height := 600;
          reads := 2; nextName := 6; scheduled := Some 5%nat;
          debugCanvas := false; listening := true |} |}.

(** The desktop with a clock that advances half a second per reading. *)
Definition slow : Device :=
  {| getContext := true;
     allocates := fun _ => true;
     COMPILE_STATUS := fun _ _ => true;
     getShaderInfoLog := fun _ _ => "";
     LINK_STATUS := fun _ => true;
     getProgramInfoLog := fun _ => "";
     getUniformLocation := fun _ => plasmaLocations;
     performance_now := fun n => inject_Z (Z.of_nat n) * 500 |}.

(** The page on that device, three frames after it was opened. *)
Definition watched : App :=
  run slow [frame; frame; frame] (open slow 800 600).

(* ====================================================================== *)
(** * Vocabulary of the further properties *)
(* ====================================================================== *)

(** The keys of a map, in its order. *)
Definition keys (u : Uniforms) : list string := map fst u.

(** The names a shader declares, and the map that holds each at its
    default. *)
Definition names (shader : ShaderDefinition.t) : list string :=
  map ShaderUniform.name (ShaderDefinition.uniforms shader).

Definition defaultsOf (shader : ShaderDefinition.t) : Uniforms :=
  map (fun d => (ShaderUniform.name d, ShaderUniform.defaultValue d))
    (ShaderDefinition.uniforms shader).

(** The page shows a catalog shader and its map has a value for every
    parameter that shader declares. *)
Definition complete (page : Page) : Prop :=
  exists shader,
    getShaderById (shaderId (props page)) = Some shader
    /\ forall d,
         In d (ShaderDefinition.uniforms shader) ->
         lookup (ShaderUniform.name d) (uniforms (props page)) <> None.

(** The smallest difference [toFixed(places)] can show: [10^-places]. *)
Definition displayUnit (places : nat) : Q :=
  1 / inject_Z (10 ^ Z.of_nat places).

(** The refs of the canvas hold the props [p]. *)
Definition mirrors (p : Props) (w : World) : Prop :=
  uniformsRef (refs w) = uniforms p /\ showDebugRef (refs w) = showDebug p.

(** From a world where [P] holds, [c] leads to one where [Q] holds. *)
Definition leads {A : Type} (P : World -> Prop) (c : M A) (Q : World -> Prop)
  : Prop :=
  forall w, P w -> Q (world (c w)).

(** No frame is pending and no listener is attached. *)
Definition stopped (w : World) : Prop :=
  scheduled (host w) = None /\ listening (host w) = false.

(** A frame is pending exactly while the listeners are attached, and the
    pending frame is the one [animationFrameRef] names. *)
Definition looping (w : World) : Prop :=
  match scheduled (host w) with
  | Some id => listening (host w) = true /\ animationFrameRef (refs w) = id
  | None => listening (host w) = false
  end.

(** A device on which nothing fails: it hands out a context and every
    object asked for, and every shader compiles and links. *)
Definition working (dev : Device) : Prop :=
  getContext dev = true
  /\ (forall k, allocates dev k = true)
  /\ (forall type source, COMPILE_STATUS dev type source = true)
  /\ (forall program, LINK_STATUS dev program = true).

(** Calls that hand the page no error. *)
Definition quiet (cs : list Call) : Prop := surfaced cs = [].

(** How often a program is linked among some calls. *)
Definition links (cs : list Call) : nat :=
  length (filter (fun c => match c with gl_linkProgram _ => true | _ => false end)
            cs).

(** Calls that hand the page no error and link [n] programs. *)
Definition tally (n : nat) (cs : list Call) : Prop :=
  quiet cs /\ links cs = n.

(** Whatever the world, the calls [c] makes satisfy [T]. *)
Definition always {A : Type} (T : list Call -> Prop) (c : M A) : Prop :=
  forall w, T (trace (c w)).

(** From a world where [P] holds, [c] returns a value and a world that
    satisfy [Q], and the calls it makes satisfy [T]. *)
Definition hoare {A : Type} (T : list Call -> Prop) (P : World -> Prop)
    (c : M A) (Q : A -> World -> Prop) : Prop :=
  forall w, P w -> Q (value (c w)) (world (c w)) /\ T (trace (c w)).

(** The context, the quad and a program are held and no error is
    flagged. *)
Definition built (w : World) : Prop :=
  glRef (refs w) = true
  /\ vaoRef (refs w) <> None
  /\ programRef (refs w) <> None
  /\ hasErrorRef (refs w) = false.

(** The canvas animates: everything is built, a frame is pending and the
    listeners are attached. *)
Definition rendering (w : World) : Prop :=
  built w
  /\ scheduled (host w) = Some (animationFrameRef (refs w))
  /\ listening (host w) = true.

(** The page animates and shows no error, and none was ever raised. *)
Definition healthy (app : App) : Prop :=
  rendering (canvas app)
  /\ error (page app) = None
  /\ quiet (calls app).

(** A call that draws the frame-rate overlay. *)
Definition isOverlay (c : Call) : bool :=
  match c with drawDebugOverlay _ => true | _ => false end.

(** An event that does not select a shader. *)
Definition keepsShader (e : Event) : Prop :=
  match e with select _ => False | _ => True end.

(** The program objects created and not yet deleted, after the calls [cs],
    given those alive before. *)
Definition alive (cs : list Call) (before : list nat) : list nat :=
  fold_left (fun l c =>
               match c with
               | gl_createProgram p => p :: l
               | gl_deleteProgram p => filter (fun q => negb (Nat.eqb q p)) l
               | _ => l
               end) cs before.

(** The program the component holds. *)
Definition held (w : World) : list nat :=
  match programRef (refs w) with
  | Some program => [program]
  | None => []
  end.

(** [c] accounts for its programs: if those alive before it are the one
    held, so are those alive after it. *)
Definition keeps {A : Type} (c : M A) : Prop :=
  forall w l, l = held w -> alive (trace (c w)) l = held (world (c w)).

(** The time origin is a reading of the clock that has been taken. *)
Definition timed (dev : Device) (w : World) : Prop :=
  exists k,
    (k < reads (host w))%nat
    /\ startTimeRef (refs w) = performance_now dev k.

(** The clock never runs backwards. *)
Definition monotone (dev : Device) : Prop :=
  forall i j, (i <= j)%nat -> performance_now dev i <= performance_now dev j.

(** The calls never delete the vertex array [vao]. *)
Definition spares (vao : nat) (cs : list Call) : Prop :=
  ~ In (gl_deleteVertexArray vao) cs.

(** A call that reports an error, to the console or to the page. *)
Definition isReport (c : Call) : bool :=
  match c with console_error _ | onError _ => true | _ => false end.

(** A canvas without a context: nothing is held, nothing is pending, the
    error is flagged. *)
Definition dead (w : World) : Prop :=
  glRef (refs w) = false
  /\ vaoRef (refs w) = None
  /\ programRef (refs w) = None
  /\ hasErrorRef (refs w) = true
  /\ scheduled (host w) = None
  /\ listening (host w) = false.

(** The page on the picky device after the sphere shader was selected and
    failed to build. *)
Definition stalled : App := run picky [select "sphere"] (open picky 800 600).

(** The page around a canvas in mid-session. *)
Definition session : App :=
  {| page := initialPage;
     canvas := running (uniforms (props initialPage)) false;
     calls := [] |}.

(** A browser without WebGL2: [getContext("webgl2")] is [null]. *)
Definition legacy : Device :=
  {| getContext := false;
     allocates := fun _ => true;
     COMPILE_STATUS := fun _ _ => true;
     getShaderInfoLog := fun _ _ => "";
     LINK_STATUS := fun _ => true;
     getProgramInfoLog := fun _ => "";
     getUniformLocation := fun _ => plasmaLocations;
     performance_now := fun n => inject_Z (Z.of_nat n) * 16 |}.

(** A device on which the shader [shaderDef] builds: it hands out a context
    and every object asked for, the vertex stage and this fragment source
    compile, and every program links. *)
Definition builds (dev : Device) (shaderDef : ShaderDefinition.t) : Prop :=
  getContext dev = true
  /\ (forall k, allocates dev k = true)
  /\ COMPILE_STATUS dev VERTEX_SHADER VERTEX_SHADER_SOURCE = true
  /\ COMPILE_STATUS dev FRAGMENT_SHADER
       (ShaderDefinition.fragmentSource shaderDef) = true
  /\ (forall program, LINK_STATUS dev program = true).

(** A property name that JavaScript treats like any other: it does not
    start with a digit, so it is not an array index (which an object
    enumerates before its other keys), and it is not [__proto__] (which an
    assignment does not add as a key). *)
Definition isDigit (c : ascii) : bool :=
  (48 <=? nat_of_ascii c)%nat && (nat_of_ascii c <=? 57)%nat.

Definition ordinaryKey (name : string) : bool :=
  match name with
  | EmptyString => true
  | String c _ => negb (isDigit c)
  end
  && negb (String.eqb name "__proto__").


(* ====================================================================== *)
(** * The frame-rate monitor *)
(* ====================================================================== *)

Lemma tl_skipn {A : Type} (k : nat) (l : list A) :
  tl (skipn k l) = skipn (S k) l.
Proof.
  revert l. induction k as [|k IH]; intros l.
  - destruct l as [|a [|b l]]; reflexivity.
  - destruct l as [|a l]; [reflexivity|]. exact (IH l).
Qed.

Lemma lastN_short {A : Type} (n : nat) (l : list A) :
  (length l <= n)%nat -> lastN n l = l.
Proof.
  intros H. unfold lastN. replace (length l - n)%nat with 0%nat by lia.
  reflexivity.
Qed.

Lemma length_lastN {A : Type} (n : nat) (l : list A) :
  length (lastN n l) = Nat.min n (length l).
Proof. unfold lastN. rewrite length_skipn. lia. Qed.

(** Pushing onto a window of the last 30 and shifting when it overflows
    gives the window of the last 30 again. *)
Lemma lastN_push (h : list Q) (fps : Q) :
  (let pushed := (lastN FPS_SAMPLE_SIZE h ++ [fps])%list in
   if (FPS_SAMPLE_SIZE <? length pushed)%nat then tl pushed else pushed)
  = lastN FPS_SAMPLE_SIZE (h ++ [fps]).
Proof.
  cbv zeta. unfold FPS_SAMPLE_SIZE.
  rewrite length_app, length_lastN. cbn [length].
  unfold lastN at 3. rewrite length_app. cbn [length].
  destruct (Nat.ltb_spec 30 (Nat.min 30 (length h) + 1)) as [Hlt | Hge].
  - assert (Hlen : (30 <= length h)%nat) by lia.
    unfold lastN.
    rewrite skipn_app.
    replace (length h + 1 - 30 - length h)%nat with 0%nat by lia.
    replace (length h + 1 - 30)%nat with (S (length h - 30)) by lia.
    rewrite <- tl_skipn. cbn [skipn].
    assert (Hne : skipn (length h - 30) h <> []).
    { intros E. apply (f_equal (@length Q)) in E.
      rewrite length_skipn in E. cbn in E. lia. }
    destruct (skipn (length h - 30) h); [congruence | reflexivity].
  - assert (Hlen : (length h < 30)%nat) by lia.
    rewrite (lastN_short _ h) by lia.
    replace (length h + 1 - 30)%nat with 0%nat by lia.
    reflexivity.
Qed.

Lemma updateFPSMonitor_lastTime (now : Q) (monitor : FPSMonitor) :
  lastTime (updateFPSMonitor now monitor) = now.
Proof. unfold updateFPSMonitor. destruct (0 ?= _); reflexivity. Qed.

(** One update keeps the bound. *)
Lemma updateFPSMonitor_bound (now : Q) (monitor : FPSMonitor) :
  (length (samples monitor) <= FPS_SAMPLE_SIZE)%nat ->
  (length (samples (updateFPSMonitor now monitor)) <= FPS_SAMPLE_SIZE)%nat.
Proof.
  unfold updateFPSMonitor, FPS_SAMPLE_SIZE. intros H.
  destruct (0 ?= now - lastTime monitor); cbn [samples]; try assumption.
  rewrite length_app. cbn [length].
  destruct (Nat.ltb_spec 30 (length (samples monitor) + 1)).
  - destruct (samples monitor) as [|a l]; cbn in *; [lia|].
    rewrite length_app. cbn. lia.
  - rewrite length_app. cbn. lia.
Qed.

(** The window a monitor holds after more frames, in terms of the rates the
    monitor has seen. *)
Lemma samples_window (ts : list Q) :
  forall (monitor : FPSMonitor) (seen : list Q),
    samples monitor = lastN FPS_SAMPLE_SIZE seen ->
    samples (fold_left (fun monitor t => updateFPSMonitor t monitor) ts monitor)
    = lastN FPS_SAMPLE_SIZE (seen ++ rates (lastTime monitor) ts).
Proof.
  induction ts as [|t ts IH]; intros monitor seen Hs; cbn [fold_left rates].
  - now rewrite app_nil_r.
  - rewrite (IH (updateFPSMonitor t monitor)
               (match 0 ?= t - lastTime monitor with
                | Lt => seen ++ [1000 / (t - lastTime monitor)]
                | _ => seen
                end)%list).
    + rewrite updateFPSMonitor_lastTime.
      destruct (0 ?= t - lastTime monitor); try reflexivity.
      now rewrite <- app_assoc.
    + unfold updateFPSMonitor.
      destruct (0 ?= t - lastTime monitor); cbn [samples]; try assumption.
      rewrite Hs. apply lastN_push.
Qed.

(** C9.  The history the frame-rate monitor stores never exceeds 30
    entries: after any number of updates of a freshly created monitor it is
    the window of the 30 most recent frame rates [1000 / delta] (one per
    frame whose clock reading advanced), and one more update keeps the
    bound. *)
Theorem fps_history_bounded (t0 : Q) (ts : list Q) (t : Q) :
  samples (monitored t0 ts) = lastN FPS_SAMPLE_SIZE (rates t0 ts)
  /\ (length (samples (monitored t0 ts)) <= 30)%nat
  /\ (length (samples (updateFPSMonitor t (monitored t0 ts))) <= 30)%nat.
Proof.
  assert (W : samples (monitored t0 ts) = lastN FPS_SAMPLE_SIZE (rates t0 ts)).
  { unfold monitored.
    rewrite (samples_window ts (createFPSMonitor t0) []); reflexivity. }
  assert (B : (length (samples (monitored t0 ts)) <= 30)%nat).
  { rewrite W, length_lastN. unfold FPS_SAMPLE_SIZE. lia. }
  repeat split; try assumption.
  apply updateFPSMonitor_bound. exact B.
Qed.

(* ====================================================================== *)
(** * Pointer smoothing *)
(* ====================================================================== *)

Lemma lerp_between (a b : Q) :
  0 <= a <= 1 -> 0 <= b <= 1 -> 0 <= lerp a b 0.1 <= 1.
Proof.
  intros [Ha0 Ha1] [Hb0 Hb1].
  assert (E : lerp a b 0.1 == 0.9 * a + 0.1 * b) by (unfold lerp; field).
  rewrite E. split; lra.
Qed.

Lemma smooth_inside (current target : Point) :
  inUnitSquare current -> inUnitSquare target ->
  inUnitSquare (smooth current target).
Proof.
  intros [Hx Hy] [Tx Ty]. split; cbn [smooth x y]; now apply lerp_between.
Qed.

(* ====================================================================== *)
(** * Outcomes of the building blocks *)
(* ====================================================================== *)

(** Unfold the sequencing combinators and the primitives. *)
Ltac run :=
  unfold bind, ret, when, call, getRefs, getHost, modifyRefs, modifyHost;
  cbn.

Lemma setUniform_outcome (dev : Device) (program : nat) (name : string)
    (type : UniformType) (value : UniformValue) (w : World) :
  setUniform dev program name type value w
  = {| value := tt; world := w; trace := upload dev program name type value |}.
Proof.
  unfold setUniform, upload.
  destruct (getUniformLocation dev program name); reflexivity.
Qed.

(** A loop whose body only makes calls. *)
Lemma forEach_calls {A : Type} (f : A -> list Call) (body : A -> M unit)
    (l : list A) :
  (forall a w, body a w = {| value := tt; world := w; trace := f a |}) ->
  forall w, forEach l body w
            = {| value := tt; world := w; trace := flat_map f l |}.
Proof.
  intros Hbody. induction l as [|a l IH]; intros w; cbn [forEach flat_map].
  - reflexivity.
  - unfold bind. rewrite Hbody, IH. reflexivity.
Qed.

(** The frame that draws: what it calls. *)
Lemma render_draws_trace (dev : Device) (w : World) (program vao : nat) :
  programRef (refs w) = Some program ->
  vaoRef (refs w) = Some vao ->
  hasErrorRef (refs w) = false ->
  trace (render dev w)
  = ([ gl_clearColor 0.02 0.02 0.05 1.0; gl_clear;
       gl_useProgram program; gl_bindVertexArray (Some vao) ]
     ++ upload dev program "u_time" U_float
          (num ((performance_now dev (S (reads (host w)))
                 - startTimeRef (refs w)) / 1000))
     ++ upload dev program "u_resolution" U_vec2
          (arr [canvas_width (host w); canvas_height (host w)])
     ++ upload dev program "u_mouse" U_vec2
          (arr [x (smooth (currentMouseRef (refs w)) (targetMouseRef (refs w)));
                y (smooth (currentMouseRef (refs w)) (targetMouseRef (refs w)))])
     ++ customUploads dev program (uniformsRef (refs w))
     ++ [ gl_drawArrays 0 6; gl_bindVertexArray None ]
     ++ (if showDebugRef (refs w) && debugCanvas (host w)
         then [drawDebugOverlay
                 (currentFPS (updateFPSMonitor
                                (performance_now dev (reads (host w)))
                                (fpsMonitorRef (refs w))))]
         else [])
     ++ [ requestAnimationFrame (nextName (host w)) ])%list.
Proof.
  intros Hp Hv He. unfold render, now, request_frame, clearToBackground. run.
  rewrite Hp, Hv, He. cbn.
  rewrite !setUniform_outcome. cbn.
  rewrite (forEach_calls
             (fun '(name, value) =>
                upload dev program name (if isInt name then U_int else U_float)
                  (num value))).
  2:{ intros [name value] w'. apply setUniform_outcome. }
  cbn. unfold customUploads.
  destruct (showDebugRef (refs w) && debugCanvas (host w)); cbn;
    rewrite <- ?app_assoc; cbn; rewrite ?app_nil_r; reflexivity.
Qed.

(** The frame that draws: the world it leaves. *)
Lemma render_draws_world (dev : Device) (w : World) (program vao : nat) :
  programRef (refs w) = Some program ->
  vaoRef (refs w) = Some vao ->
  hasErrorRef (refs w) = false ->
  world (render dev w)
  = {| refs :=
         set_animationFrameRef (nextName (host w))
           (set_currentMouseRef
              (smooth (currentMouseRef (refs w)) (targetMouseRef (refs w)))
              (set_fpsMonitorRef
                 (updateFPSMonitor (performance_now dev (reads (host w)))
                    (fpsMonitorRef (refs w)))
                 (refs w)));
       host :=
         set_scheduled (Some (nextName (host w)))
           (set_nextName (S (nextName (host w)))
              (set_reads (S (S (reads (host w)))) (host w))) |}.
Proof.
  intros Hp Hv He. unfold render, now, request_frame, clearToBackground. run.
  rewrite Hp, Hv, He. cbn.
  rewrite !setUniform_outcome. cbn.
  rewrite (forEach_calls
             (fun '(name, value) =>
                upload dev program name (if isInt name then U_int else U_float)
                  (num value))).
  2:{ intros [name value] w'. apply setUniform_outcome. }
  cbn. destruct (showDebugRef (refs w) && debugCanvas (host w)); reflexivity.
Qed.

(** Any other frame: no program, no quad, or the error flag. *)
Lemma render_idles (dev : Device) (w : World) :
  (programRef (refs w) = None \/ vaoRef (refs w) = None
   \/ hasErrorRef (refs w) = true) ->
  render dev w
  = {| value := tt;
       world :=
         {| refs := set_animationFrameRef (nextName (host w)) (refs w);
            host := set_scheduled (Some (nextName (host w)))
                      (set_nextName (S (nextName (host w))) (host w)) |};
       trace :=
         (if hasErrorRef (refs w)
          then [gl_clearColor 0.02 0.02 0.05 1.0; gl_clear]
          else [])
         ++ [requestAnimationFrame (nextName (host w))] |}.
Proof.
  intros H. unfold render, request_frame, clearToBackground. run.
  destruct (programRef (refs w)) as [program|],
           (vaoRef (refs w)) as [vao|],
           (hasErrorRef (refs w));
    try reflexivity.
  destruct H as [H | [H | H]]; discriminate.
Qed.

(* ====================================================================== *)
(** * Invariants through the sequencing combinators *)
(* ====================================================================== *)

Create HintDb preserve.

Section Preserves.

Variable P : World -> Prop.

Lemma preserves_ret {A : Type} (a : A) : preserves P (ret a).
Proof. intros w H. exact H. Qed.

Lemma preserves_bind {A B : Type} (c : M A) (k : A -> M B) :
  preserves P c -> (forall a, preserves P (k a)) -> preserves P (bind c k).
Proof.
  intros Hc Hk w H. unfold bind.
  specialize (Hc w H). destruct (c w) as [a w1 t1]. cbn [world] in Hc.
  specialize (Hk a w1 Hc). destruct (k a w1) as [b w2 t2]. exact Hk.
Qed.

Lemma preserves_call (c : Call) : preserves P (call c).
Proof. intros w H. exact H. Qed.

Lemma preserves_getRefs : preserves P getRefs.
Proof. intros w H. exact H. Qed.

Lemma preserves_getHost : preserves P getHost.
Proof. intros w H. exact H. Qed.

Lemma preserves_when (c : bool) (k : M unit) :
  preserves P k -> preserves P (when c k).
Proof. intros Hk. destruct c; [exact Hk | apply preserves_ret]. Qed.

Lemma preserves_forEach {A : Type} (l : list A) (body : A -> M unit) :
  (forall a, preserves P (body a)) -> preserves P (forEach l body).
Proof.
  intros Hb. induction l as [|a l IH]; cbn [forEach].
  - apply preserves_ret.
  - apply preserves_bind; [apply Hb | intros _; exact IH].
Qed.

Lemma preserves_modifyRefs (f : Refs -> Refs) :
  (forall r o, P {| refs := r; host := o |} ->
               P {| refs := f r; host := o |}) ->
  preserves P (modifyRefs f).
Proof. intros Hf [r o] H. apply Hf, H. Qed.

Lemma preserves_modifyHost (f : Host -> Host) :
  (forall r o, P {| refs := r; host := o |} ->
               P {| refs := r; host := f o |}) ->
  preserves P (modifyHost f).
Proof. intros Hf [r o] H. apply Hf, H. Qed.

End Preserves.

(** Walk through a computation: sequencing by [preserves_bind], a branch by
    cases, a primitive update or a known function by [auto]. *)
Ltac preserve :=
  repeat
    (match goal with
     | |- preserves _ (bind _ _) => apply preserves_bind; [| intro]
     | |- preserves _ (ret _) => apply preserves_ret
     | |- preserves _ (call _) => apply preserves_call
     | |- preserves _ getRefs => apply preserves_getRefs
     | |- preserves _ getHost => apply preserves_getHost
     | |- preserves _ (when _ _) => apply preserves_when
     | |- preserves _ (forEach _ _) => apply preserves_forEach; intro
     | |- preserves _ (modifyRefs _) =>
         apply preserves_modifyRefs; solve [auto]
     | |- preserves _ (modifyHost _) =>
         apply preserves_modifyHost; solve [auto]
     | |- preserves _ (match ?s with _ => _ end) => destruct s
     | |- preserves _ _ => solve [auto]
     end).

(* ====================================================================== *)
(** * Invariants through the component *)
(* ====================================================================== *)

(** What an invariant must be insensitive to, update by update; each lemma
    below depends on the closure properties its function needs and on no
    other. *)
Section Invariant.

Variable dev : Device.
Variable P : World -> Prop.

Local Notation "r & o" := {| refs := r; host := o |} (at level 40).

(** The page around the component. *)
Hypothesis P_canvas : forall a b r o, P (r & o) -> P (r & set_canvas a b o).
Hypothesis P_parent : forall a b r o, P (r & o) -> P (r & set_parent a b o).
Hypothesis P_reads :
  forall r o, P (r & o) -> P (r & set_reads (S (reads o)) o).
Hypothesis P_nextName : forall v r o, P (r & o) -> P (r & set_nextName v o).
Hypothesis P_scheduled : forall v r o, P (r & o) -> P (r & set_scheduled v o).
Hypothesis P_debugCanvas :
  forall v r o, P (r & o) -> P (r & set_debugCanvas v o).
Hypothesis P_listening : forall v r o, P (r & o) -> P (r & set_listening v o).

(** The refs. *)
Hypothesis P_gl : forall v r o, P (r & o) -> P (set_glRef v r & o).
Hypothesis P_program : forall v r o, P (r & o) -> P (set_programRef v r & o).
Hypothesis P_vao : forall v r o, P (r & o) -> P (set_vaoRef v r & o).
Hypothesis P_animationFrame :
  forall v r o, P (r & o) -> P (set_animationFrameRef v r & o).
Hypothesis P_startTime :
  forall v r o, P (r & o) -> P (set_startTimeRef v r & o).
Hypothesis P_hasError :
  forall v r o, P (r & o) -> P (set_hasErrorRef v r & o).
Hypothesis P_uniforms :
  forall v r o, P (r & o) -> P (set_uniformsRef v r & o).
Hypothesis P_showDebug :
  forall v r o, P (r & o) -> P (set_showDebugRef v r & o).
Hypothesis P_monitor :
  forall t r o, P (r & o) -> P (set_fpsMonitorRef (createFPSMonitor t) r & o).

(** What a drawing frame does to the monitor and the pointer. *)
Hypothesis P_frame :
  forall t r o,
    P (r & o) ->
    P (set_currentMouseRef (smooth (currentMouseRef r) (targetMouseRef r))
         (set_fpsMonitorRef (updateFPSMonitor t (fpsMonitorRef r)) r) & o).

(** A pointer event inside the canvas. *)
Hypothesis P_target :
  forall p r o,
    inUnitSquare p -> P (r & o) -> P (set_targetMouseRef p r & o).

Lemma now_preserves : preserves P (now dev).
Proof. intros [r o] H. unfold now. run. apply P_reads, H. Qed.

Lemma create_preserves (made : nat -> Call) : preserves P (create dev made).
Proof. unfold create. preserve. Qed.

Lemma request_frame_preserves : preserves P request_frame.
Proof. unfold request_frame. preserve. Qed.

Lemma cancel_frame_preserves (id : nat) : preserves P (cancel_frame id).
Proof. unfold cancel_frame. preserve. Qed.

Hint Resolve now_preserves create_preserves request_frame_preserves
  cancel_frame_preserves : core.

Lemma createWebGLContext_preserves : preserves P (createWebGLContext dev).
Proof. unfold createWebGLContext. preserve. Qed.

Lemma compileShader_preserves (type : ShaderType) (source : string) :
  preserves P (compileShader dev type source).
Proof. unfold compileShader. preserve. Qed.

Lemma createProgram_preserves (vertexShader fragmentShader : nat) :
  preserves P (createProgram dev vertexShader fragmentShader).
Proof. unfold createProgram. preserve. Qed.

Lemma createFullscreenQuad_preserves :
  preserves P (createFullscreenQuad dev).
Proof. unfold createFullscreenQuad. preserve. Qed.

Lemma fail_preserves (error : string) : preserves P (fail error).
Proof. unfold fail. preserve. Qed.

Hint Resolve createWebGLContext_preserves compileShader_preserves
  createProgram_preserves createFullscreenQuad_preserves fail_preserves
  : core.

Lemma initShader_preserves (shaderId : string) :
  preserves P (initShader dev shaderId).
Proof. unfold initShader. preserve. Qed.

Lemma handleResize_preserves : preserves P handleResize.
Proof. unfold handleResize. preserve. Qed.

Lemma render_preserves : preserves P (render dev).
Proof.
  intros [r o] H.
  destruct (programRef r) as [program|] eqn:Hp;
    [destruct (vaoRef r) as [vao|] eqn:Hv;
     [destruct (hasErrorRef r) eqn:He|]|].
  2:{ rewrite (render_draws_world dev (r & o) program vao Hp Hv He).
      cbn [refs host].
      apply P_animationFrame, P_scheduled, P_nextName.
      change (set_reads (S (S (reads o))) o)
        with (set_reads (S (reads (set_reads (S (reads o)) o)))
                (set_reads (S (reads o)) o)).
      apply P_reads, P_reads, P_frame, H. }
  all: rewrite render_idles by (cbn [refs]; auto);
    cbn [world refs host];
    apply P_animationFrame, P_scheduled, P_nextName, H.
Qed.

Hint Resolve initShader_preserves handleResize_preserves render_preserves
  : core.

Lemma startEffect_preserves (shaderId : string) :
  preserves P (startEffect dev shaderId).
Proof. unfold startEffect. preserve. Qed.

Lemma stopEffect_preserves : preserves P stopEffect.
Proof. unfold stopEffect. preserve. Qed.

Lemma shaderIdEffect_preserves (shaderId : string) :
  preserves P (shaderIdEffect dev shaderId).
Proof. unfold shaderIdEffect. preserve. Qed.

Lemma evaluate_preserves : preserves P (evaluate dev).
Proof. unfold evaluate. preserve. Qed.

Hint Resolve startEffect_preserves stopEffect_preserves
  shaderIdEffect_preserves evaluate_preserves : core.

Lemma effects_preserves (changed : bool) (p : Props) :
  preserves P (effects dev changed p).
Proof. unfold effects. preserve. Qed.

Hint Resolve effects_preserves : core.

Lemma update_preserves (prev p : Props) : preserves P (update dev prev p).
Proof. unfold update. preserve. Qed.

Lemma animate_preserves : preserves P (animate dev).
Proof. unfold animate. preserve. Qed.

Hint Resolve update_preserves animate_preserves : core.

Lemma surface_preserves (made : list Call) (app : App) :
  P (canvas app) -> P (canvas (surface dev made app)).
Proof.
  intros H. unfold surface. destruct (lastError made); [|exact H].
  cbn [then_ canvas]. now apply update_preserves.
Qed.

Lemma rerender_preserves (next : option Page) (app : App) :
  P (canvas app) -> P (canvas (rerender dev next app)).
Proof.
  intros H. unfold rerender. destruct next as [next|]; [|exact H].
  apply surface_preserves. cbn [canvas]. now apply update_preserves.
Qed.

Lemma then_preserves (c : M unit) (app : App) :
  preserves P c -> P (canvas app) -> P (canvas (then_ c app)).
Proof. intros Hc H. cbn [then_ canvas]. now apply Hc. Qed.

(** One event keeps the invariant, if a pointer event lands inside. *)
Lemma step_preserves (e : Event) (app : App) :
  pointsInside e -> P (canvas app) -> P (canvas (step dev e app)).
Proof.
  intros He H.
  destruct e; cbn [step]; try (now apply rerender_preserves);
    (apply then_preserves; [unfold listen | exact H]).
  - preserve.
  - unfold handleMouseMove. cbn [pointsInside] in He. preserve.
  - unfold handleTouchMove. destruct touches as [|[clientX clientY] rest];
      cbn [pointsInside] in He; preserve.
  - preserve.
Qed.

(** A history of events keeps it. *)
Lemma run_preserves (es : list Event) :
  Forall pointsInside es ->
  forall app, P (canvas app) -> P (canvas (run dev es app)).
Proof.
  unfold run. induction 1 as [|e es He _ IH]; intros app H; cbn [fold_left].
  - exact H.
  - apply IH. now apply step_preserves.
Qed.

(** The page as opened satisfies it, if the first render does. *)
Lemma open_preserves (parent_w parent_h : Q) :
  (forall w0,
      currentMouseRef (refs w0) = {| x := 0.5; y := 0.5 |} ->
      targetMouseRef (refs w0) = {| x := 0.5; y := 0.5 |} ->
      samples (fpsMonitorRef (refs w0)) = [] ->
      P w0) ->
  P (canvas (open dev parent_w parent_h)).
Proof.
  intros H0. unfold open. apply surface_preserves. cbn [canvas].
  unfold mount. apply effects_preserves. apply H0; reflexivity.
Qed.

End Invariant.

(* ====================================================================== *)
(** * Building a program: [initShader] *)
(* ====================================================================== *)

(** Unfold [initShader] down to the primitives and decide every answer of
    the device and every ref it reads, one case per path through it. *)
Ltac paths :=
  unfold initShader, compileShader, createProgram, create, fail;
  unfold bind, ret, when, call, getRefs, getHost, modifyRefs, modifyHost;
  repeat
    (cbn -[getShaderById Nat.eqb];
     match goal with
     | |- context [glRef ?r] => destruct (glRef r) eqn:?
     | |- context [programRef ?r] => destruct (programRef r) eqn:?
     | |- context [getShaderById ?i] => destruct (getShaderById i) eqn:?
     | |- context [allocates ?d ?n] => destruct (allocates d n) eqn:?
     | |- context [COMPILE_STATUS ?d ?t ?s] =>
         destruct (COMPILE_STATUS d t s) eqn:?
     | |- context [LINK_STATUS ?d ?p] => destruct (LINK_STATUS d p) eqn:?
     end);
  cbn -[getShaderById Nat.eqb].

(** C6.  Whatever the device answers (no object, a compile error in
    either stage, a link error, success), every shader object that
    [initShader] creates is deleted exactly once before it returns: among
    its calls each shader name is created at most once and deleted as often
    as it is created.  When a link is attempted, both deletions come after
    it, whether it succeeded or not. *)
Theorem stage_handles_released_once (dev : Device) (shaderId : string)
    (w : World) (shader : nat) :
  releases shader (trace (initShader dev shaderId w))
  = creations shader (trace (initShader dev shaderId w))
  /\ (creations shader (trace (initShader dev shaderId w)) <= 1)%nat
  /\ (forall rest,
         afterLink (trace (initShader dev shaderId w)) = Some rest ->
         releases shader rest
         = creations shader (trace (initShader dev shaderId w))).
Proof.
  unfold releases, creations. split; [|split].
  - paths;
      repeat match goal with
             | |- context [Nat.eqb ?a ?b] =>
                 destruct (Nat.eqb_spec a b); cbn -[Nat.eqb]
             end;
      lia.
  - paths;
      repeat match goal with
             | |- context [Nat.eqb ?a ?b] =>
                 destruct (Nat.eqb_spec a b); cbn -[Nat.eqb]
             end;
      lia.
  - intros rest. paths; intros H; try discriminate H;
      injection H as <-; cbn -[Nat.eqb];
      repeat match goal with
             | |- context [Nat.eqb ?a ?b] =>
                 destruct (Nat.eqb_spec a b); cbn -[Nat.eqb]
             end;
      lia.
Qed.


(* ====================================================================== *)
(** * One frame *)
(* ====================================================================== *)

Lemma surfaced_app (a b : list Call) :
  surfaced (a ++ b) = (surfaced a ++ surfaced b)%list.
Proof. apply flat_map_app. Qed.

Lemma logged_app (a b : list Call) :
  logged (a ++ b) = (logged a ++ logged b)%list.
Proof. apply flat_map_app. Qed.

(** An upload is neither an error for the caller nor a console message. *)
Lemma upload_silent (dev : Device) (program : nat) (name : string)
    (type : UniformType) (value : UniformValue) :
  surfaced (upload dev program name type value) = []
  /\ logged (upload dev program name type value) = [].
Proof.
  unfold upload. destruct (getUniformLocation dev program name);
    [destruct type|]; split; reflexivity.
Qed.

Lemma customUploads_silent (dev : Device) (program : nat) (u : Uniforms) :
  surfaced (customUploads dev program u) = []
  /\ logged (customUploads dev program u) = [].
Proof.
  induction u as [|[name value] u [IHs IHl]]; [split; reflexivity|].
  unfold customUploads. cbn [flat_map]. fold (customUploads dev program u).
  rewrite surfaced_app, logged_app, IHs, IHl.
  destruct (upload_silent dev program name
              (if isInt name then U_int else U_float) (num value)) as [Es El].
  rewrite Es, El. split; reflexivity.
Qed.

(** The custom uploads come from the entries of the map and from nowhere
    else. *)
Lemma customUploads_from_entries (dev : Device) (program : nat) (u : Uniforms)
    (c : Call) :
  In c (customUploads dev program u) <->
  exists name value,
    In (name, value) u
    /\ In c (upload dev program name (if isInt name then U_int else U_float)
               (num value)).
Proof.
  unfold customUploads. rewrite in_flat_map. split.
  - intros [[name value] [Hin Hc]]. exists name, value. split; assumption.
  - intros [name [value [Hin Hc]]]. exists (name, value). split; assumption.
Qed.

(** A key that has an entry is not omitted. *)
Lemma entry_is_found (u : Uniforms) (name : string) (value : Q) :
  In (name, value) u -> lookup name u <> None.
Proof.
  induction u as [|[k v] u IH]; intros Hin; cbn [lookup]; [destruct Hin|].
  destruct (String.eqb_spec k name) as [-> | Hne]; [discriminate|].
  destruct Hin as [E | Hin]; [congruence | now apply IH].
Qed.

(** In the shipped catalog the name convention and the declared type agree,
    and the defaults the page starts a shader with hold every declared
    parameter at its [defaultValue]. *)
Lemma catalog_follows_convention :
  Forall (fun shader =>
            Forall (fun d =>
                      (if isInt (ShaderUniform.name d) then U_int else U_float)
                      = declared d)
              (ShaderDefinition.uniforms shader)) SHADERS.
Proof. repeat constructor. Qed.

Lemma catalog_defaults_complete :
  Forall (fun shader =>
            Forall (fun d =>
                      lookup (ShaderUniform.name d) (getDefaultUniforms shader)
                      = Some (ShaderUniform.defaultValue d))
              (ShaderDefinition.uniforms shader)) SHADERS.
Proof. repeat constructor. Qed.

(** C1, as the code has it.  A drawing frame makes exactly these calls:
    the clear, the program and the quad, the three standard uniforms, one
    upload per entry of the supplied map, the draw, the overlay if shown,
    the request for the next frame.  Each custom upload belongs to an entry
    present in the map and carries that entry's value, so a parameter whose
    key the map omits is not uploaded at all and its [defaultValue] is never
    consulted.  The defaults reach the
    program because the page supplies [getDefaultUniforms(shader)], which
    holds every parameter of every catalog shader at its [defaultValue].
    An entry whose key the program has no uniform for is skipped; whatever
    the map holds, the frame reports no error, leaves the error flag clear,
    draws and requests the next frame. *)
Theorem frame_uploads_supplied_entries (dev : Device) (w : World)
    (program vao : nat) :
  programRef (refs w) = Some program ->
  vaoRef (refs w) = Some vao ->
  hasErrorRef (refs w) = false ->
  trace (render dev w)
  = ([ gl_clearColor 0.02 0.02 0.05 1.0; gl_clear;
       gl_useProgram program; gl_bindVertexArray (Some vao) ]
     ++ upload dev program "u_time" U_float
          (num ((performance_now dev (S (reads (host w)))
                 - startTimeRef (refs w)) / 1000))
     ++ upload dev program "u_resolution" U_vec2
          (arr [canvas_width (host w); canvas_height (host w)])
     ++ upload dev program "u_mouse" U_vec2
          (arr [x (smooth (currentMouseRef (refs w)) (targetMouseRef (refs w)));
                y (smooth (currentMouseRef (refs w)) (targetMouseRef (refs w)))])
     ++ customUploads dev program (uniformsRef (refs w))
     ++ [ gl_drawArrays 0 6; gl_bindVertexArray None ]
     ++ (if showDebugRef (refs w) && debugCanvas (host w)
         then [drawDebugOverlay
                 (currentFPS (updateFPSMonitor
                                (performance_now dev (reads (host w)))
                                (fpsMonitorRef (refs w))))]
         else [])
     ++ [ requestAnimationFrame (nextName (host w)) ])%list
  /\ (forall c,
         In c (customUploads dev program (uniformsRef (refs w))) ->
         exists name value,
           In (name, value) (uniformsRef (refs w))
           /\ lookup name (uniformsRef (refs w)) <> None
           /\ getUniformLocation dev program name <> None
           /\ In c (upload dev program name
                      (if isInt name then U_int else U_float) (num value)))
  /\ (forall name value,
         getUniformLocation dev program name = None ->
         upload dev program name (if isInt name then U_int else U_float)
           (num value) = [])
  /\ surfaced (trace (render dev w)) = []
  /\ logged (trace (render dev w)) = []
  /\ hasErrorRef (refs (world (render dev w))) = false
  /\ Forall (fun shader =>
               Forall (fun d =>
                         lookup (ShaderUniform.name d)
                           (getDefaultUniforms shader)
                         = Some (ShaderUniform.defaultValue d))
                 (ShaderDefinition.uniforms shader)) SHADERS.
Proof.
  intros Hp Hv He.
  pose proof (render_draws_trace dev w program vao Hp Hv He) as T.
  pose proof (customUploads_silent dev program (uniformsRef (refs w)))
    as [Cs Cl].
  split; [exact T|]. split; [|split; [|split; [|split; [|split]]]].
  - intros c Hc. apply customUploads_from_entries in Hc.
    destruct Hc as [name [value [Hin Hc]]]. exists name, value.
    split; [assumption|]. split; [now apply entry_is_found with value|].
    split; [|assumption].
    unfold upload in Hc. destruct (getUniformLocation dev program name);
      [discriminate | destruct Hc].
  - intros name value Hnone. unfold upload. now rewrite Hnone.
  - rewrite T. rewrite !surfaced_app, Cs.
    rewrite !(proj1 (upload_silent _ _ _ _ _)).
    destruct (showDebugRef (refs w) && debugCanvas (host w)); reflexivity.
  - rewrite T. rewrite !logged_app, Cl.
    rewrite !(proj2 (upload_silent _ _ _ _ _)).
    destruct (showDebugRef (refs w) && debugCanvas (host w)); reflexivity.
  - rewrite (render_draws_world dev w program vao Hp Hv He). cbn. exact He.
  - exact catalog_defaults_complete.
Qed.

(** C3, as the code has it.  The kind used to marshal an entry of the map
    is decided by the entry's name, not by the [type] field of a
    descriptor: an entry is uploaded with [uniform1i] exactly when its name
    contains "octave" or "segment", and with [uniform1f] otherwise, and the
    custom uploads of a frame are these and no others.  For every parameter
    of the shipped catalog the two agree. *)
Theorem marshalling_follows_the_name (dev : Device) (w : World)
    (program vao : nat) :
  programRef (refs w) = Some program ->
  vaoRef (refs w) = Some vao ->
  hasErrorRef (refs w) = false ->
  (forall name value location,
      In (name, value) (uniformsRef (refs w)) ->
      getUniformLocation dev program name = Some location ->
      In (if includes "octave" name || includes "segment" name
          then gl_uniform1i location (num value)
          else gl_uniform1f location (num value))
        (trace (render dev w)))
  /\ (forall c,
         In c (customUploads dev program (uniformsRef (refs w))) ->
         exists name value location,
           In (name, value) (uniformsRef (refs w))
           /\ getUniformLocation dev program name = Some location
           /\ c = (if includes "octave" name || includes "segment" name
                   then gl_uniform1i location (num value)
                   else gl_uniform1f location (num value)))
  /\ Forall (fun shader =>
               Forall (fun d =>
                         (if isInt (ShaderUniform.name d)
                          then U_int else U_float)
                         = declared d)
                 (ShaderDefinition.uniforms shader)) SHADERS.
Proof.
  intros Hp Hv He. split; [|split; [|exact catalog_follows_convention]].
  - intros name value location Hin Hloc.
    rewrite (render_draws_trace dev w program vao Hp Hv He).
    do 4 (apply in_or_app; right). apply in_or_app. left.
    apply customUploads_from_entries. exists name, value. split; [assumption|].
    unfold upload. rewrite Hloc. fold (isInt name).
    destruct (isInt name); left; reflexivity.
  - intros c Hc. apply customUploads_from_entries in Hc.
    destruct Hc as [name [value [Hin Hc]]]. unfold upload in Hc.
    destruct (getUniformLocation dev program name) as [location|] eqn:Hloc;
      [|destruct Hc].
    exists name, value, location. split; [assumption|]. split; [exact Hloc|].
    fold (isInt name). destruct Hc as [<- | []].
    destruct (isInt name); reflexivity.
Qed.

(** One frame on doubles after the other: a coordinate that a frame leaves
    where it was is left there by every later frame with the same target. *)
Lemma stall_persists (a b : PrimFloat.float) :
  Binary64.lerp a b Binary64.tenth = a ->
  forall n, Binary64.frames n a b = a.
Proof.
  intros H n. induction n as [|n IH]; [reflexivity|].
  change (Binary64.frames (S n) a b)
    with (Binary64.lerp (Binary64.frames n a b) b Binary64.tenth).
  now rewrite IH.
Qed.

(** C4, as the code has it.  A drawing frame replaces the smoothed position
    by [lerp(current, target, 0.1)], that is [current + 0.1 * (target -
    current)], on each axis, and leaves the target alone.  A coordinate that
    is on its target stays on it, so the distance does not strictly decrease
    on every frame; and on doubles it need not decrease before the target is
    reached either: a coordinate that one frame leaves where it was is left
    there by every later frame with the same target. *)
Theorem frame_smooths_the_pointer (dev : Device) (w : World)
    (program vao : nat) :
  programRef (refs w) = Some program ->
  vaoRef (refs w) = Some vao ->
  hasErrorRef (refs w) = false ->
  let current := currentMouseRef (refs w) in
  let target := targetMouseRef (refs w) in
  let next := currentMouseRef (refs (world (render dev w))) in
  next = {| x := lerp (x current) (x target) 0.1;
            y := lerp (y current) (y target) 0.1 |}
  /\ x next == x current + 0.1 * (x target - x current)
  /\ y next == y current + 0.1 * (y target - y current)
  /\ targetMouseRef (refs (world (render dev w))) = target
  /\ (x current == x target -> x next == x target)
  /\ (y current == y target -> y next == y target)
  /\ (forall a b : PrimFloat.float,
         Binary64.lerp a b Binary64.tenth = a ->
         forall n, Binary64.frames n a b = a).
Proof.
  intros Hp Hv He current target next. subst next.
  rewrite (render_draws_world dev w program vao Hp Hv He).
  cbn [refs currentMouseRef targetMouseRef set_animationFrameRef
       set_currentMouseRef set_fpsMonitorRef].
  fold current target. unfold smooth. cbn [x y].
  split; [reflexivity|].
  split; [unfold lerp; ring|].
  split; [unfold lerp; ring|].
  split; [reflexivity|].
  split; [intros E; unfold lerp; rewrite E; ring|].
  split; [intros E; unfold lerp; rewrite E; ring|].
  exact stall_persists.
Qed.

(** A frame with the error flag set: the fallback clear, the request for
    the next frame, and nothing else. *)
Lemma degraded_frame (dev : Device) (w : World) :
  hasErrorRef (refs w) = true ->
  trace (render dev w)
  = [ gl_clearColor 0.02 0.02 0.05 1.0; gl_clear;
      requestAnimationFrame (nextName (host w)) ]
  /\ filter isDraw (trace (render dev w)) = []
  /\ filter isUpload (trace (render dev w)) = []
  /\ scheduled (host (world (render dev w))) = Some (nextName (host w)).
Proof.
  intros He. rewrite render_idles by auto. cbn [trace world host].
  rewrite He. repeat split.
Qed.

(** Every frame, drawing or not, requests the next one. *)
Lemma render_reschedules (dev : Device) (w : World) :
  scheduled (host (world (render dev w))) = Some (nextName (host w))
  /\ In (requestAnimationFrame (nextName (host w))) (trace (render dev w)).
Proof.
  destruct (programRef (refs w)) as [program|] eqn:Hp;
    [destruct (vaoRef (refs w)) as [vao|] eqn:Hv;
     [destruct (hasErrorRef (refs w)) eqn:He|]|].
  2:{ rewrite (render_draws_world dev w program vao Hp Hv He),
              (render_draws_trace dev w program vao Hp Hv He).
      split; [reflexivity|].
      do 7 (apply in_or_app; right). left. reflexivity. }
  all: rewrite render_idles by auto; cbn [trace world host];
    (split; [reflexivity | apply in_or_app; right; left; reflexivity]).
Qed.

(* ====================================================================== *)
(** * The pointer stays inside *)
(* ====================================================================== *)

Lemma pointerInside_run (dev : Device) (es : list Event) (app : App) :
  Forall pointsInside es ->
  pointerInside (canvas app) -> pointerInside (canvas (run dev es app)).
Proof.
  intros Hes. revert app.
  apply (run_preserves dev pointerInside); try (intros; assumption);
    try exact Hes.
  - intros t r o [Hc Ht]. split; [|exact Ht].
    cbn. now apply smooth_inside.
  - intros p r o Hp [Hc Ht]. split; [exact Hc | exact Hp].
Qed.

Lemma pointerInside_open (dev : Device) (parent_w parent_h : Q) :
  pointerInside (canvas (open dev parent_w parent_h)).
Proof.
  apply (open_preserves dev pointerInside); try (intros; assumption).
  - intros t r o [Hc Ht]. split; [|exact Ht].
    cbn. now apply smooth_inside.
  - intros w0 Hc Ht _. unfold pointerInside, inUnitSquare.
    rewrite Hc, Ht. cbn. lra.
Qed.

Lemma onCanvas_pointsInside (e : Event) : onCanvas e -> pointsInside e.
Proof.
  destruct e as [| cx cy rect | touches rect | | | | |]; cbn; try tauto.
  destruct touches as [|[cx cy] rest]; tauto.
Qed.

(** C10.  From the moment the page opens, as long as every pointer or touch
    event happens on a canvas of positive width and height and yields a
    position in [[0,1] x [0,1]], the smoothed position is in
    [[0,1] x [0,1]] after every event, frames included; and the position a
    drawing frame sends as [u_mouse] is the smoothed position it leaves,
    hence in the square too. *)
Theorem smoothed_pointer_stays_inside (dev : Device) (parent_w parent_h : Q)
    (es : list Event) :
  Forall onCanvas es ->
  let w := canvas (run dev es (open dev parent_w parent_h)) in
  inUnitSquare (currentMouseRef (refs w))
  /\ (forall program vao,
         programRef (refs w) = Some program ->
         vaoRef (refs w) = Some vao ->
         hasErrorRef (refs w) = false ->
         let sent := currentMouseRef (refs (world (render dev w))) in
         inUnitSquare sent
         /\ incl (upload dev program "u_mouse" U_vec2 (arr [x sent; y sent]))
              (trace (render dev w))).
Proof.
  intros Hon w.
  assert (Hes : Forall pointsInside es)
    by (revert Hon; apply Forall_impl, onCanvas_pointsInside).
  assert (Hw : pointerInside w)
    by (apply pointerInside_run; [exact Hes | apply pointerInside_open]).
  split; [exact (proj1 Hw)|].
  intros program vao Hp Hv He sent. subst sent.
  rewrite (render_draws_world dev w program vao Hp Hv He),
          (render_draws_trace dev w program vao Hp Hv He).
  cbn [refs currentMouseRef set_animationFrameRef set_currentMouseRef].
  split.
  - destruct Hw as [Hc Ht]. now apply smooth_inside.
  - intros c Hc. do 3 (apply in_or_app; right). apply in_or_app. left.
    exact Hc.
Qed.

(* ====================================================================== *)
(** * Selecting a shader *)
(* ====================================================================== *)

Lemma world_bind {A B : Type} (c : M A) (k : A -> M B) (w : World) :
  world (bind c k w) = world (k (value (c w)) (world (c w))).
Proof.
  unfold bind. destruct (c w) as [a w1 t1]. cbn.
  destruct (k a w1); reflexivity.
Qed.

Lemma preserves_elim {A : Type} (P : World -> Prop) (c : M A) (w : World) :
  preserves P c -> P w -> P (world (c w)).
Proof. intros H. apply H. Qed.

(** A render of the component with the same [shaderId] copies two props
    into their refs, reads the clock twice, and does nothing else. *)
Lemma update_same_shader (dev : Device) (prev p : Props) (w : World) :
  shaderId prev = shaderId p ->
  update dev prev p w
  = {| value := tt;
       world :=
         {| refs := set_showDebugRef (showDebug p)
                      (set_uniformsRef (uniforms p) (refs w));
            host := set_reads (S (S (reads (host w)))) (host w) |};
       trace := [] |}.
Proof.
  intros E. unfold update, evaluate, effects, now. rewrite E, String.eqb_refl.
  run. reflexivity.
Qed.

(** The clock is only ever read forward. *)
Lemma readsAtLeast_initShader (dev : Device) (shaderId : string) (k : nat) :
  preserves (readsAtLeast k) (initShader dev shaderId).
Proof. apply initShader_preserves; intros; assumption. Qed.

Lemma readsAtLeast_startEffect (dev : Device) (shaderId : string) (k : nat) :
  preserves (readsAtLeast k) (startEffect dev shaderId).
Proof.
  apply startEffect_preserves; try (intros; assumption).
  intros r o H. unfold readsAtLeast in *. cbn in *. lia.
Qed.

Lemma readsAtLeast_stopEffect (k : nat) :
  preserves (readsAtLeast k) stopEffect.
Proof. apply stopEffect_preserves; intros; assumption. Qed.

(** Building a program and drawing keep the context and the quad. *)
Lemma ready_initShader (dev : Device) (shaderId : string) (vao : nat) :
  preserves (ready vao) (initShader dev shaderId).
Proof. apply initShader_preserves; intros; assumption. Qed.

Lemma ready_render (dev : Device) (vao : nat) : preserves (ready vao) (render dev).
Proof. apply render_preserves; intros; assumption. Qed.

Lemma ready_now (dev : Device) (vao : nat) : preserves (ready vao) (now dev).
Proof. apply now_preserves; intros; assumption. Qed.

Lemma createFullscreenQuad_ok (dev : Device) (w : World) :
  allocates dev (nextName (host w)) = true ->
  value (createFullscreenQuad dev w) = Some (nextName (host w))
  /\ world (createFullscreenQuad dev w)
     = {| refs := refs w;
          host := set_nextName (S (S (nextName (host w)))) (host w) |}.
Proof.
  intros H. unfold createFullscreenQuad, create. run. rewrite H. run.
  destruct (allocates dev (S (nextName (host w)))); split; reflexivity.
Qed.

Lemma handleResize_world (w : World) :
  world (handleResize w)
  = {| refs := refs w;
       host := set_canvas (parent_width (host w)) (parent_height (host w))
                 (host w) |}.
Proof. unfold handleResize. run. destruct (glRef (refs w)); reflexivity. Qed.

(** On a device that hands out a context and a vertex array, the first
    effect leaves the context held and a quad in place, whether or not the
    program builds. *)
Lemma startEffect_ready (dev : Device) (shaderId : string) (w : World) :
  getContext dev = true ->
  allocates dev (nextName (host w)) = true ->
  ready (nextName (host w)) (world (startEffect dev shaderId w)).
Proof.
  intros Hctx Hvao. unfold startEffect, createWebGLContext.
  rewrite Hctx. rewrite world_bind. cbn [ret value world negb].
  rewrite world_bind. cbn [modifyRefs value world].
  rewrite world_bind, handleResize_world. cbn [refs host].
  rewrite world_bind.
  match goal with
  | |- context [createFullscreenQuad dev ?w1] =>
      destruct (createFullscreenQuad_ok dev w1 Hvao) as [Ev Ew]
  end.
  rewrite Ev, Ew. cbn [refs host nextName set_canvas].
  rewrite world_bind. cbn [modifyRefs value world refs host].
  pose proof (ready_initShader dev shaderId (nextName (host w))) as Hi.
  pose proof (ready_render dev (nextName (host w))) as Hr.
  pose proof (ready_now dev (nextName (host w))) as Hn.
  apply preserves_elim; [|split; reflexivity].
  preserve; intros; assumption.
Qed.

(** With the context held and a quad in place, the last effect rebuilds the
    program and takes a new time origin from the clock. *)
Lemma shaderIdEffect_resets (dev : Device) (shaderId : string) (w : World)
    (vao : nat) :
  ready vao w ->
  startTimeRef (refs (world (shaderIdEffect dev shaderId w)))
  = performance_now dev (reads (host (world (initShader dev shaderId w)))).
Proof.
  intros [Hg Hv]. unfold shaderIdEffect.
  rewrite world_bind. cbn [getRefs value world]. rewrite Hv, Hg. cbn [when].
  rewrite world_bind. unfold now. run. reflexivity.
Qed.

(** The effects of a commit in which [shaderId] changed reset the time
    origin to a reading of the clock taken during the commit. *)
Lemma effects_reset_time_origin (dev : Device) (p : Props) (w : World) :
  getContext dev = true ->
  (forall k, allocates dev k = true) ->
  exists k,
    (reads (host w) <= k)%nat
    /\ startTimeRef (refs (world (effects dev true p w))) = performance_now dev k.
Proof.
  intros Hctx Hall. unfold effects.
  rewrite world_bind. cbn [getHost value world andb].
  rewrite world_bind.
  set (w1 := world (when (listening (host w)) stopEffect w)).
  assert (R1 : readsAtLeast (reads (host w)) w1).
  { subst w1. apply preserves_elim; [|unfold readsAtLeast; lia].
    apply preserves_when, readsAtLeast_stopEffect. }
  rewrite world_bind. cbn [modifyRefs value world].
  rewrite world_bind. cbn [modifyRefs value world refs host when].
  rewrite world_bind.
  set (w2 := {| refs := set_showDebugRef (showDebug p)
                          (set_uniformsRef (uniforms p) (refs w1));
                host := host w1 |}).
  assert (R2 : readsAtLeast (reads (host w)) w2) by exact R1.
  set (w3 := world (startEffect dev (shaderId p) w2)).
  assert (R3 : readsAtLeast (reads (host w)) w3).
  { subst w3. apply preserves_elim; [apply readsAtLeast_startEffect | exact R2]. }
  assert (Hready : ready (nextName (host w2)) w3)
    by (subst w3; apply startEffect_ready; [exact Hctx | apply Hall]).
  rewrite (shaderIdEffect_resets dev (shaderId p) w3 _ Hready).
  eexists. split; [|reflexivity].
  apply (preserves_elim (readsAtLeast (reads (host w)))
           (initShader dev (shaderId p)) w3);
    [apply readsAtLeast_initShader | exact R3].
Qed.

(** C8, as the code has it.  Selecting the shader that is already active
    does not restart it: the component renders with an unchanged
    [shaderId], none of the effects that depend on it runs, no call is made,
    and the time origin stays where it was, so elapsed time keeps running.
    Only a selection that changes the id resets the time origin, to a
    clock reading taken during that switch (on a device that hands out a
    context and objects). *)
Theorem reselecting_keeps_time_origin (dev : Device) (app : App) (id : string)
    (shader : ShaderDefinition.t) :
  getShaderById id = Some shader ->
  (id = shaderId (props (page app)) ->
   startTimeRef (refs (canvas (step dev (select id) app)))
   = startTimeRef (refs (canvas app))
   /\ programRef (refs (canvas (step dev (select id) app)))
      = programRef (refs (canvas app))
   /\ calls (step dev (select id) app) = calls app)
  /\ (id <> shaderId (props (page app)) ->
      getContext dev = true ->
      (forall k, allocates dev k = true) ->
      exists k,
        (reads (host (canvas app)) <= k)%nat
        /\ startTimeRef (refs (canvas (step dev (select id) app)))
           = performance_now dev k).
Proof.
  intros Hid. cbn [step]. unfold handleShaderSelect. rewrite Hid.
  unfold rerender. cbv zeta. cbn [props]. split.
  - intros Same.
    rewrite (update_same_shader dev (props (page app)));
      [|cbn [shaderId]; now rewrite Same].
    cbn [trace world]. unfold surface. cbn [lastError fold_left].
    cbn [canvas calls refs]. rewrite app_nil_r. repeat split.
  - intros Other Hctx Hall.
    set (next := {| shaderId := id; uniforms := getDefaultUniforms shader;
                    showDebug := showDebug (props (page app)) |}).
    set (commit := update dev (props (page app)) next (canvas app)).
    assert (Hc : exists k,
               (reads (host (canvas app)) <= k)%nat
               /\ startTimeRef (refs (world commit)) = performance_now dev k).
    { subst commit. unfold update. rewrite world_bind.
      assert (E : String.eqb (shaderId (props (page app))) (shaderId next)
                  = false).
      { apply String.eqb_neq. cbn [next shaderId]. congruence. }
      rewrite E. cbn [negb].
      destruct (effects_reset_time_origin dev next
                  (world (evaluate dev (canvas app))) Hctx Hall)
        as [k [Hk Hs]].
      exists k. split; [|exact Hs].
      revert Hk. unfold evaluate, now. run. lia. }
    destruct Hc as [k [Hk Hs]]. exists k. split; [exact Hk|].
    unfold surface. destruct (lastError (trace commit)); cbn [canvas page props].
    + cbn [then_ canvas]. rewrite update_same_shader by reflexivity.
      cbn [world refs]. exact Hs.
    + exact Hs.
Qed.

(* ====================================================================== *)
(** * A switch that fails *)
(* ====================================================================== *)

(** With no frame scheduled, the browser has nothing to call. *)
Lemma idle_frames (dev : Device) (n : nat) :
  forall app,
    scheduled (host (canvas app)) = None ->
    canvas (run dev (repeat frame n) app) = canvas app
    /\ calls (run dev (repeat frame n) app) = calls app.
Proof.
  unfold run. induction n as [|n IH]; intros app H; cbn [repeat fold_left].
  - split; reflexivity.
  - assert (E : animate dev (canvas app)
                = {| value := tt; world := canvas app; trace := [] |})
      by (unfold animate; run; now rewrite H).
    assert (S1 : step dev frame app
                 = {| page := page app; canvas := canvas app;
                      calls := calls app |})
      by (unfold step, then_; rewrite E; cbn [world trace];
          now rewrite app_nil_r).
    rewrite S1. apply (IH {| page := page app; canvas := canvas app;
                             calls := calls app |}). exact H.
Qed.

(** C5, where the component departs from it.  On a device whose driver
    rejects the sphere shader, the page is opened, a frame is drawn, and the
    sphere is selected.  The switch re-runs the first effect: its clean-up cancels
    the pending frame, and its body returns when [initShader] fails, before
    it calls [render].  The error flag is set and the error is shown, but
    no frame is scheduled: however often the browser is ready to draw, the
    component is not called and makes no call, not even the fallback
    clear. *)
Theorem failed_switch_leaves_no_frame :
  let app := run picky [frame; select "sphere"] (open picky 800 600) in
  hasErrorRef (refs (canvas app)) = true
  /\ error (page app)
     = Some "Failed to compile fragment shader: Raymarched Sphere"
  /\ scheduled (host (canvas app)) = None
  /\ forall n, calls (run picky (repeat frame n) app) = calls app.
Proof.
  cbv zeta.
  assert (H : scheduled
                (host (canvas (run picky [frame; select "sphere"]
                                 (open picky 800 600)))) = None)
    by (vm_compute; reflexivity).
  split; [vm_compute; reflexivity|].
  split; [vm_compute; reflexivity|].
  split; [exact H|].
  intros n. now apply idle_frames.
Qed.

(* ====================================================================== *)
(** * The claims at concrete inputs *)
(* ====================================================================== *)

(** ** C1 *)

(** The plasma shader declares [u_speed] with default 1 and its program has
    the uniform at location 3; with the map [{}] a frame sends nothing to
    that location. *)
Lemma omitted_parameter_is_not_uploaded :
  In "u_speed" (map ShaderUniform.name (ShaderDefinition.uniforms plasmaShader))
  /\ lookup "u_speed" [] = None
  /\ getUniformLocation desktop 4 "u_speed" = Some 3%nat
  /\ ~ In (num 1) (uploadsTo 3 (trace (render desktop (running [] false)))).
Proof.
  split; [left; reflexivity|]. split; [reflexivity|]. split; [reflexivity|].
  vm_compute. intros H. exact H.
Qed.

(** With the map [{u_speed: 1.5}] the frame sends 1.5 there. *)
Example supplied_parameter_is_uploaded :
  uploadsTo 3 (trace (render desktop (running [("u_speed", 1.5)] false)))
  = [num 1.5].
Proof. vm_compute. reflexivity. Qed.

Lemma frame_uploads_supplied_entries_witness :
  (programRef (refs (running (getDefaultUniforms plasmaShader) false))
   = Some 4%nat
   /\ vaoRef (refs (running (getDefaultUniforms plasmaShader) false))
      = Some 0%nat
   /\ hasErrorRef (refs (running (getDefaultUniforms plasmaShader) false))
      = false)
  /\ surfaced
       (trace (render desktop (running (getDefaultUniforms plasmaShader) false)))
     = [].
Proof.
  split; [repeat split|].
  exact (proj1 (proj2 (proj2 (proj2
           (frame_uploads_supplied_entries desktop
              (running (getDefaultUniforms plasmaShader) false) 4 0
              eq_refl eq_refl eq_refl))))).
Defined.

(** ** C3 *)

(** [u_steps] is declared an integer; its entry is sent with [uniform1f]. *)
Lemma integer_parameter_is_sent_as_float :
  let sent := trace (render lab (running [("u_steps", 8)] false)) in
  ShaderUniform.type stepsUniform = int
  /\ getUniformLocation lab 4 (ShaderUniform.name stepsUniform) = Some 3%nat
  /\ intsTo 3 sent = []
  /\ floatsTo 3 sent = [num 8].
Proof. cbv zeta. repeat split; vm_compute; reflexivity. Qed.

Lemma marshalling_follows_the_name_witness :
  (programRef (refs (running [("u_octaves", 4)] false)) = Some 4%nat
   /\ vaoRef (refs (running [("u_octaves", 4)] false)) = Some 0%nat
   /\ hasErrorRef (refs (running [("u_octaves", 4)] false)) = false)
  /\ Forall (fun shader =>
               Forall (fun d =>
                         (if isInt (ShaderUniform.name d)
                          then U_int else U_float)
                         = declared d)
                 (ShaderDefinition.uniforms shader)) SHADERS.
Proof.
  split; [repeat split|].
  exact (proj2 (proj2 (marshalling_follows_the_name desktop
                         (running [("u_octaves", 4)] false) 4 0
                         eq_refl eq_refl eq_refl))).
Defined.

(** ** C4 *)

(** On doubles, a coordinate at 0.5 whose target is 0.75 (the pointer three
    quarters across the canvas) stops changing after 320 frames: it is not
    on the target, the next frame leaves it where it is, and the distance to
    the target has not decreased. *)
Lemma pointer_stalls_short_of_target :
  let reached := Binary64.frames 320 0.5 0.75 in
  PrimFloat.eqb reached 0.75 = false
  /\ Binary64.lerp reached 0.75 Binary64.tenth = reached
  /\ Binary64.frames 321 0.5 0.75 = reached
  /\ PrimFloat.ltb (Binary64.gap (Binary64.frames 321 0.5 0.75) 0.75)
        (Binary64.gap reached 0.75) = false
  /\ PrimFloat.ltb 0 (Binary64.gap reached 0.75) = true.
Proof. cbv zeta. repeat split; vm_compute; reflexivity. Qed.

(** The same frame on a coordinate that is on its target. *)
Example binary64_pointer_at_rest :
  Binary64.lerp 0.5 0.5 Binary64.tenth = 0.5%float.
Proof. reflexivity. Qed.

(** The page is opened and the pointer is moved three quarters across the
    canvas; the next frame takes the smoothed position a tenth of the way
    there. *)
Lemma frame_smooths_the_pointer_witness :
  let w := canvas (run desktop
                     [ mousemove 600 150
                         {| left := 0; top := 0; width := 800;
                            height := 600 |} ]
                     (open desktop 800 600)) in
  (programRef (refs w) = Some 8%nat
   /\ vaoRef (refs w) = Some 0%nat
   /\ hasErrorRef (refs w) = false)
  /\ ~ x (currentMouseRef (refs w)) == x (targetMouseRef (refs w))
  /\ x (currentMouseRef (refs (world (render desktop w))))
     == x (currentMouseRef (refs w))
        + 0.1 * (x (targetMouseRef (refs w)) - x (currentMouseRef (refs w))).
Proof.
  cbv zeta.
  set (w := canvas (run desktop
                      [ mousemove 600 150
                          {| left := 0; top := 0; width := 800;
                             height := 600 |} ]
                      (open desktop 800 600))).
  assert (Hp : programRef (refs w) = Some 8%nat) by (vm_compute; reflexivity).
  assert (Hv : vaoRef (refs w) = Some 0%nat) by (vm_compute; reflexivity).
  assert (He : hasErrorRef (refs w) = false) by (vm_compute; reflexivity).
  split; [exact (conj Hp (conj Hv He))|].
  split; [vm_compute; intros E; discriminate E|].
  exact (proj1 (proj2 (frame_smooths_the_pointer desktop w 8 0 Hp Hv He))).
Defined.

(** ** C8 *)

(** Three frames into the plasma shader it is selected again, twice: the
    time origin is still the reading taken when the page opened, older than
    the selection, and the next frame will show more than a second
    elapsed. *)
Lemma reselecting_does_not_restart :
  let again := run slow [select "plasma"; select "plasma"] watched in
  shaderId (props (page watched)) = "plasma"
  /\ startTimeRef (refs (canvas again)) = startTimeRef (refs (canvas watched))
  /\ ~ (performance_now slow (reads (host (canvas watched)))
        <= startTimeRef (refs (canvas again)))
  /\ 1 < elapsed (performance_now slow (reads (host (canvas again))))
           (canvas again).
Proof.
  cbv zeta. split; [vm_compute; reflexivity|].
  split; [vm_compute; reflexivity|]. split.
  - vm_compute. intros H. apply H. reflexivity.
  - vm_compute. reflexivity.
Qed.

Lemma reselecting_keeps_time_origin_witness :
  getShaderById "plasma" = Some plasmaShader
  /\ startTimeRef (refs (canvas (step desktop (select "plasma")
                                   (open desktop 800 600))))
     = startTimeRef (refs (canvas (open desktop 800 600))).
Proof.
  assert (Hid : getShaderById "plasma" = Some plasmaShader)
    by (vm_compute; reflexivity).
  split; [exact Hid|].
  refine (proj1 (proj1 (reselecting_keeps_time_origin desktop
                          (open desktop 800 600) "plasma" plasmaShader Hid)
                   _)).
  vm_compute. reflexivity.
Defined.

(** ** C10 *)

Lemma smoothed_pointer_stays_inside_witness :
  Forall onCanvas
    [ frame;
      mousemove 600 150 {| left := 0; top := 0; width := 800; height := 600 |};
      frame; frame ]
  /\ inUnitSquare
       (currentMouseRef
          (refs (canvas
                   (run desktop
                      [ frame;
                        mousemove 600 150
                          {| left := 0; top := 0; width := 800; height := 600 |};
                        frame; frame ]
                      (open desktop 800 600))))).
Proof.
  assert (H : Forall onCanvas
                [ frame;
                  mousemove 600 150
                    {| left := 0; top := 0; width := 800; height := 600 |};
                  frame; frame ]).
  { repeat constructor; vm_compute; intros E; discriminate E. }
  split; [exact H|].
  exact (proj1 (smoothed_pointer_stays_inside desktop 800 600 _ H)).
Defined.

(* ====================================================================== *)
(** * The catalog and the parameter map *)
(* ====================================================================== *)

(** X1.  [getShaderById] returns a shader of the catalog that has the id
    asked for, and nothing exactly when no shader has it; ids are unique,
    so every catalog shader is found by its own id; and the panel's buttons
    name the catalog's ids, in the catalog's order. *)
Theorem getShaderById_finds_by_id (id : string) :
  (forall shader,
      getShaderById id = Some shader ->
      In shader SHADERS /\ ShaderDefinition.id shader = id)
  /\ (getShaderById id = None <-> ~ In id (map ShaderDefinition.id SHADERS))
  /\ (forall shader,
         In shader SHADERS ->
         getShaderById (ShaderDefinition.id shader) = Some shader)
  /\ map fst SHADER_BUTTONS = map ShaderDefinition.id SHADERS.
Proof.
  split; [|split; [|split]].
  - intros shader H. unfold getShaderById in H. apply find_some in H.
    destruct H as [Hin He]. split; [exact Hin | now apply String.eqb_eq].
  - unfold getShaderById. split.
    + intros H Hin. apply in_map_iff in Hin. destruct Hin as [s [Hs Hin]].
      pose proof (find_none _ _ H s Hin) as Hf. cbn beta in Hf.
      rewrite Hs, String.eqb_refl in Hf. discriminate.
    + intros H. destruct (find _ SHADERS) as [s|] eqn:Hf; [|reflexivity].
      apply find_some in Hf. destruct Hf as [Hin He].
      apply String.eqb_eq in He. exfalso. apply H. apply in_map_iff.
      exists s. split; assumption.
  - intros shader Hin. cbn in Hin.
    destruct Hin as [<- | [<- | [<- | [<- | [<- | []]]]]];
      vm_compute; reflexivity.
  - reflexivity.
Qed.

Lemma lookup_assign_same (k : string) (v : Q) (o : Uniforms) :
  lookup k (assign k v o) = Some v.
Proof.
  induction o as [|[k' v'] o IH]; cbn [assign lookup].
  - now rewrite String.eqb_refl.
  - destruct (String.eqb k' k) eqn:E; cbn [lookup].
    + now rewrite String.eqb_refl.
    + now rewrite E.
Qed.

Lemma lookup_assign_other (k other : string) (v : Q) (o : Uniforms) :
  other <> k -> lookup other (assign k v o) = lookup other o.
Proof.
  intros Hne. induction o as [|[k' v'] o IH]; cbn [assign lookup].
  - destruct (String.eqb_spec k other); [congruence | reflexivity].
  - destruct (String.eqb_spec k' k) as [-> | Hk]; cbn [lookup].
    + destruct (String.eqb_spec k other); [congruence | reflexivity].
    + destruct (String.eqb k' other); [reflexivity | exact IH].
Qed.

Lemma lookup_keys (k : string) (o : Uniforms) :
  lookup k o <> None <-> In k (keys o).
Proof.
  induction o as [|[k' v'] o IH]; cbn [lookup keys map fst In].
  - split; [congruence | intros []].
  - destruct (String.eqb_spec k' k) as [-> | Hk].
    + split; [now left | discriminate].
    + rewrite IH. unfold keys. split; [now right | intros [E | H]; congruence].
Qed.

Lemma keys_assign (k : string) (v : Q) (o : Uniforms) :
  keys (assign k v o)
  = if in_dec string_dec k (keys o) then keys o else (keys o ++ [k])%list.
Proof.
  induction o as [|[k' v'] o IH]; cbn [assign keys map fst app].
  - destruct (in_dec string_dec k []) as [[] | _]. reflexivity.
  - destruct (String.eqb_spec k' k) as [-> | Hk]; cbn [map fst].
    + destruct (in_dec string_dec k (k :: map fst o)) as [_ | Hn];
        [reflexivity | exfalso; apply Hn; now left].
    + fold (keys (assign k v o)). rewrite IH. fold (keys o).
      destruct (in_dec string_dec k (keys o)) as [Hin | Hn];
        destruct (in_dec string_dec k (k' :: keys o)) as [Hin' | Hn'];
        try reflexivity.
      * exfalso. apply Hn'. now right.
      * exfalso. destruct Hin' as [E | Hin']; [congruence | now apply Hn].
Qed.

Lemma NoDup_keys_assign (k : string) (v : Q) (o : Uniforms) :
  NoDup (keys o) -> NoDup (keys (assign k v o)).
Proof.
  intros H. rewrite keys_assign.
  destruct (in_dec string_dec k (keys o)) as [Hin | Hn]; [exact H|].
  apply NoDup_app; [exact H | repeat constructor; intros [] |].
  intros a Ha [<- | []]. now apply Hn.
Qed.

(** X2.  Moving a slider sets exactly one key of the map: that key reads
    back the new value and every other key reads as before, and the map
    never holds a key twice; the selected shader, the debug flag and the
    error are untouched.  When neither the name nor a key of the map starts
    with a digit or is [__proto__] (JavaScript lists array-index keys before
    the others), a key that was there keeps its place and a new one is added
    last. *)
Theorem handleUniformChange_sets_one_key (name : string) (value : Q)
    (page : Page) :
  exists next,
    handleUniformChange name value page = Some next
    /\ lookup name (uniforms (props next)) = Some value
    /\ (forall other,
           other <> name ->
           lookup other (uniforms (props next))
           = lookup other (uniforms (props page)))
    /\ (ordinaryKey name = true ->
        forallb ordinaryKey (keys (uniforms (props page))) = true ->
        keys (uniforms (props next))
        = (if in_dec string_dec name (keys (uniforms (props page)))
           then keys (uniforms (props page))
           else keys (uniforms (props page)) ++ [name])%list)
    /\ (NoDup (keys (uniforms (props page))) ->
        NoDup (keys (uniforms (props next))))
    /\ shaderId (props next) = shaderId (props page)
    /\ showDebug (props next) = showDebug (props page)
    /\ error next = error page.
Proof.
  eexists. split; [reflexivity|]. cbn [props uniforms shaderId showDebug error].
  split; [apply lookup_assign_same|].
  split; [intros other Hne; now apply lookup_assign_other|].
  split; [intros _ _; apply keys_assign|].
  split; [apply NoDup_keys_assign|]. repeat split.
Qed.

(** The defaults, built key by key. *)
Lemma fold_assign_keys (ds : list ShaderUniform.t) :
  forall acc : Uniforms,
    let result :=
      fold_left (fun defaults uniform =>
                   assign (ShaderUniform.name uniform)
                     (ShaderUniform.defaultValue uniform) defaults) ds acc in
    (NoDup (keys acc) -> NoDup (keys result))
    /\ (forall k, In k (keys result)
                  <-> In k (keys acc) \/ In k (map ShaderUniform.name ds))
    /\ (NoDup (map ShaderUniform.name ds) ->
        (forall k, In k (map ShaderUniform.name ds) -> ~ In k (keys acc)) ->
        result
        = (acc ++ map (fun d => (ShaderUniform.name d,
                                 ShaderUniform.defaultValue d)) ds)%list).
Proof.
  induction ds as [|d ds IH]; intros acc; cbn [fold_left map].
  - cbv zeta. split; [auto|]. split; [intros k; cbn [In]; tauto|].
    intros _ _. now rewrite app_nil_r.
  - specialize (IH (assign (ShaderUniform.name d)
                      (ShaderUniform.defaultValue d) acc)).
    cbv zeta in *. destruct IH as [IHn [IHk IHe]].
    split; [intros H; apply IHn; now apply NoDup_keys_assign|].
    split.
    + intros k. rewrite IHk, keys_assign.
      destruct (in_dec string_dec (ShaderUniform.name d) (keys acc))
        as [Hin | Hn].
      * split; [intros [H | H]; auto; right; now right|].
        intros [H | [<- | H]]; auto.
      * rewrite in_app_iff. cbn [In].
        split; [intros [[H | [<- | []]] | H]; auto; right; auto|].
        intros [H | [<- | H]]; auto.
    + intros Hnd Hdis. inversion Hnd as [|? ? Hnotin Hnd']; subst.
      rewrite IHe.
      * assert (E : assign (ShaderUniform.name d)
                      (ShaderUniform.defaultValue d) acc
                    = (acc ++ [(ShaderUniform.name d,
                                ShaderUniform.defaultValue d)])%list).
        { assert (Hn : ~ In (ShaderUniform.name d) (keys acc))
            by (apply Hdis; now left).
          clear - Hn. induction acc as [|[k' v'] acc IHa]; [reflexivity|].
          cbn [assign app]. cbn [keys map fst In] in Hn.
          destruct (String.eqb_spec k' (ShaderUniform.name d)) as [E | _];
            [exfalso; apply Hn; now left|].
          rewrite IHa; [reflexivity|]. intros H. apply Hn. now right. }
        rewrite E, <- app_assoc. reflexivity.
      * exact Hnd'.
      * intros k Hk. rewrite keys_assign.
        destruct (in_dec string_dec (ShaderUniform.name d) (keys acc)).
        -- apply Hdis. now right.
        -- rewrite in_app_iff. cbn [In].
           intros [H | [E | []]]; [revert H; apply Hdis; now right|].
           subst k. contradiction.
Qed.

(** X3.  For a shader none of whose parameter names starts with a digit or
    is [__proto__] (JavaScript lists array-index keys before the others and
    does not add [__proto__] by assignment), [getDefaultUniforms] returns a
    map without repeated keys whose keys are exactly the names the shader
    declares; when the shader declares no name twice, the map lists every
    parameter with its [defaultValue], in declaration order.  Every catalog
    shader has such names and declares none twice. *)
Theorem getDefaultUniforms_lists_the_defaults (shader : ShaderDefinition.t) :
  forallb ordinaryKey (names shader) = true ->
  NoDup (keys (getDefaultUniforms shader))
  /\ (forall k, In k (keys (getDefaultUniforms shader)) <-> In k (names shader))
  /\ (NoDup (names shader) -> getDefaultUniforms shader = defaultsOf shader)
  /\ Forall (fun s => forallb ordinaryKey (names s) = true
                      /\ NoDup (names s)) SHADERS.
Proof.
  intros _. unfold getDefaultUniforms, names, defaultsOf.
  destruct (fold_assign_keys (ShaderDefinition.uniforms shader) [])
    as [Hn [Hk He]].
  cbv zeta in *. split; [apply Hn; constructor|].
  split; [intros k; rewrite Hk; cbn; tauto|].
  split; [intros H; rewrite He; [reflexivity | exact H | intros k _ []]|].
  repeat constructor; cbn; intuition discriminate.
Qed.

Lemma getDefaultUniforms_keys (shader : ShaderDefinition.t) (k : string) :
  In k (names shader) -> In k (keys (getDefaultUniforms shader)).
Proof.
  unfold getDefaultUniforms, names.
  destruct (fold_assign_keys (ShaderDefinition.uniforms shader) [])
    as [_ [Hk _]].
  cbv zeta in Hk. intros H. apply Hk. now right.
Qed.

(* ====================================================================== *)
(** * The page under any sequence of actions *)
(* ====================================================================== *)

Lemma defaults_have_every_name (shader : ShaderDefinition.t)
    (d : ShaderUniform.t) :
  In d (ShaderDefinition.uniforms shader) ->
  lookup (ShaderUniform.name d) (getDefaultUniforms shader) <> None.
Proof.
  intros Hin. apply lookup_keys.
  apply (getDefaultUniforms_keys shader). unfold names. now apply in_map.
Qed.

Lemma complete_select (id : string) (page next : Page) :
  handleShaderSelect id page = Some next -> complete next.
Proof.
  unfold handleShaderSelect.
  destruct (getShaderById id) as [shader|] eqn:E; [|discriminate].
  intros [= <-]. exists shader. cbn. split; [exact E|].
  intros d. apply defaults_have_every_name.
Qed.

Lemma complete_reset (page next : Page) :
  handleResetDefaults page = Some next -> complete next.
Proof.
  unfold handleResetDefaults.
  destruct (getShaderById (shaderId (props page))) as [shader|] eqn:E;
    [|discriminate].
  intros [= <-]. exists shader. cbn. split; [exact E|].
  intros d. apply defaults_have_every_name.
Qed.

Lemma complete_change (name : string) (value : Q) (page next : Page) :
  complete page -> handleUniformChange name value page = Some next ->
  complete next.
Proof.
  intros [shader [E H]] [= <-]. exists shader. cbn. split; [exact E|].
  intros d Hd. destruct (string_dec (ShaderUniform.name d) name) as [-> | Hne].
  - rewrite lookup_assign_same. discriminate.
  - rewrite lookup_assign_other by exact Hne. now apply H.
Qed.

Lemma complete_toggle (page next : Page) :
  complete page -> toggleDebug page = Some next -> complete next.
Proof. intros [shader [E H]] [= <-]. exists shader. cbn. now split. Qed.

Lemma complete_cycle (direction : Z) (page next : Page) :
  cycleShader direction page = normal (Some next) -> complete next.
Proof.
  unfold cycleShader. destruct (at_ SHADERS _) as [s|]; [|discriminate].
  intros [= H]. now apply complete_select in H.
Qed.

Lemma complete_nth (i : Z) (page next : Page) :
  selectNth i page = Some next -> complete next.
Proof.
  unfold selectNth. destruct (at_ SHADERS i) as [s|]; [|discriminate].
  apply complete_select.
Qed.

Lemma complete_act (page : Page) (a : Action) :
  complete page -> complete (act page a).
Proof.
  intros Hc. destruct a as [id | name value | | typing code]; cbn [act].
  - destruct (handleShaderSelect id page) eqn:E; [|exact Hc].
    now apply complete_select in E.
  - destruct (handleUniformChange name value page) eqn:E; [|exact Hc].
    now apply complete_change in E.
  - destruct (handleResetDefaults page) eqn:E; [|exact Hc].
    now apply complete_reset in E.
  - unfold handleKeyDown. destruct typing; [exact Hc|].
    repeat (match goal with
            | |- context [String.eqb code ?k] => destruct (String.eqb code k)
            end);
      try exact Hc;
      match goal with
      | |- context [cycleShader ?d page] =>
          destruct (cycleShader d page) as [[next|]|] eqn:E; try exact Hc;
          now apply complete_cycle in E
      | |- context [selectNth ?i page] =>
          destruct (selectNth i page) as [next|] eqn:E; try exact Hc;
          now apply complete_nth in E
      | |- context [handleResetDefaults page] =>
          destruct (handleResetDefaults page) as [next|] eqn:E; try exact Hc;
          now apply complete_reset in E
      | |- context [toggleDebug page] =>
          destruct (toggleDebug page) as [next|] eqn:E; try exact Hc;
          now apply complete_toggle in E
      end.
Qed.

Lemma complete_initialPage : complete initialPage.
Proof.
  apply (complete_select "plasma" initialPage initialPage). reflexivity.
Qed.

(** X4.  Whatever the user does (buttons, sliders, reset, any key, in any
    order), the page shows a shader of the catalog and its map holds a value
    for every parameter that shader declares: each slider shows the map's
    value and the [?? uniform.defaultValue] fallback is never taken. *)
Theorem page_stays_complete (actions : list Action) :
  let page := fold_left act actions initialPage in
  exists shader,
    getShaderById (shaderId (props page)) = Some shader
    /\ In shader SHADERS
    /\ forall d,
         In d (ShaderDefinition.uniforms shader) ->
         exists value,
           lookup (ShaderUniform.name d) (uniforms (props page)) = Some value
           /\ sliderValue (uniforms (props page)) d = value.
Proof.
  cbv zeta.
  assert (H : complete (fold_left act actions initialPage)).
  { generalize complete_initialPage. generalize initialPage.
    induction actions as [|a actions IH]; intros page Hc; [exact Hc|].
    cbn [fold_left]. apply IH. now apply complete_act. }
  destruct H as [shader [E H]]. exists shader. split; [exact E|].
  split; [unfold getShaderById in E; now apply find_some in E|].
  intros d Hd. specialize (H d Hd). unfold sliderValue.
  destruct (lookup (ShaderUniform.name d) _) as [value|];
    [now exists value | congruence].
Qed.

(** X5.  The arrow keys never throw: from any page, also one whose id the
    catalog does not know, [cycleShader] with +1 or -1 selects a catalog shader at its
    defaults and clears the error.  From a catalog shader, stepping one way
    and then the other returns to it. *)
Theorem cycleShader_stays_in_catalog (direction : Z) (page : Page) :
  (direction = 1 \/ direction = -1)%Z ->
  (exists shader,
      In shader SHADERS
      /\ cycleShader direction page
         = normal (Some {| props :=
                             {| shaderId := ShaderDefinition.id shader;
                                uniforms := getDefaultUniforms shader;
                                showDebug := showDebug (props page) |};
                           error := None |}))
  /\ (In (shaderId (props page)) (map ShaderDefinition.id SHADERS) ->
      forall next,
        cycleShader direction page = normal (Some next) ->
        exists back,
          cycleShader (- direction) next = normal (Some back)
          /\ shaderId (props back) = shaderId (props page)).
Proof.
  intros Hd. destruct page as [[sid u b] e]. split.
  - unfold cycleShader, findIndex, SHADERS.
    cbn [findIndexFrom props shaderId showDebug
         ShaderDefinition.id plasmaShader sphereShader noiseShader
         kaleidoscopeShader auroraShader].
    repeat (match goal with
            | |- context [String.eqb ?k sid] => destruct (String.eqb k sid)
            end);
      destruct Hd as [-> | ->];
      first [ exists plasmaShader; split; [cbn; tauto | reflexivity]
            | exists sphereShader; split; [cbn; tauto | reflexivity]
            | exists noiseShader; split; [cbn; tauto | reflexivity]
            | exists kaleidoscopeShader; split; [cbn; tauto | reflexivity]
            | exists auroraShader; split; [cbn; tauto | reflexivity] ].
  - cbn [props shaderId map SHADERS ShaderDefinition.id In].
    unfold SHADERS. cbn [map In ShaderDefinition.id
                         plasmaShader sphereShader noiseShader
                         kaleidoscopeShader auroraShader].
    intros Hin next.
    destruct Hin as [<- | [<- | [<- | [<- | [<- | []]]]]];
      destruct Hd as [-> | ->];
      intros [= <-]; eexists; (split; [reflexivity|]); reflexivity.
Qed.

(* ====================================================================== *)
(** * The slider's read-out, the pointer and the frame rate *)
(* ====================================================================== *)

Lemma getDecimalPlaces_cases (step : Q) :
  (step < 0.01 /\ getDecimalPlaces step = 4%nat)
  \/ (0.01 <= step /\ step < 0.1 /\ getDecimalPlaces step = 2%nat)
  \/ (0.1 <= step /\ step < 1 /\ getDecimalPlaces step = 1%nat)
  \/ (1 <= step /\ getDecimalPlaces step = 0%nat).
Proof.
  unfold getDecimalPlaces.
  destruct (step ?= 0.01) eqn:A.
  - apply Qeq_alt in A.
    destruct (step ?= 0.1) eqn:B;
      [apply Qeq_alt in B | apply Qlt_alt in B | apply Qgt_alt in B];
      try lra.
    right; left. split; [lra|]. split; [lra|reflexivity].
  - apply Qlt_alt in A. left. now split.
  - apply Qgt_alt in A.
    destruct (step ?= 0.1) eqn:B;
      [apply Qeq_alt in B | apply Qlt_alt in B | apply Qgt_alt in B].
    + destruct (step ?= 1) eqn:C;
        [apply Qeq_alt in C | apply Qlt_alt in C | apply Qgt_alt in C];
        try lra.
      right; right; left. split; [lra|]. split; [lra|reflexivity].
    + right; left. split; [lra|]. split; [lra|reflexivity].
    + destruct (step ?= 1) eqn:C;
        [apply Qeq_alt in C | apply Qlt_alt in C | apply Qgt_alt in C].
      * right; right; right. split; [lra|reflexivity].
      * right; right; left. split; [lra|]. split; [lra|reflexivity].
      * right; right; right. split; [lra|reflexivity].
Qed.

(** X6.  The read-out of a slider is fine enough for its step: for a step
    of at least 0.0001 the smallest difference the chosen number of decimals
    can show is at most the step, and a finer step never gets fewer
    decimals.  Below 0.0001 the read-out stays at four decimals. *)
Theorem readout_resolves_the_step (step : Q) :
  (0.0001 <= step -> displayUnit (getDecimalPlaces step) <= step)
  /\ (step < 0.0001 -> getDecimalPlaces step = 4%nat)
  /\ (forall finer,
         finer <= step ->
         (getDecimalPlaces step <= getDecimalPlaces finer)%nat).
Proof.
  assert (U4 : displayUnit 4 == 0.0001) by (vm_compute; reflexivity).
  assert (U2 : displayUnit 2 == 0.01) by (vm_compute; reflexivity).
  assert (U1 : displayUnit 1 == 0.1) by (vm_compute; reflexivity).
  assert (U0 : displayUnit 0 == 1) by (vm_compute; reflexivity).
  destruct (getDecimalPlaces_cases step)
    as [[A ->] | [[A [B ->]] | [[A [B ->]] | [A ->]]]].
  - split; [intros H; rewrite U4; exact H|]. split; [reflexivity|].
    intros finer Hf.
    destruct (getDecimalPlaces_cases finer)
      as [[A' ->] | [[A' [B' ->]] | [[A' [B' ->]] | [A' ->]]]];
      try lia; lra.
  - split; [intros H; rewrite U2; exact A|]. split; [intros H; lra|].
    intros finer Hf.
    destruct (getDecimalPlaces_cases finer)
      as [[A' ->] | [[A' [B' ->]] | [[A' [B' ->]] | [A' ->]]]];
      try lia; lra.
  - split; [intros H; rewrite U1; exact A|]. split; [intros H; lra|].
    intros finer Hf.
    destruct (getDecimalPlaces_cases finer)
      as [[A' ->] | [[A' [B' ->]] | [[A' [B' ->]] | [A' ->]]]];
      try lia; lra.
  - split; [intros H; rewrite U0; exact A|]. split; [intros H; lra|].
    intros finer Hf. lia.
Qed.

(** X7.  A pointer position inside the canvas rectangle maps into the unit
    square: X grows from the left edge and Y from the bottom edge, so the
    top edge of the rectangle is 1 and its bottom edge is 0. *)
Theorem pointer_inside_canvas (clientX clientY : Q) (rect : Rect) :
  0 < width rect -> 0 < height rect ->
  left rect <= clientX <= left rect + width rect ->
  top rect <= clientY <= top rect + height rect ->
  inUnitSquare (pointer clientX clientY rect)
  /\ x (pointer clientX clientY rect) * width rect == clientX - left rect
  /\ y (pointer clientX clientY rect) * height rect
     == top rect + height rect - clientY.
Proof.
  intros Hw Hh [Hx1 Hx2] [Hy1 Hy2]. unfold inUnitSquare, pointer. cbn [x y].
  assert (Ax : 0 <= (clientX - left rect) / width rect <= 1).
  { split.
    - apply Qle_shift_div_l; [exact Hw | lra].
    - apply Qle_shift_div_r; [exact Hw | lra]. }
  assert (Ay : 0 <= (clientY - top rect) / height rect <= 1).
  { split.
    - apply Qle_shift_div_l; [exact Hh | lra].
    - apply Qle_shift_div_r; [exact Hh | lra]. }
  split; [split; [exact Ax | lra]|].
  split; field; intros E; rewrite E in *; lra.
Qed.

(* ====================================================================== *)
(** * The refs follow the props *)
(* ====================================================================== *)

Lemma trace_bind {A B : Type} (c : M A) (k : A -> M B) (w : World) :
  trace (bind c k w)
  = (trace (c w) ++ trace (k (value (c w)) (world (c w))))%list.
Proof.
  unfold bind. destruct (c w) as [a w1 t1]. cbn.
  destruct (k a w1); reflexivity.
Qed.

Lemma value_bind {A B : Type} (c : M A) (k : A -> M B) (w : World) :
  value (bind c k w) = value (k (value (c w)) (world (c w))).
Proof.
  unfold bind. destruct (c w) as [a w1 t1]. cbn.
  destruct (k a w1); reflexivity.
Qed.

Lemma mirrors_effects (dev : Device) (changed : bool) (p : Props) (w : World) :
  mirrors p (world (effects dev changed p w)).
Proof.
  unfold effects. rewrite world_bind. cbn [getHost value world].
  rewrite world_bind.
  set (w1 := world (when (changed && listening (host w)) stopEffect w)).
  rewrite world_bind. cbn [modifyRefs value world].
  rewrite world_bind. cbn [modifyRefs value world refs host].
  apply preserves_elim; [|split; reflexivity].
  destruct changed; cbn [when]; [|apply preserves_ret].
  apply preserves_bind;
    [apply startEffect_preserves | intros _; apply shaderIdEffect_preserves];
    intros; assumption.
Qed.

Lemma mirrors_update (dev : Device) (prev p : Props) (w : World) :
  mirrors p (world (update dev prev p w)).
Proof. unfold update. rewrite world_bind. apply mirrors_effects. Qed.

Lemma mirrors_surface (dev : Device) (made : list Call) (app : App) :
  mirrors (props (page app)) (canvas app) ->
  mirrors (props (page (surface dev made app))) (canvas (surface dev made app)).
Proof.
  intros H. unfold surface. destruct (lastError made); [|exact H].
  cbn [then_ page canvas props]. apply mirrors_update.
Qed.

Lemma mirrors_rerender (dev : Device) (next : option Page) (app : App) :
  mirrors (props (page app)) (canvas app) ->
  mirrors (props (page (rerender dev next app)))
    (canvas (rerender dev next app)).
Proof.
  intros H. unfold rerender. destruct next as [next|]; [|exact H].
  apply mirrors_surface. cbn [page canvas]. apply mirrors_update.
Qed.

Lemma mirrors_then (p : Props) (c : M unit) (app : App) :
  preserves (mirrors p) c ->
  mirrors p (canvas app) -> mirrors p (canvas (then_ c app)).
Proof. intros Hc H. cbn [then_ canvas]. now apply Hc. Qed.

Lemma mirrors_step (dev : Device) (e : Event) (app : App) :
  mirrors (props (page app)) (canvas app) ->
  mirrors (props (page (step dev e app))) (canvas (step dev e app)).
Proof.
  intros H.
  destruct e; cbn [step]; try (now apply mirrors_rerender);
    change (page (then_ ?c app)) with (page app);
    (apply mirrors_then; [|exact H]); unfold listen.
  - apply animate_preserves; intros; assumption.
  - unfold handleMouseMove.
    preserve; apply preserves_modifyRefs; intros; assumption.
  - unfold handleTouchMove.
    preserve; apply preserves_modifyRefs; intros; assumption.
  - apply preserves_bind;
      [apply preserves_modifyHost; intros; assumption | intros _].
    apply preserves_bind; [apply preserves_getHost | intros o].
    apply preserves_when. apply handleResize_preserves. intros; assumption.
Qed.

Lemma mirrors_run (dev : Device) (parent_w parent_h : Q) (es : list Event) :
  mirrors (props (page (run dev es (open dev parent_w parent_h))))
    (canvas (run dev es (open dev parent_w parent_h))).
Proof.
  assert (H0 : mirrors (props (page (open dev parent_w parent_h)))
                 (canvas (open dev parent_w parent_h))).
  { unfold open. apply mirrors_surface. cbn [page canvas].
    unfold mount. apply mirrors_effects. }
  revert H0. generalize (open dev parent_w parent_h). unfold run.
  induction es as [|e es IH]; intros app H; cbn [fold_left]; [exact H|].
  apply IH. now apply mirrors_step.
Qed.

(** X9.  Whatever has happened since the page was opened, the values the
    frame callback reads are the page's current ones: [uniformsRef] holds
    the page's [uniforms] and [showDebugRef] its [showDebug]. *)
Theorem refs_follow_props (dev : Device) (parent_w parent_h : Q)
    (es : list Event) :
  let app := run dev es (open dev parent_w parent_h) in
  uniformsRef (refs (canvas app)) = uniforms (props (page app))
  /\ showDebugRef (refs (canvas app)) = showDebug (props (page app)).
Proof.
  cbv zeta.
  change (mirrors (props (page (run dev es (open dev parent_w parent_h))))
            (canvas (run dev es (open dev parent_w parent_h)))).
  assert (H0 : mirrors (props (page (open dev parent_w parent_h)))
                 (canvas (open dev parent_w parent_h))).
  { unfold open. apply mirrors_surface. cbn [page canvas].
    unfold mount. apply mirrors_effects. }
  revert H0. generalize (open dev parent_w parent_h). unfold run.
  induction es as [|e es IH]; intros app H; cbn [fold_left]; [exact H|].
  apply IH. now apply mirrors_step.
Qed.

(* ====================================================================== *)
(** * The loop runs while the listeners are attached *)
(* ====================================================================== *)

Section Leads.

Context {A B : Type}.

Lemma leads_bind (R Q : World -> Prop) (c : M A) (k : A -> M B) :
  preserves R c -> (forall a, leads R (k a) Q) -> leads R (bind c k) Q.
Proof.
  intros Hc Hk w H. rewrite world_bind. apply Hk. now apply Hc.
Qed.

Lemma leads_weaken (R Q : World -> Prop) (c : M A) :
  preserves R c -> (forall w, R w -> Q w) -> leads R c Q.
Proof. intros Hc HQ w H. apply HQ. now apply Hc. Qed.

End Leads.

Lemma stopped_looping (w : World) : stopped w -> looping w.
Proof. intros [Hs Hl]. unfold looping. now rewrite Hs. Qed.

(** What every frame leaves behind. *)
Lemma render_loop (dev : Device) (w : World) :
  scheduled (host (world (render dev w))) = Some (nextName (host w))
  /\ animationFrameRef (refs (world (render dev w))) = nextName (host w)
  /\ listening (host (world (render dev w))) = listening (host w)
  /\ debugCanvas (host (world (render dev w))) = debugCanvas (host w).
Proof.
  destruct (programRef (refs w)) as [program|] eqn:Hp;
    [destruct (vaoRef (refs w)) as [vao|] eqn:Hv;
     [destruct (hasErrorRef (refs w)) eqn:He|]|].
  2:{ rewrite (render_draws_world dev w program vao Hp Hv He).
      repeat split. }
  all: rewrite render_idles by auto; repeat split.
Qed.

Lemma looping_stopEffect (w : World) :
  looping w -> stopped (world (stopEffect w)).
Proof.
  destruct w as [r o]. unfold looping, stopped, stopEffect, cancel_frame.
  cbn [refs host]. intros H. run.
  destruct (scheduled o) as [id|] eqn:Hs.
  - destruct H as [_ ->]. rewrite Nat.eqb_refl. cbn.
    destruct (vaoRef r), (programRef r); cbn; split; reflexivity.
  - cbn. destruct (vaoRef r), (programRef r); cbn; split;
      first [reflexivity | exact Hs].
Qed.

Lemma render_then_listen (dev : Device) (P : World -> Prop) :
  leads P (render dev ;; modifyHost (set_listening true)) looping.
Proof.
  intros w _. rewrite world_bind. cbn [modifyHost world].
  destruct (render_loop dev w) as [Hs [Ha _]].
  unfold looping. cbn [host refs set_listening scheduled listening].
  rewrite Hs. split; [reflexivity | exact Ha].
Qed.

Lemma stopped_fail (error : string) : preserves stopped (fail error).
Proof. apply fail_preserves. intros; assumption. Qed.

Lemma stopped_startEffect (dev : Device) (shaderId : string) :
  leads stopped (startEffect dev shaderId) looping.
Proof.
  unfold startEffect.
  apply leads_bind;
    [apply createWebGLContext_preserves | intros gl].
  destruct (negb gl);
    [apply leads_weaken; [apply stopped_fail | apply stopped_looping]|].
  apply leads_bind;
    [apply preserves_modifyRefs; intros; assumption | intros _].
  apply leads_bind;
    [apply handleResize_preserves; intros; assumption | intros _].
  apply leads_bind;
    [apply createFullscreenQuad_preserves; intros; assumption | intros vao].
  destruct vao as [vao|];
    [|apply leads_weaken; [apply stopped_fail | apply stopped_looping]].
  apply leads_bind;
    [apply preserves_modifyRefs; intros; assumption | intros _].
  apply leads_bind;
    [apply initShader_preserves; intros; assumption | intros ok].
  destruct (negb ok);
    [apply leads_weaken; [apply preserves_ret | apply stopped_looping]|].
  apply leads_bind; [apply now_preserves; intros; assumption | intros t0].
  apply leads_bind;
    [apply preserves_modifyRefs; intros; assumption | intros _].
  apply leads_bind; [apply now_preserves; intros; assumption | intros t1].
  apply leads_bind;
    [apply preserves_modifyRefs; intros; assumption | intros _].
  apply leads_bind; [apply preserves_getRefs | intros r].
  apply leads_bind;
    [apply preserves_modifyHost; intros; assumption | intros _].
  apply render_then_listen.
Qed.

Lemma looping_shaderIdEffect (dev : Device) (shaderId : string) :
  preserves looping (shaderIdEffect dev shaderId).
Proof. apply shaderIdEffect_preserves; intros; assumption. Qed.

Lemma looping_animate (dev : Device) : preserves looping (animate dev).
Proof.
  intros w H. unfold animate. rewrite world_bind. cbn [getHost value world].
  unfold looping in H. destruct (scheduled (host w)) as [id|] eqn:Hs.
  - destruct H as [Hl _]. rewrite world_bind. cbn [modifyHost value world].
    match goal with
    | |- looping (world (render dev ?w1)) =>
        destruct (render_loop dev w1) as [Hs' [Ha' [Hl' _]]]
    end.
    unfold looping. rewrite Hs', Hl'. cbn [host set_scheduled listening].
    split; [exact Hl | exact Ha'].
  - cbn [ret world]. unfold looping. now rewrite Hs.
Qed.

Lemma looping_effects (dev : Device) (changed : bool) (p : Props) :
  preserves looping (effects dev changed p).
Proof.
  intros w H. unfold effects. rewrite world_bind. cbn [getHost value world].
  destruct changed; cbn [andb when].
  - rewrite world_bind.
    assert (H1 : stopped (world (when (listening (host w)) stopEffect w))).
    { destruct (listening (host w)) eqn:Hl; cbn [when].
      - now apply looping_stopEffect.
      - cbn [ret world]. unfold looping in H. unfold stopped.
        destruct (scheduled (host w)); [destruct H; congruence | now split]. }
    revert H1. generalize (world (when (listening (host w)) stopEffect w)).
    intros w1 H1. rewrite world_bind. cbn [modifyRefs value world].
    rewrite world_bind. cbn [modifyRefs value world refs host].
    rewrite world_bind. apply looping_shaderIdEffect.
    apply stopped_startEffect. exact H1.
  - rewrite world_bind. cbn [ret value world].
    rewrite world_bind. cbn [modifyRefs value world].
    rewrite world_bind. cbn [modifyRefs value world ret]. exact H.
Qed.

Lemma looping_update (dev : Device) (prev p : Props) :
  preserves looping (update dev prev p).
Proof.
  unfold update. apply preserves_bind;
    [apply evaluate_preserves; intros; assumption | intros _].
  apply looping_effects.
Qed.

Lemma looping_rerender (dev : Device) (next : option Page) (app : App) :
  looping (canvas app) -> looping (canvas (rerender dev next app)).
Proof.
  intros H. unfold rerender. destruct next as [next|]; [|exact H].
  unfold surface. destruct (lastError _); cbn [then_ canvas];
    repeat apply looping_update; exact H.
Qed.

Lemma looping_step (dev : Device) (e : Event) (app : App) :
  looping (canvas app) -> looping (canvas (step dev e app)).
Proof.
  intros H.
  destruct e; cbn [step]; try (now apply looping_rerender);
    cbn [then_ canvas]; revert H; generalize (canvas app);
    change (forall w, looping w -> looping (world (?c w)))
      with (preserves looping c);
    unfold listen.
  - apply looping_animate.
  - unfold handleMouseMove.
    preserve; apply preserves_modifyRefs; intros; assumption.
  - unfold handleTouchMove.
    preserve; apply preserves_modifyRefs; intros; assumption.
  - apply preserves_bind;
      [apply preserves_modifyHost; intros; assumption | intros _].
    apply preserves_bind; [apply preserves_getHost | intros o].
    apply preserves_when. apply handleResize_preserves. intros; assumption.
Qed.

Lemma looping_open (dev : Device) (parent_w parent_h : Q) :
  looping (canvas (open dev parent_w parent_h)).
Proof.
  unfold open, surface.
  assert (H : looping (world (mount dev parent_w parent_h (props initialPage)))).
  { unfold mount. apply looping_effects. unfold looping. cbn. reflexivity. }
  destruct (lastError _); cbn [then_ canvas];
    repeat apply looping_update; exact H.
Qed.

Lemma looping_run (dev : Device) (es : list Event) (app : App) :
  looping (canvas app) -> looping (canvas (run dev es app)).
Proof.
  unfold run. revert app.
  induction es as [|e es IH]; intros app H; cbn [fold_left]; [exact H|].
  apply IH. now apply looping_step.
Qed.

(** X10.  Whatever has happened since the page was opened, on any device,
    a frame is pending exactly when the canvas listens to the pointer and to
    resizes, and the pending frame is the one [animationFrameRef] names, so
    the clean-up cancels the frame that is pending. *)
Theorem loop_runs_while_listening (dev : Device) (parent_w parent_h : Q)
    (es : list Event) :
  let w := canvas (run dev es (open dev parent_w parent_h)) in
  (listening (host w) = true <-> scheduled (host w) <> None)
  /\ (forall id,
         scheduled (host w) = Some id -> animationFrameRef (refs w) = id)
  /\ scheduled (host (world (stopEffect w))) = None.
Proof.
  cbv zeta.
  pose proof (looping_run dev es _ (looping_open dev parent_w parent_h)) as H.
  revert H. generalize (canvas (run dev es (open dev parent_w parent_h))).
  intros w H. pose proof (looping_stopEffect w H) as [Hs _].
  unfold looping in H. destruct (scheduled (host w)) as [id|].
  - destruct H as [Hl Ha]. split; [split; [discriminate | intros _; exact Hl]|].
    split; [intros id' [= <-]; exact Ha | exact Hs].
  - split; [split; [congruence | intros Hn; now elim Hn]|].
    split; [discriminate | exact Hs].
Qed.

(* ====================================================================== *)
(** * What the calls of a computation never do *)
(* ====================================================================== *)

Section Always.

Variable T : list Call -> Prop.
Hypothesis T_nil : T [].
Hypothesis T_app : forall a b, T a -> T b -> T (a ++ b)%list.

Lemma always_ret {A : Type} (a : A) : always T (ret a).
Proof. intros w. exact T_nil. Qed.

Lemma always_bind {A B : Type} (c : M A) (k : A -> M B) :
  always T c -> (forall a, always T (k a)) -> always T (bind c k).
Proof. intros Hc Hk w. rewrite trace_bind. apply T_app; [apply Hc | apply Hk]. Qed.

Lemma always_call (c : Call) : T [c] -> always T (call c).
Proof. intros H w. exact H. Qed.

Lemma always_getRefs : always T getRefs.
Proof. intros w. exact T_nil. Qed.

Lemma always_getHost : always T getHost.
Proof. intros w. exact T_nil. Qed.

Lemma always_modifyRefs (f : Refs -> Refs) : always T (modifyRefs f).
Proof. intros w. exact T_nil. Qed.

Lemma always_modifyHost (f : Host -> Host) : always T (modifyHost f).
Proof. intros w. exact T_nil. Qed.

Lemma always_when (c : bool) (k : M unit) :
  always T k -> always T (when c k).
Proof. intros Hk. destruct c; [exact Hk | apply always_ret]. Qed.

Lemma always_forEach {A : Type} (l : list A) (body : A -> M unit) :
  (forall a, always T (body a)) -> always T (forEach l body).
Proof.
  intros Hb. induction l as [|a l IH]; cbn [forEach].
  - apply always_ret.
  - apply always_bind; [apply Hb | intros _; exact IH].
Qed.

(** The rules of the triples. *)
Lemma hoare_bind {A B : Type} (P : World -> Prop) (R : A -> World -> Prop)
    (Q : B -> World -> Prop) (c : M A) (k : A -> M B) :
  hoare T P c R -> (forall a, hoare T (R a) (k a) Q) -> hoare T P (bind c k) Q.
Proof.
  intros Hc Hk w H. rewrite value_bind, world_bind, trace_bind.
  destruct (Hc w H) as [HR Ht]. destruct (Hk _ _ HR) as [HQ Ht'].
  split; [exact HQ | now apply T_app].
Qed.

Lemma hoare_frame {A : Type} (P : World -> Prop) (c : M A) :
  preserves P c -> always T c -> hoare T P c (fun _ => P).
Proof. intros Hp Ht w H. split; [now apply Hp | apply Ht]. Qed.

Lemma hoare_conseq {A : Type} (P P' : World -> Prop)
    (Q Q' : A -> World -> Prop) (c : M A) :
  hoare T P c Q ->
  (forall w, P' w -> P w) -> (forall a w, Q a w -> Q' a w) ->
  hoare T P' c Q'.
Proof.
  intros Hc HP HQ w H. destruct (Hc w (HP w H)) as [Hq Ht].
  split; [now apply HQ | exact Ht].
Qed.

End Always.

Lemma quiet_app (a b : list Call) : quiet a -> quiet b -> quiet (a ++ b)%list.
Proof. unfold quiet. intros Ha Hb. now rewrite surfaced_app, Ha, Hb. Qed.

Lemma links_app (a b : list Call) : links (a ++ b) = (links a + links b)%nat.
Proof. unfold links. now rewrite filter_app, length_app. Qed.

Lemma tally_nil : tally 0 [].
Proof. split; reflexivity. Qed.

Lemma tally_app (n m : nat) (a b : list Call) :
  tally n a -> tally m b -> tally (n + m) (a ++ b)%list.
Proof.
  intros [Ha Hn] [Hb Hm]. split; [now apply quiet_app|].
  now rewrite links_app, Hn, Hm.
Qed.

Lemma tally_idle (a b : list Call) :
  tally 0 a -> tally 0 b -> tally 0 (a ++ b)%list.
Proof. apply (tally_app 0 0). Qed.

(** Sequencing adds up the links. *)
Lemma hoare_bind_tally {A B : Type} (n m : nat) (P : World -> Prop)
    (R : A -> World -> Prop) (Q : B -> World -> Prop) (c : M A)
    (k : A -> M B) :
  hoare (tally n) P c R -> (forall a, hoare (tally m) (R a) (k a) Q) ->
  hoare (tally (n + m)) P (bind c k) Q.
Proof.
  intros Hc Hk w H. rewrite value_bind, world_bind, trace_bind.
  destruct (Hc w H) as [HR Ht]. destruct (Hk _ _ HR) as [HQ Ht'].
  split; [exact HQ | now apply tally_app].
Qed.

Lemma hoare_grade {A : Type} (n m : nat) (P : World -> Prop) (c : M A)
    (Q : A -> World -> Prop) :
  n = m -> hoare (tally n) P c Q -> hoare (tally m) P c Q.
Proof. now intros ->. Qed.

(** Walk through a computation that neither calls [onError] nor links. *)
Ltac quietly :=
  repeat
    (match goal with
     | |- always _ (bind _ _) =>
         apply (always_bind _ tally_idle); [| intro]
     | |- always _ (ret _) => apply (always_ret _ tally_nil)
     | |- always _ (call _) => apply always_call; split; reflexivity
     | |- always _ getRefs => apply (always_getRefs _ tally_nil)
     | |- always _ getHost => apply (always_getHost _ tally_nil)
     | |- always _ (when _ _) => apply (always_when _ tally_nil)
     | |- always _ (forEach _ _) =>
         apply (always_forEach _ tally_nil tally_idle); intro
     | |- always _ (modifyRefs _) => apply (always_modifyRefs _ tally_nil)
     | |- always _ (modifyHost _) => apply (always_modifyHost _ tally_nil)
     | |- always _ (match ?s with _ => _ end) => destruct s
     | |- always _ _ => solve [auto]
     end).

Section Quiet.

Variable dev : Device.

Lemma now_quiet : always (tally 0) (now dev).
Proof. unfold now. quietly. Qed.

Lemma create_quiet (made : nat -> Call) :
  (forall n, tally 0 [made n]) -> always (tally 0) (create dev made).
Proof.
  intros H. unfold create. quietly. apply always_call. apply H.
Qed.

Lemma request_frame_quiet : always (tally 0) request_frame.
Proof. unfold request_frame. quietly. Qed.

Lemma cancel_frame_quiet (id : nat) : always (tally 0) (cancel_frame id).
Proof. unfold cancel_frame. quietly. Qed.

Lemma createWebGLContext_quiet : always (tally 0) (createWebGLContext dev).
Proof. unfold createWebGLContext. quietly. Qed.

Lemma createFullscreenQuad_quiet : always (tally 0) (createFullscreenQuad dev).
Proof.
  unfold createFullscreenQuad.
  apply (always_bind _ tally_idle);
    [apply create_quiet; split; reflexivity | intros vao].
  destruct vao; quietly.
  apply create_quiet; split; reflexivity.
Qed.

Lemma setUniform_quiet (program : nat) (name : string) (type : UniformType)
    (value : UniformValue) :
  always (tally 0) (setUniform dev program name type value).
Proof.
  unfold setUniform. destruct (getUniformLocation dev program name); quietly.
  apply always_call. destruct type; split; reflexivity.
Qed.

Lemma handleResize_quiet : always (tally 0) handleResize.
Proof. unfold handleResize. quietly. Qed.

Lemma stopEffect_quiet : always (tally 0) stopEffect.
Proof.
  pose proof cancel_frame_quiet. unfold stopEffect. quietly.
Qed.

Lemma render_quiet : always (tally 0) (render dev).
Proof.
  pose proof now_quiet. pose proof request_frame_quiet.
  pose proof setUniform_quiet.
  unfold render, clearToBackground. quietly.
Qed.

Lemma evaluate_quiet : always (tally 0) (evaluate dev).
Proof. pose proof now_quiet. unfold evaluate. quietly. Qed.

Lemma animate_quiet : always (tally 0) (animate dev).
Proof. pose proof render_quiet. unfold animate. quietly. Qed.

End Quiet.

(* ====================================================================== *)
(** * A device on which nothing fails *)
(* ====================================================================== *)

Lemma hoare_pure {B : Type} (T : list Call -> Prop) (phi : Prop)
    (P : World -> Prop) (c : M B) (Q : B -> World -> Prop) :
  (phi -> hoare T P c Q) -> hoare T (fun w => phi /\ P w) c Q.
Proof. intros H w [Hphi HP]. now apply H. Qed.

Lemma hoare_modifyRefs (T : list Call -> Prop) (P : World -> Prop)
    (Q : unit -> World -> Prop) (f : Refs -> Refs) :
  T [] ->
  (forall w, P w -> Q tt {| refs := f (refs w); host := host w |}) ->
  hoare T P (modifyRefs f) Q.
Proof. intros Ht H w HP. split; [now apply H | exact Ht]. Qed.

Lemma hoare_modifyHost (T : list Call -> Prop) (P : World -> Prop)
    (Q : unit -> World -> Prop) (f : Host -> Host) :
  T [] ->
  (forall w, P w -> Q tt {| refs := refs w; host := f (host w) |}) ->
  hoare T P (modifyHost f) Q.
Proof. intros Ht H w HP. split; [now apply H | exact Ht]. Qed.

Lemma lastError_quiet (cs : list Call) : quiet cs -> lastError cs = None.
Proof.
  unfold quiet, lastError. generalize (@None string).
  induction cs as [|c cs IH]; intros acc H; [reflexivity|].
  cbn [fold_left]. destruct c; try (apply IH; exact H).
  discriminate H.
Qed.

Section Builds.

Variable dev : Device.
Variable shaderDef : ShaderDefinition.t.
Hypothesis dev_builds : builds dev shaderDef.

Lemma initShader_builds (shaderId : string) (w : World) :
  glRef (refs w) = true ->
  getShaderById shaderId = Some shaderDef ->
  value (initShader dev shaderId w) = true
  /\ world (initShader dev shaderId w)
     = {| refs := set_hasErrorRef false
                    (set_programRef (Some (S (S (nextName (host w)))))
                       (refs w));
          host := set_nextName (S (S (S (nextName (host w))))) (host w) |}
  /\ tally 1 (trace (initShader dev shaderId w)).
Proof.
  destruct dev_builds as [Hc [Ha [Hv [Hf Hl]]]]. intros Hg Hd.
  destruct w as [r o]. destruct r, o. cbn [refs host glRef] in *. subst.
  unfold initShader, compileShader, createProgram, create, fail.
  unfold bind, ret, when, call, getRefs, getHost, modifyRefs, modifyHost.
  cbn -[getShaderById]. rewrite Hd.
  repeat (progress (cbn -[getShaderById]; rewrite ?Ha, ?Hv, ?Hf, ?Hl)).
  match goal with
  | |- context [match ?p with Some _ => _ | None => _ end] =>
      destruct p
  end;
    repeat (progress (cbn -[getShaderById]; rewrite ?Ha, ?Hv, ?Hf, ?Hl));
    repeat split.
Qed.

Lemma createWebGLContext_spec (P : World -> Prop) :
  hoare (tally 0) P (createWebGLContext dev) (fun gl w => gl = true /\ P w).
Proof.
  destruct dev_builds as [Hc _]. intros w H. unfold createWebGLContext.
  rewrite Hc. cbn. repeat split. exact H.
Qed.

Lemma createFullscreenQuad_spec (P : World -> Prop) :
  (forall v r o,
      P {| refs := r; host := o |} ->
      P {| refs := r; host := set_nextName v o |}) ->
  hoare (tally 0) P (createFullscreenQuad dev)
    (fun vao w => vao <> None /\ P w).
Proof.
  destruct dev_builds as [_ [Ha _]]. intros HP w H.
  destruct (createFullscreenQuad_ok dev w (Ha _)) as [Ev Ew].
  split; [split|].
  - rewrite Ev. discriminate.
  - now apply createFullscreenQuad_preserves.
  - apply createFullscreenQuad_quiet.
Qed.

Lemma initShader_spec (F : World -> Prop) (shaderId : string) :
  (forall v r o,
      F {| refs := r; host := o |} ->
      F {| refs := r; host := set_nextName v o |}) ->
  (forall v r o,
      F {| refs := r; host := o |} ->
      F {| refs := set_programRef v r; host := o |}) ->
  (forall v r o,
      F {| refs := r; host := o |} ->
      F {| refs := set_hasErrorRef v r; host := o |}) ->
  getShaderById shaderId = Some shaderDef ->
  hoare (tally 1)
    (fun w => glRef (refs w) = true /\ vaoRef (refs w) <> None /\ F w)
    (initShader dev shaderId)
    (fun ok w => ok = true /\ built w /\ F w).
Proof.
  intros Fn Fp Fe Hd w [Hg [Hv HF]].
  destruct (initShader_builds shaderId w Hg Hd) as [Ev [Ew Et]].
  rewrite Ev, Ew. split; [|exact Et]. split; [reflexivity|].
  split.
  - unfold built. cbn. repeat split; try assumption. discriminate.
  - apply Fe, Fp, Fn. destruct w. exact HF.
Qed.

Lemma render_spec :
  hoare (tally 0) built (render dev)
    (fun _ w =>
       built w /\ scheduled (host w) = Some (animationFrameRef (refs w))).
Proof.
  intros w H. split; [split|].
  - revert w H. apply render_preserves; intros; assumption.
  - destruct (render_loop dev w) as [Hs [Ha _]]. now rewrite Hs, Ha.
  - apply render_quiet.
Qed.

Lemma startEffect_spec (shaderId : string) :
  getShaderById shaderId = Some shaderDef ->
  hoare (tally 1) (fun _ => True) (startEffect dev shaderId)
    (fun _ => rendering).
Proof.
  intros Hd. unfold startEffect.
  eapply hoare_grade; [shelve|].
  eapply hoare_bind_tally; [apply createWebGLContext_spec | intros gl].
  apply hoare_pure. intros ->. cbn [negb].
  eapply hoare_bind_tally.
  { apply (hoare_modifyRefs (tally 0)) with
      (Q := fun _ w => glRef (refs w) = true); [apply tally_nil|].
    intros w H. reflexivity. }
  intros ?.
  eapply hoare_bind_tally.
  { apply (hoare_frame (tally 0));
      [apply handleResize_preserves; intros; assumption
      | apply handleResize_quiet]. }
  intros ?. cbv beta.
  eapply hoare_bind_tally.
  { apply createFullscreenQuad_spec. intros; assumption. }
  intros vao. apply hoare_pure. intros Hvao.
  destruct vao as [vao|]; [clear Hvao | now elim Hvao].
  eapply hoare_bind_tally.
  { apply (hoare_modifyRefs (tally 0)) with
      (Q := fun _ w => glRef (refs w) = true /\ vaoRef (refs w) <> None
                       /\ True);
      [apply tally_nil|].
    intros w H. cbn. split; [exact H|]. split; [discriminate | exact I]. }
  intros ?.
  eapply hoare_bind_tally.
  { apply (initShader_spec (fun _ => True) shaderId); auto. }
  intros ok. apply hoare_pure. intros ->. cbn [negb].
  eapply (hoare_conseq _ (fun w => built w)).
  2:{ intros w [H _]. exact H. }
  2:{ intros ? w H. exact H. }
  eapply hoare_bind_tally.
  { apply (hoare_frame (tally 0));
      [apply now_preserves; intros; assumption | apply now_quiet]. }
  intros t0. cbv beta.
  eapply hoare_bind_tally.
  { apply (hoare_frame (tally 0));
      [apply preserves_modifyRefs; intros; assumption
      | apply (always_modifyRefs _ tally_nil)]. }
  intros ?. cbv beta.
  eapply hoare_bind_tally.
  { apply (hoare_frame (tally 0));
      [apply now_preserves; intros; assumption | apply now_quiet]. }
  intros t1. cbv beta.
  eapply hoare_bind_tally.
  { apply (hoare_frame (tally 0));
      [apply preserves_modifyRefs; intros; assumption
      | apply (always_modifyRefs _ tally_nil)]. }
  intros ?. cbv beta.
  eapply hoare_bind_tally.
  { apply (hoare_frame (tally 0));
      [apply preserves_getRefs | apply (always_getRefs _ tally_nil)]. }
  intros r. cbv beta.
  eapply hoare_bind_tally.
  { apply (hoare_frame (tally 0));
      [apply preserves_modifyHost; intros; assumption
      | apply (always_modifyHost _ tally_nil)]. }
  intros ?. cbv beta.
  eapply hoare_bind_tally; [apply render_spec | intros ?].
  apply (hoare_modifyHost (tally 0)); [apply tally_nil|].
  intros w [[Hg [Hv [Hp He]]] Hs]. unfold rendering, built. cbn.
  repeat split; assumption.
  Unshelve. reflexivity.
Qed.

Lemma rebuild_spec (shaderId : string) :
  getShaderById shaderId = Some shaderDef ->
  hoare (tally 1) rendering
    (_ <- initShader dev shaderId ;;
     t <- now dev ;;
     modifyRefs (set_startTimeRef t))
    (fun _ => rendering).
Proof.
  intros Hd.
  apply (hoare_bind_tally 1 0) with (R := fun _ => rendering).
  { eapply hoare_conseq.
    - apply (initShader_spec
               (fun w => scheduled (host w) = Some (animationFrameRef (refs w))
                         /\ listening (host w) = true)
               shaderId); auto.
    - intros w [[Hg [Hv _]] H]. split; [exact Hg|]. split; [exact Hv | exact H].
    - intros ? w [_ H]. exact H. }
  intros ?. apply (hoare_frame (tally 0)).
  - apply preserves_bind;
      [apply now_preserves; intros; assumption | intros t].
    apply preserves_modifyRefs; intros; assumption.
  - pose proof (now_quiet dev). quietly.
Qed.

Lemma shaderIdEffect_spec (shaderId : string) :
  getShaderById shaderId = Some shaderDef ->
  hoare (tally 1) rendering (shaderIdEffect dev shaderId)
    (fun _ => rendering).
Proof.
  intros Hd w H. unfold shaderIdEffect.
  rewrite world_bind, trace_bind.
  cbn [getRefs value world trace app].
  destruct H as [[Hg [Hv [Hp He]]] [Hs Hl]].
  assert (Hr : rendering w) by (repeat split; assumption).
  destruct (vaoRef (refs w)) as [vao|]; [|now elim Hv].
  rewrite Hg. cbn [when].
  exact (rebuild_spec shaderId Hd w Hr).
Qed.

Lemma effects_spec (p : Props) :
  getShaderById (shaderId p) = Some shaderDef ->
  hoare (tally 2) (fun _ => True) (effects dev true p) (fun _ => rendering).
Proof.
  intros Hd. unfold effects.
  eapply hoare_grade; [shelve|].
  eapply hoare_bind_tally.
  { apply (hoare_frame (tally 0)) with (P := fun _ => True);
      [intros w _; exact I | apply (always_getHost _ tally_nil)]. }
  intros o. cbv beta.
  eapply hoare_bind_tally.
  { apply (hoare_frame (tally 0)) with (P := fun _ => True);
      [intros w _; exact I
      | apply (always_when _ tally_nil); apply stopEffect_quiet]. }
  intros ?. cbv beta.
  eapply hoare_bind_tally.
  { apply (hoare_frame (tally 0)) with (P := fun _ => True);
      [intros w _; exact I | apply (always_modifyRefs _ tally_nil)]. }
  intros ?. cbv beta.
  eapply hoare_bind_tally.
  { apply (hoare_frame (tally 0)) with (P := fun _ => True);
      [intros w _; exact I | apply (always_modifyRefs _ tally_nil)]. }
  intros ?. cbv beta. cbn [when].
  eapply hoare_bind_tally;
    [apply (startEffect_spec _ Hd) | intros ?].
  apply (shaderIdEffect_spec _ Hd).
  Unshelve. reflexivity.
Qed.

Lemma update_changed_spec (prev p : Props) :
  shaderId prev <> shaderId p ->
  getShaderById (shaderId p) = Some shaderDef ->
  hoare (tally 2) (fun _ => True) (update dev prev p) (fun _ => rendering).
Proof.
  intros Hne Ed. unfold update.
  apply (proj2 (String.eqb_neq _ _)) in Hne. rewrite Hne. cbn [negb].
  apply (hoare_bind_tally 0 2) with (R := fun _ _ => True).
  { apply (hoare_frame (tally 0)) with (P := fun _ => True);
      [intros w _; exact I | apply evaluate_quiet]. }
  intros ?. apply (effects_spec _ Ed).
Qed.

End Builds.

Section Working.

Variable dev : Device.
Hypothesis dev_works : working dev.

Lemma working_builds (shaderDef : ShaderDefinition.t) : builds dev shaderDef.
Proof.
  destruct dev_works as [Hc [Ha [Hs Hl]]]. repeat split; auto.
Qed.

Lemma update_spec (prev p : Props) :
  (shaderId prev = shaderId p \/ getShaderById (shaderId p) <> None) ->
  hoare (tally (if String.eqb (shaderId prev) (shaderId p) then 0 else 2))
    rendering (update dev prev p) (fun _ => rendering).
Proof.
  intros H. destruct (String.eqb_spec (shaderId prev) (shaderId p))
    as [E | Hne].
  - intros w Hr. rewrite (update_same_shader dev prev p w E).
    cbn [value world trace]. split; [|apply tally_nil].
    destruct Hr as [[Hg [Hv [Hp He]]] [Hs Hl]]. repeat split; assumption.
  - destruct H as [E | Hd]; [contradiction|].
    destruct (getShaderById (shaderId p)) as [shaderDef|] eqn:Ed;
      [clear Hd | now elim Hd].
    intros w _.
    now apply (update_changed_spec dev shaderDef (working_builds shaderDef)
                 prev p).
Qed.

Lemma healthy_surface (made : list Call) (app : App) :
  quiet made -> surface dev made app = app.
Proof. intros H. unfold surface. now rewrite (lastError_quiet made H). Qed.

Lemma healthy_rerender (next : Page) (app : App) :
  healthy app ->
  error next = None ->
  (shaderId (props (page app)) = shaderId (props next)
   \/ getShaderById (shaderId (props next)) <> None) ->
  healthy (rerender dev (Some next) app).
Proof.
  intros [Hr [He Hq]] Hn Hs. unfold rerender.
  destruct (update_spec (props (page app)) (props next) Hs (canvas app) Hr)
    as [Hr' [Ht _]].
  rewrite (healthy_surface _ _ Ht).
  split; [exact Hr'|]. split; [exact Hn|].
  cbn [calls]. now apply quiet_app.
Qed.

Lemma healthy_then (c : M unit) (app : App) :
  preserves rendering c -> always (tally 0) c ->
  healthy app -> healthy (then_ c app).
Proof.
  intros Hp Ht [Hr [He Hq]]. split; [|split].
  - cbn [then_ canvas]. now apply Hp.
  - exact He.
  - cbn [then_ calls]. apply quiet_app; [exact Hq | apply Ht].
Qed.

Lemma rendering_animate : preserves rendering (animate dev).
Proof.
  intros w [Hb [Hs Hl]]. unfold animate.
  rewrite world_bind. cbn [getHost value world]. rewrite Hs.
  rewrite world_bind. cbn [modifyHost value world].
  match goal with
  | |- rendering (world (render dev ?w1)) =>
      destruct (render_spec dev w1 Hb) as [[Hb' Hs'] _];
      destruct (render_loop dev w1) as [_ [_ [Hl' _]]]
  end.
  split; [exact Hb'|]. split; [exact Hs'|]. rewrite Hl'. exact Hl.
Qed.

Lemma healthy_step (e : Event) (app : App) :
  healthy app -> healthy (step dev e app).
Proof.
  intros H. pose proof H as [Hr [He Hq]].
  destruct e; cbn [step].
  - apply healthy_then; [apply rendering_animate | apply animate_quiet | exact H].
  - apply healthy_then; [| |exact H]; unfold listen, handleMouseMove.
    + preserve; apply preserves_modifyRefs; intros; assumption.
    + quietly.
  - apply healthy_then; [| |exact H]; unfold listen, handleTouchMove.
    + preserve; apply preserves_modifyRefs; intros; assumption.
    + quietly.
  - apply healthy_then; [| |exact H]; unfold listen.
    + apply preserves_bind;
        [apply preserves_modifyHost; intros; assumption | intros ?].
      apply preserves_bind; [apply preserves_getHost | intros o].
      apply preserves_when. apply handleResize_preserves. intros; assumption.
    + pose proof handleResize_quiet. quietly.
  - unfold handleShaderSelect.
    destruct (getShaderById id) as [shaderDef|] eqn:Ed; [|exact H].
    apply healthy_rerender; [exact H | reflexivity|].
    right. cbn [props shaderId]. rewrite Ed. discriminate.
  - apply healthy_rerender; [exact H | exact He | left; reflexivity].
  - unfold handleResetDefaults.
    destruct (getShaderById (shaderId (props (page app)))); [|exact H].
    apply healthy_rerender; [exact H | exact He | left; reflexivity].
  - apply healthy_rerender; [exact H | exact He | left; reflexivity].
Qed.

Lemma healthy_open (parent_w parent_h : Q) :
  healthy (open dev parent_w parent_h).
Proof.
  unfold open.
  assert (Hd : getShaderById (shaderId (props initialPage))
               = Some plasmaShader) by reflexivity.
  unfold mount.
  match goal with
  | |- context [effects dev true ?p ?w0] =>
      destruct (effects_spec dev plasmaShader (working_builds plasmaShader)
                  p Hd w0 I) as [Hr [Ht _]]
  end.
  rewrite (healthy_surface _ _ Ht).
  split; [exact Hr|]. split; [reflexivity | exact Ht].
Qed.

Lemma healthy_run (es : list Event) (app : App) :
  healthy app -> healthy (run dev es app).
Proof.
  unfold run. revert app.
  induction es as [|e es IH]; intros app H; cbn [fold_left]; [exact H|].
  apply IH. now apply healthy_step.
Qed.

End Working.

(** X11.  On a device where every object is created and every shader
    compiles and links, no sequence of clicks, keys, slider moves, pointer
    moves, resizes and frames stops the animation: the context, the quad and
    a program are held, no error is flagged or shown, [onError] was never
    called, a frame is pending, and the frame that runs next draws. *)
Theorem working_device_keeps_rendering (dev : Device)
    (parent_w parent_h : Q) (es : list Event) :
  working dev ->
  let app := run dev es (open dev parent_w parent_h) in
  rendering (canvas app)
  /\ error (page app) = None
  /\ surfaced (calls app) = []
  /\ In (gl_drawArrays 0 6) (trace (animate dev (canvas app))).
Proof.
  intros Hw. cbv zeta.
  destruct (healthy_run dev Hw es _ (healthy_open dev Hw parent_w parent_h))
    as [Hr [He Hq]].
  split; [exact Hr|]. split; [exact He|]. split; [exact Hq|].
  revert Hr. generalize (canvas (run dev es (open dev parent_w parent_h))).
  intros w [[Hg [Hv [Hp Herr]]] [Hs Hl]].
  unfold animate. rewrite trace_bind. cbn [getHost value world trace app].
  rewrite Hs. rewrite trace_bind. cbn [modifyHost value world trace app].
  destruct (programRef (refs w)) as [program|] eqn:Ep; [|now elim Hp].
  destruct (vaoRef (refs w)) as [vao|] eqn:Ev; [|now elim Hv].
  rewrite (render_draws_trace dev
             {| refs := refs w; host := set_scheduled None (host w) |}
             program vao Ep Ev Herr).
  do 5 (apply in_or_app; right). apply in_or_app. left. now left.
Qed.

(** X12.  On such a device, opening the page builds the program twice, and
    so does every switch to another shader of the catalog: the restarted
    main effect builds it and the [shaderId] effect of the same commit
    builds it again.  Both commits end with the canvas animating and
    hand the page no error. *)
Theorem switch_builds_twice (dev : Device) (parent_w parent_h : Q)
    (app : App) (id : string) :
  working dev ->
  getShaderById id <> None ->
  shaderId (props (page app)) <> id ->
  links (calls (open dev parent_w parent_h)) = 2%nat
  /\ exists added,
       calls (step dev (select id) app) = (calls app ++ added)%list
       /\ links added = 2%nat
       /\ surfaced added = []
       /\ rendering (canvas (step dev (select id) app))
       /\ shaderId (props (page (step dev (select id) app))) = id.
Proof.
  intros Hw Hid Hne. split.
  - unfold open, mount.
    match goal with
    | |- context [effects dev true ?p ?w0] =>
        destruct (effects_spec dev plasmaShader
                    (working_builds dev Hw plasmaShader) p eq_refl w0 I)
          as [_ [Hq Hl]]
    end.
    rewrite (healthy_surface dev _ _ Hq). exact Hl.
  - destruct (getShaderById id) as [shaderDef|] eqn:Ed; [|now elim Hid].
    cbn [step]. unfold handleShaderSelect. rewrite Ed. unfold rerender.
    match goal with
    | |- context [update dev ?prev ?p ?w] =>
        destruct (update_changed_spec dev shaderDef
                    (working_builds dev Hw shaderDef) prev p Hne Ed w I)
          as [Hr [Hq Hl]]
    end.
    rewrite (healthy_surface dev _ _ Hq). cbn [calls canvas page props shaderId].
    eexists. split; [reflexivity|]. split; [exact Hl|]. split; [exact Hq|].
    split; [exact Hr | reflexivity].
Qed.

(* ====================================================================== *)
(** * From an event to the next frame *)
(* ====================================================================== *)

Lemma in_assign (name : string) (value : Q) (u : Uniforms) :
  In (name, value) (assign name value u).
Proof.
  induction u as [|[k v] u IH]; cbn [assign]; [now left|].
  destruct (String.eqb_spec k name) as [-> | _]; [now left | now right].
Qed.

(** A commit that keeps the shader makes no call and is not followed by a
    second render. *)
Lemma rerender_same_shader (dev : Device) (next : Page) (app : App) :
  shaderId (props (page app)) = shaderId (props next) ->
  rerender dev (Some next) app
  = {| page := next;
       canvas :=
         {| refs := set_showDebugRef (showDebug (props next))
                      (set_uniformsRef (uniforms (props next))
                         (refs (canvas app)));
            host := set_reads (S (S (reads (host (canvas app)))))
                      (host (canvas app)) |};
       calls := calls app |}.
Proof.
  intros E. unfold rerender. rewrite (update_same_shader dev _ _ _ E).
  cbn [trace world]. unfold surface. cbn [lastError fold_left].
  now rewrite app_nil_r.
Qed.

(** X13.  Moving a slider while the canvas animates costs no GL call: the
    program, the time origin and the pending frame are left alone, and the
    frame that runs next uploads the new value under that name, if the
    program has a uniform of that name. *)
Theorem slider_reaches_next_frame (dev : Device) (app : App) (name : string)
    (v : Q) (program vao location : nat) :
  programRef (refs (canvas app)) = Some program ->
  vaoRef (refs (canvas app)) = Some vao ->
  hasErrorRef (refs (canvas app)) = false ->
  scheduled (host (canvas app)) <> None ->
  getUniformLocation dev program name = Some location ->
  let moved := step dev (change name v) app in
  calls moved = calls app
  /\ programRef (refs (canvas moved)) = Some program
  /\ startTimeRef (refs (canvas moved)) = startTimeRef (refs (canvas app))
  /\ scheduled (host (canvas moved)) = scheduled (host (canvas app))
  /\ lookup name (uniforms (props (page moved))) = Some v
  /\ In (uniform (if isInt name then U_int else U_float) location (num v))
       (trace (animate dev (canvas moved))).
Proof.
  intros Hp Hv He Hs Hloc. cbv zeta. cbn [step].
  unfold handleUniformChange. rewrite rerender_same_shader by reflexivity.
  cbn [calls canvas page props uniforms refs host].
  split; [reflexivity|]. split; [exact Hp|]. split; [reflexivity|].
  split; [reflexivity|]. split; [apply lookup_assign_same|].
  unfold animate. rewrite trace_bind. cbn [getHost value world trace List.app host].
  cbn [set_reads scheduled].
  destruct (scheduled (host (canvas app))) as [pending|]; [|now elim Hs].
  rewrite trace_bind. cbn [modifyHost value world trace List.app].
  match goal with
  | |- In _ (trace (render dev ?w1)) =>
      rewrite (render_draws_trace dev w1 program vao Hp Hv He)
  end.
  do 4 (apply in_or_app; right). apply in_or_app. left.
  apply customUploads_from_entries. exists name, v.
  split; [apply in_assign|]. unfold upload. rewrite Hloc. now left.
Qed.

(** X14.  A resize of the container to a whole number of pixels, while the
    canvas animates, sets the canvas to that size and the viewport with it,
    and the frame that runs next uploads that size as [u_resolution].  A
    canvas that is not listening keeps its size and makes no call. *)
Theorem resize_reaches_next_frame (dev : Device) (app : App)
    (parent_w parent_h program location : nat) :
  rendering (canvas app) ->
  programRef (refs (canvas app)) = Some program ->
  getUniformLocation dev program "u_resolution" = Some location ->
  let width := inject_Z (Z.of_nat parent_w) in
  let height := inject_Z (Z.of_nat parent_h) in
  let resized := step dev (resize width height) app in
  calls resized = (calls app ++ [gl_viewport 0 0 width height])%list
  /\ canvas_width (host (canvas resized)) = width
  /\ canvas_height (host (canvas resized)) = height
  /\ In (gl_uniform2fv location (arr [width; height]))
       (trace (animate dev (canvas resized)))
  /\ (forall idle,
         listening (host (canvas idle)) = false ->
         calls (step dev (resize width height) idle) = calls idle
         /\ canvas_width (host (canvas (step dev (resize width height) idle)))
            = canvas_width (host (canvas idle))
         /\ canvas_height (host (canvas (step dev (resize width height) idle)))
            = canvas_height (host (canvas idle))).
Proof.
  intros [[Hg [Hv [_ He]]] [Hs Hl]] Hp Hloc. cbv zeta.
  generalize (inject_Z (Z.of_nat parent_w)), (inject_Z (Z.of_nat parent_h)).
  intros width height.
  assert (E : step dev (resize width height) app
              = {| page := page app;
                   canvas :=
                     {| refs := refs (canvas app);
                        host := set_canvas width height
                                  (set_parent width height
                                     (host (canvas app))) |};
                   calls := (calls app
                             ++ [gl_viewport 0 0 width height])%list |}).
  { cbn [step]. unfold then_, listen, handleResize. run. rewrite Hl. cbn.
    rewrite Hg. reflexivity. }
  rewrite E. cbn [calls canvas host set_canvas canvas_width canvas_height].
  split; [reflexivity|]. split; [reflexivity|]. split; [reflexivity|].
  split.
  - destruct (vaoRef (refs (canvas app))) as [vao|] eqn:Ev; [|now elim Hv].
    unfold animate. rewrite trace_bind.
    cbn [getHost value world trace List.app host set_canvas set_parent
         scheduled].
    rewrite Hs. rewrite trace_bind.
    cbn [modifyHost value world trace List.app].
    match goal with
    | |- In _ (trace (render dev ?w1)) =>
        rewrite (render_draws_trace dev w1 program vao Hp Ev He)
    end.
    do 2 (apply in_or_app; right). apply in_or_app. left.
    unfold upload. rewrite Hloc. now left.
  - intros idle Hi. cbn [step then_ calls canvas]. unfold listen, handleResize.
    run. rewrite Hi. cbn. now rewrite app_nil_r.
Qed.

(* ====================================================================== *)
(** * The overlay *)
(* ====================================================================== *)

Lemma upload_no_overlay (dev : Device) (program : nat) (name : string)
    (type : UniformType) (value : UniformValue) :
  filter isOverlay (upload dev program name type value) = [].
Proof.
  unfold upload. destruct (getUniformLocation dev program name);
    [destruct type|]; reflexivity.
Qed.

Lemma customUploads_no_overlay (dev : Device) (program : nat) (u : Uniforms) :
  filter isOverlay (customUploads dev program u) = [].
Proof.
  unfold customUploads. induction u as [|[name value] u IH]; [reflexivity|].
  cbn [flat_map]. now rewrite filter_app, upload_no_overlay, IH.
Qed.

Lemma render_no_overlay (dev : Device) (w : World) :
  debugCanvas (host w) = false ->
  filter isOverlay (trace (render dev w)) = [].
Proof.
  intros Hd.
  destruct (programRef (refs w)) as [program|] eqn:Hp;
    [destruct (vaoRef (refs w)) as [vao|] eqn:Hv;
     [destruct (hasErrorRef (refs w)) eqn:He|]|].
  2:{ rewrite (render_draws_trace dev w program vao Hp Hv He).
      rewrite Hd, Bool.andb_false_r.
      rewrite !filter_app, !upload_no_overlay, customUploads_no_overlay.
      reflexivity. }
  all: rewrite render_idles by auto; cbn [trace];
    destruct (hasErrorRef (refs w)); reflexivity.
Qed.

Lemma animate_no_overlay (dev : Device) (w : World) :
  debugCanvas (host w) = false ->
  debugCanvas (host (world (animate dev w))) = false
  /\ filter isOverlay (trace (animate dev w)) = [].
Proof.
  intros Hd. unfold animate. rewrite world_bind, trace_bind.
  cbn [getHost value world trace List.app].
  destruct (scheduled (host w)); [|now split].
  rewrite world_bind, trace_bind. cbn [modifyHost value world trace List.app].
  match goal with
  | |- context [render dev ?w1] =>
      destruct (render_loop dev w1) as [_ [_ [_ Hd']]];
      pose proof (render_no_overlay dev w1 Hd) as Ht
  end.
  split; [rewrite Hd'; exact Hd | exact Ht].
Qed.

Lemma step_no_overlay (dev : Device) (e : Event) (app : App) :
  keepsShader e ->
  debugCanvas (host (canvas app)) = false ->
  debugCanvas (host (canvas (step dev e app))) = false
  /\ filter isOverlay (calls (step dev e app)) = filter isOverlay (calls app).
Proof.
  intros Hk Hd. destruct e; cbn [step]; try (now elim Hk).
  - cbn [then_ canvas calls].
    destruct (animate_no_overlay dev (canvas app) Hd) as [Hd' Ht].
    split; [exact Hd'|]. now rewrite filter_app, Ht, app_nil_r.
  - cbn [then_ canvas calls]. unfold listen, handleMouseMove. run.
    destruct (listening (host (canvas app))); cbn;
      (split; [exact Hd | now rewrite app_nil_r]).
  - cbn [then_ canvas calls]. unfold listen, handleTouchMove. run.
    destruct (listening (host (canvas app))), touches as [|[cx cy] rest]; cbn;
      (split; [exact Hd | now rewrite app_nil_r]).
  - cbn [then_ canvas calls]. unfold listen, handleResize. run.
    destruct (listening (host (canvas app))); cbn;
      [destruct (glRef (refs (canvas app))); cbn|];
      (split; [exact Hd | rewrite ?filter_app, ?app_nil_r; cbn;
                          now rewrite ?app_nil_r]).
  - unfold handleUniformChange. rewrite rerender_same_shader by reflexivity.
    now split.
  - unfold handleResetDefaults.
    destruct (getShaderById (shaderId (props (page app)))); [|now split].
    rewrite rerender_same_shader by reflexivity. now split.
  - unfold toggleDebug. rewrite rerender_same_shader by reflexivity.
    now split.
Qed.

(** X15.  The frame-rate overlay is set up only when the main effect starts:
    on a canvas that started without it, switching debug on (or anything
    else short of selecting a shader) never draws the overlay, however many
    frames follow. *)
Theorem overlay_waits_for_restart (dev : Device) (es : list Event)
    (app : App) :
  debugCanvas (host (canvas app)) = false ->
  Forall keepsShader es ->
  debugCanvas (host (canvas (run dev es app))) = false
  /\ filter isOverlay (calls (run dev es app)) = filter isOverlay (calls app).
Proof.
  intros Hd Hk. revert app Hd. unfold run.
  induction Hk as [|e es He _ IH]; intros app Hd; cbn [fold_left];
    [now split|].
  destruct (step_no_overlay dev e app He Hd) as [Hd' Hc].
  destruct (IH _ Hd') as [Hd'' Hc']. split; [exact Hd''|].
  now rewrite Hc', Hc.
Qed.

(* ====================================================================== *)
(** * No program is leaked *)
(* ====================================================================== *)

Lemma alive_app (a b : list Call) (l : list nat) :
  alive (a ++ b) l = alive b (alive a l).
Proof. unfold alive. apply fold_left_app. Qed.

Lemma keeps_bind {A B : Type} (c : M A) (k : A -> M B) :
  keeps c -> (forall a, keeps (k a)) -> keeps (bind c k).
Proof.
  intros Hc Hk w l Hl. rewrite trace_bind, world_bind, alive_app.
  apply Hk. now apply Hc.
Qed.

Lemma keeps_when (c : bool) (k : M unit) : keeps k -> keeps (when c k).
Proof. intros Hk. destruct c; [exact Hk|]. intros w l ->. reflexivity. Qed.

Lemma keeps_forEach {A : Type} (l : list A) (body : A -> M unit) :
  (forall a, keeps (body a)) -> keeps (forEach l body).
Proof.
  intros Hb. induction l as [|a l IH]; cbn [forEach].
  - intros w h ->. reflexivity.
  - apply keeps_bind; [apply Hb | intros _; exact IH].
Qed.

(** Walk through a computation; a step that touches no program is settled
    by computation. *)
Ltac keep :=
  repeat
    (match goal with
     | |- keeps (bind _ _) => apply keeps_bind; [| intro]
     | |- keeps (when _ _) => apply keeps_when
     | |- keeps (forEach _ _) => apply keeps_forEach; intro
     | |- keeps (match ?s with _ => _ end) => destruct s
     | |- keeps (call (uniform (if ?b then _ else _) _ _)) => destruct b
     | |- keeps _ => solve [auto | intros ? ? ->; reflexivity]
     end).

Section Keeps.

Variable dev : Device.

Lemma initShader_keeps (shaderId : string) : keeps (initShader dev shaderId).
Proof.
  intros [r o] l ->.
  destruct r as [g p v a s f e t c u d]. destruct g, p as [old|].
  all: remember held as h eqn:Eh.
  all: paths; subst h; unfold held, alive; cbn -[Nat.eqb];
    rewrite ?Nat.eqb_refl; reflexivity.
Qed.

Lemma stopEffect_keeps : keeps stopEffect.
Proof.
  intros [r o] l ->.
  destruct r as [g p v a s f e t c u d], o as [cw ch pw ph rd nn sc dc ls].
  unfold held, stopEffect, cancel_frame. run.
  destruct sc as [pending|]; [destruct (Nat.eqb pending a)|];
    destruct v, p;
    unfold alive; cbn -[Nat.eqb]; rewrite ?Nat.eqb_refl; reflexivity.
Qed.

Lemma render_keeps : keeps (render dev).
Proof.
  unfold render, now, request_frame, clearToBackground, setUniform. keep.
Qed.

Lemma createFullscreenQuad_keeps : keeps (createFullscreenQuad dev).
Proof. unfold createFullscreenQuad, create. keep. Qed.

Lemma handleResize_keeps : keeps handleResize.
Proof. unfold handleResize. keep. Qed.

Hint Resolve initShader_keeps stopEffect_keeps render_keeps
  createFullscreenQuad_keeps handleResize_keeps : core.

Lemma startEffect_keeps (shaderId : string) :
  keeps (startEffect dev shaderId).
Proof. unfold startEffect, createWebGLContext, fail, now. keep. Qed.

Lemma shaderIdEffect_keeps (shaderId : string) :
  keeps (shaderIdEffect dev shaderId).
Proof. unfold shaderIdEffect, now. keep. Qed.

Hint Resolve startEffect_keeps shaderIdEffect_keeps : core.

Lemma update_keeps (prev p : Props) : keeps (update dev prev p).
Proof. unfold update, evaluate, effects, now. keep. Qed.

Lemma animate_keeps : keeps (animate dev).
Proof. unfold animate. keep. Qed.

Lemma then_keeps (c : M unit) (app : App) :
  keeps c ->
  alive (calls app) [] = held (canvas app) ->
  alive (calls (then_ c app)) [] = held (canvas (then_ c app)).
Proof.
  intros Hc H. cbn [then_ calls canvas]. rewrite alive_app. now apply Hc.
Qed.

Lemma surface_keeps (made : list Call) (app : App) :
  alive (calls app) [] = held (canvas app) ->
  alive (calls (surface dev made app)) []
  = held (canvas (surface dev made app)).
Proof.
  intros H. unfold surface. destruct (lastError made); [|exact H].
  apply then_keeps; [apply update_keeps | exact H].
Qed.

Lemma rerender_keeps (next : option Page) (app : App) :
  alive (calls app) [] = held (canvas app) ->
  alive (calls (rerender dev next app)) []
  = held (canvas (rerender dev next app)).
Proof.
  intros H. unfold rerender. destruct next as [next|]; [|exact H].
  apply surface_keeps. cbn [calls canvas]. rewrite alive_app.
  now apply update_keeps.
Qed.

Lemma step_keeps (e : Event) (app : App) :
  alive (calls app) [] = held (canvas app) ->
  alive (calls (step dev e app)) [] = held (canvas (step dev e app)).
Proof.
  intros H. destruct e; cbn [step]; try (now apply rerender_keeps);
    (apply then_keeps; [|exact H]).
  - apply animate_keeps.
  - unfold listen, handleMouseMove. keep.
  - unfold listen, handleTouchMove. keep.
  - unfold listen. keep.
Qed.

End Keeps.

(** X16.  On any device and after any history, the program objects that
    were created and not yet deleted are exactly the one [programRef] holds,
    or none when it holds none: no program is leaked, and the program held is
    never one that was deleted. *)
Theorem no_program_is_leaked (dev : Device) (parent_w parent_h : Q)
    (es : list Event) :
  let app := run dev es (open dev parent_w parent_h) in
  alive (calls app) [] = held (canvas app).
Proof.
  cbv zeta.
  assert (H0 : alive (calls (open dev parent_w parent_h)) []
               = held (canvas (open dev parent_w parent_h))).
  { unfold open. apply surface_keeps. cbn [calls canvas]. unfold mount.
    assert (K : keeps (effects dev true (props initialPage))).
    { pose proof (startEffect_keeps dev). pose proof (shaderIdEffect_keeps dev).
      pose proof stopEffect_keeps. unfold effects. keep. }
    now apply K. }
  revert H0. generalize (open dev parent_w parent_h). unfold run.
  induction es as [|e es IH]; intros app H; cbn [fold_left]; [exact H|].
  apply IH. now apply step_keeps.
Qed.

(* ====================================================================== *)
(** * Every parameter reaches the canvas *)
(* ====================================================================== *)

Lemma complete_error (page : Page) (e : option string) :
  complete page -> complete {| props := props page; error := e |}.
Proof. intros H. exact H. Qed.

Lemma complete_rerender (dev : Device) (next : option Page) (app : App) :
  complete (page app) ->
  (forall n, next = Some n -> complete n) ->
  complete (page (rerender dev next app)).
Proof.
  intros H Hn. unfold rerender. destruct next as [next|]; [|exact H].
  unfold surface. destruct (lastError _); cbn [then_ page];
    [apply complete_error|]; now apply Hn.
Qed.

Lemma complete_step (dev : Device) (e : Event) (app : App) :
  complete (page app) -> complete (page (step dev e app)).
Proof.
  intros H. destruct e; cbn [step]; try exact H;
    apply complete_rerender; try exact H; intros n Hn.
  - now apply complete_select in Hn.
  - now apply (complete_change _ _ _ _ H) in Hn.
  - now apply complete_reset in Hn.
  - now apply (complete_toggle _ _ H) in Hn.
Qed.

(** X17.  Whatever has happened since the page was opened, the map the
    frame callback reads has a value for every parameter the selected shader
    declares: through the page no frame is ever drawn with a parameter
    missing. *)
Theorem every_parameter_reaches_the_canvas (dev : Device)
    (parent_w parent_h : Q) (es : list Event) :
  let app := run dev es (open dev parent_w parent_h) in
  exists shader,
    getShaderById (shaderId (props (page app))) = Some shader
    /\ forall d,
         In d (ShaderDefinition.uniforms shader) ->
         lookup (ShaderUniform.name d) (uniformsRef (refs (canvas app)))
         <> None.
Proof.
  cbv zeta.
  destruct (mirrors_run dev parent_w parent_h es) as [Hu _]. rewrite Hu.
  clear Hu.
  change (complete (page (run dev es (open dev parent_w parent_h)))).
  assert (H0 : complete (page (open dev parent_w parent_h))).
  { unfold open, surface. destruct (lastError _); cbn [then_ page];
      [apply complete_error|]; apply complete_initialPage. }
  revert H0. generalize (open dev parent_w parent_h). unfold run.
  induction es as [|e es IH]; intros app H; cbn [fold_left]; [exact H|].
  apply IH. now apply complete_step.
Qed.

(* ====================================================================== *)
(** * The shader's clock *)
(* ====================================================================== *)

Section Timed.

Variable dev : Device.

(** Taking a new time origin. *)
Lemma reset_timed {A : Type} (rest : M A) :
  preserves (timed dev) rest ->
  leads (fun _ => True)
    (t <- now dev ;; modifyRefs (set_startTimeRef t) ;; rest) (timed dev).
Proof.
  intros Hr w _. rewrite world_bind, world_bind. apply Hr.
  assert (E : now dev w
              = {| value := performance_now dev (reads (host w));
                   world := {| refs := refs w;
                               host := set_reads (S (reads (host w)))
                                         (host w) |};
                   trace := [] |})
    by (unfold now; run; reflexivity).
  rewrite E. cbn [value world modifyRefs refs host].
  exists (reads (host w)). split; [cbn; lia | reflexivity].
Qed.

Lemma timed_weaken {A : Type} (c : M A) :
  leads (fun _ => True) c (timed dev) -> preserves (timed dev) c.
Proof. intros H w _. now apply H. Qed.

Lemma timed_reads (r : Refs) (o : Host) :
  timed dev {| refs := r; host := o |} ->
  timed dev {| refs := r; host := set_reads (S (reads o)) o |}.
Proof.
  intros [k [Hk E]]. exists k. split; [cbn in *; lia | exact E].
Qed.

Lemma timed_now : preserves (timed dev) (now dev).
Proof.
  apply now_preserves. intros r o. apply timed_reads.
Qed.

Lemma timed_render : preserves (timed dev) (render dev).
Proof.
  apply render_preserves; try (intros; assumption).
  intros r o. apply timed_reads.
Qed.

Lemma timed_initShader (shaderId : string) :
  preserves (timed dev) (initShader dev shaderId).
Proof. apply initShader_preserves; intros; assumption. Qed.

Lemma timed_startEffect (shaderId : string) :
  preserves (timed dev) (startEffect dev shaderId).
Proof.
  unfold startEffect.
  apply preserves_bind;
    [apply createWebGLContext_preserves | intros gl].
  destruct (negb gl); [apply fail_preserves; intros; assumption|].
  apply preserves_bind;
    [apply preserves_modifyRefs; intros; assumption | intros _].
  apply preserves_bind;
    [apply handleResize_preserves; intros; assumption | intros _].
  apply preserves_bind;
    [apply createFullscreenQuad_preserves; intros; assumption | intros vao].
  destruct vao as [vao|]; [|apply fail_preserves; intros; assumption].
  apply preserves_bind;
    [apply preserves_modifyRefs; intros; assumption | intros _].
  apply preserves_bind; [apply timed_initShader | intros ok].
  destruct (negb ok); [apply preserves_ret|].
  apply timed_weaken. apply reset_timed.
  apply preserves_bind; [apply timed_now | intros t1].
  apply preserves_bind;
    [apply preserves_modifyRefs; intros; assumption | intros _].
  apply preserves_bind; [apply preserves_getRefs | intros r].
  apply preserves_bind;
    [apply preserves_modifyHost; intros; assumption | intros _].
  apply preserves_bind; [apply timed_render | intros _].
  apply preserves_modifyHost; intros; assumption.
Qed.

Lemma timed_stopEffect : preserves (timed dev) stopEffect.
Proof. apply stopEffect_preserves; intros; assumption. Qed.

Lemma timed_shaderIdEffect (shaderId : string) :
  preserves (timed dev) (shaderIdEffect dev shaderId).
Proof.
  unfold shaderIdEffect.
  apply preserves_bind; [apply preserves_getRefs | intros r].
  destruct (vaoRef r); [|apply preserves_ret].
  apply preserves_when.
  apply preserves_bind; [apply timed_initShader | intros _].
  intros w _.
  pose proof (reset_timed (ret tt) (preserves_ret _ tt) w I) as H.
  rewrite world_bind in H. rewrite world_bind.
  rewrite world_bind in H. cbn [ret world] in H. exact H.
Qed.

Lemma timed_update (prev p : Props) :
  preserves (timed dev) (update dev prev p).
Proof.
  pose proof timed_now. pose proof timed_stopEffect.
  pose proof timed_startEffect. pose proof timed_shaderIdEffect.
  unfold update, evaluate, effects.
  preserve; apply preserves_modifyRefs; intros; assumption.
Qed.

Lemma timed_animate : preserves (timed dev) (animate dev).
Proof.
  pose proof timed_render. unfold animate.
  preserve; apply preserves_modifyHost; intros; assumption.
Qed.

Lemma timed_step (e : Event) (app : App) :
  timed dev (canvas app) -> timed dev (canvas (step dev e app)).
Proof.
  intros H.
  assert (R : forall next, timed dev (canvas (rerender dev next app))).
  { intros next. unfold rerender. destruct next as [next|]; [|exact H].
    unfold surface. destruct (lastError _); cbn [then_ canvas];
      repeat apply timed_update; exact H. }
  destruct e; cbn [step]; try apply R;
    cbn [then_ canvas]; revert H; generalize (canvas app);
    change (forall w, timed dev w -> timed dev (world (?c w)))
      with (preserves (timed dev) c);
    unfold listen.
  - apply timed_animate.
  - unfold handleMouseMove.
    preserve; apply preserves_modifyRefs; intros; assumption.
  - unfold handleTouchMove.
    preserve; apply preserves_modifyRefs; intros; assumption.
  - apply preserves_bind;
      [apply preserves_modifyHost; intros; assumption | intros _].
    apply preserves_bind; [apply preserves_getHost | intros o].
    apply preserves_when. apply handleResize_preserves. intros; assumption.
Qed.

Lemma timed_run (parent_w parent_h : Q) (es : list Event) :
  timed dev (canvas (run dev es (open dev parent_w parent_h))).
Proof.
  assert (H0 : timed dev (canvas (open dev parent_w parent_h))).
  { unfold open, surface.
    assert (H : timed dev
                  (world (mount dev parent_w parent_h (props initialPage)))).
    { unfold mount.
      pose proof timed_stopEffect. pose proof timed_startEffect.
      pose proof timed_shaderIdEffect.
      apply preserves_elim.
      - unfold effects.
        preserve; apply preserves_modifyRefs; intros; assumption.
      - exists 0%nat. split; [cbn; lia | reflexivity]. }
    destruct (lastError _); cbn [then_ canvas];
      repeat apply timed_update; exact H. }
  revert H0. generalize (open dev parent_w parent_h). unfold run.
  induction es as [|e es IH]; intros app H; cbn [fold_left]; [exact H|].
  apply IH. now apply timed_step.
Qed.

End Timed.

(** X18.  With a clock that never runs backwards, the time a frame hands
    the shader is never negative, whatever has happened since the page was
    opened: the time origin is always a reading taken before the frame's
    own. *)
Theorem shader_time_is_never_negative (dev : Device)
    (parent_w parent_h : Q) (es : list Event) :
  monotone dev ->
  let w := canvas (run dev es (open dev parent_w parent_h)) in
  0 <= elapsed (performance_now dev (S (reads (host w)))) w.
Proof.
  intros Hm. cbv zeta.
  destruct (timed_run dev parent_w parent_h es) as [k [Hk E]].
  unfold elapsed. rewrite E.
  apply Qle_shift_div_l; [reflexivity|]. rewrite Qmult_0_l.
  assert (H : performance_now dev k
              <= performance_now dev
                   (S (reads (host (canvas (run dev es
                                              (open dev parent_w parent_h)))))))
    by (apply Hm; lia).
  lra.
Qed.

(* ====================================================================== *)
(** * The quad of a failed start *)
(* ====================================================================== *)

Lemma spares_nil (vao : nat) : spares vao [].
Proof. intros []. Qed.

Lemma spares_app (vao : nat) (a b : list Call) :
  spares vao a -> spares vao b -> spares vao (a ++ b)%list.
Proof. unfold spares. intros Ha Hb H. apply in_app_or in H. tauto. Qed.

(** Walk through a computation that deletes no vertex array. *)
Ltac sparing vao :=
  repeat
    (match goal with
     | |- always _ (bind _ _) =>
         apply (always_bind _ (spares_app vao)); [| intro]
     | |- always _ (ret _) => apply (always_ret _ (spares_nil vao))
     | |- always _ (call (uniform (if ?b then _ else _) _ _)) => destruct b
     | |- always _ (call _) =>
         apply always_call; intros [E | []]; cbn in E; discriminate E
     | |- always _ getRefs => apply (always_getRefs _ (spares_nil vao))
     | |- always _ getHost => apply (always_getHost _ (spares_nil vao))
     | |- always _ (when _ _) => apply (always_when _ (spares_nil vao))
     | |- always _ (forEach _ _) =>
         apply (always_forEach _ (spares_nil vao) (spares_app vao)); intro
     | |- always _ (modifyRefs _) =>
         apply (always_modifyRefs _ (spares_nil vao))
     | |- always _ (modifyHost _) =>
         apply (always_modifyHost _ (spares_nil vao))
     | |- always _ (match ?s with _ => _ end) => destruct s
     | |- always _ _ => solve [auto]
     end).

Lemma initShader_spares (dev : Device) (shaderId : string) (vao : nat) :
  always (spares vao) (initShader dev shaderId).
Proof.
  unfold initShader, compileShader, createProgram, create, fail.
  sparing vao.
Qed.

Lemma render_spares (dev : Device) (vao : nat) :
  always (spares vao) (render dev).
Proof.
  unfold render, now, request_frame, clearToBackground, setUniform.
  sparing vao.
Qed.

Lemma startEffect_spares (dev : Device) (shaderId : string) (vao : nat) :
  always (spares vao) (startEffect dev shaderId).
Proof.
  pose proof (initShader_spares dev). pose proof (render_spares dev).
  unfold startEffect, createWebGLContext, handleResize, createFullscreenQuad,
    create, fail, now.
  sparing vao.
Qed.

Lemma shaderIdEffect_spares (dev : Device) (shaderId : string) (vao : nat) :
  always (spares vao) (shaderIdEffect dev shaderId).
Proof.
  pose proof (initShader_spares dev). unfold shaderIdEffect, now.
  sparing vao.
Qed.

Lemma createFullscreenQuad_first (dev : Device) (w : World) :
  allocates dev (nextName (host w)) = true ->
  exists rest,
    trace (createFullscreenQuad dev w)
    = gl_createVertexArray (nextName (host w)) :: rest.
Proof.
  intros H. unfold createFullscreenQuad, create. run. rewrite H. run.
  destruct (allocates dev (S (nextName (host w)))); eexists; reflexivity.
Qed.

Lemma startEffect_creates (dev : Device) (shaderId : string) (w : World) :
  getContext dev = true ->
  allocates dev (nextName (host w)) = true ->
  In (gl_createVertexArray (nextName (host w)))
    (trace (startEffect dev shaderId w)).
Proof.
  intros Hctx Hvao. unfold startEffect, createWebGLContext.
  rewrite Hctx. rewrite trace_bind. cbn [ret value world trace negb List.app].
  rewrite trace_bind. cbn [modifyRefs value world trace List.app].
  rewrite trace_bind. apply in_or_app. right.
  rewrite handleResize_world. cbn [refs host].
  rewrite trace_bind. apply in_or_app. left.
  match goal with
  | |- In _ (trace (createFullscreenQuad dev ?w1)) =>
      destruct (createFullscreenQuad_first dev w1 Hvao) as [rest E]
  end.
  rewrite E. now left.
Qed.

Lemma ready_shaderIdEffect (dev : Device) (shaderId : string) (vao : nat) :
  preserves (ready vao) (shaderIdEffect dev shaderId).
Proof. apply shaderIdEffect_preserves; intros; assumption. Qed.

(** X19.  A start whose build fails returns before it installs its
    clean-up, and the quad it made stays in [vaoRef].  The next commit for
    another shader then finds no clean-up to run: it deletes no vertex array,
    creates a new one and puts that in [vaoRef], so the quad of the failed
    start is left allocated and nothing refers to it any more. *)
Theorem failed_start_leaves_its_quad (dev : Device) (p : Props) (w : World)
    (old : nat) :
  vaoRef (refs w) = Some old ->
  (old < nextName (host w))%nat ->
  listening (host w) = false ->
  getContext dev = true ->
  allocates dev (nextName (host w)) = true ->
  let commit := effects dev true p w in
  (forall vao, ~ In (gl_deleteVertexArray vao) (trace commit))
  /\ In (gl_createVertexArray (nextName (host w))) (trace commit)
  /\ vaoRef (refs (world commit)) = Some (nextName (host w))
  /\ vaoRef (refs (world commit)) <> Some old.
Proof.
  intros Hold Hlt Hl Hctx Hvao. cbv zeta.
  assert (T : trace (effects dev true p w)
              = trace ((modifyRefs (set_uniformsRef (uniforms p)) ;;
                        modifyRefs (set_showDebugRef (showDebug p)) ;;
                        startEffect dev (shaderId p) ;;
                        shaderIdEffect dev (shaderId p)) w)).
  { unfold effects. rewrite trace_bind.
    cbn [getHost value world trace List.app]. rewrite Hl.
    cbn [andb when]. rewrite trace_bind. reflexivity. }
  assert (W : world (effects dev true p w)
              = world ((modifyRefs (set_uniformsRef (uniforms p)) ;;
                        modifyRefs (set_showDebugRef (showDebug p)) ;;
                        startEffect dev (shaderId p) ;;
                        shaderIdEffect dev (shaderId p)) w)).
  { unfold effects. rewrite world_bind.
    cbn [getHost value world]. rewrite Hl.
    cbn [andb when]. rewrite world_bind. reflexivity. }
  assert (V : vaoRef (refs (world (effects dev true p w)))
              = Some (nextName (host w))).
  { rewrite W. rewrite world_bind. cbn [modifyRefs value world].
    rewrite world_bind. cbn [modifyRefs value world refs host].
    rewrite world_bind.
    match goal with
    | |- context [startEffect dev ?i ?w2] =>
        pose proof (startEffect_ready dev i w2 Hctx Hvao) as R
    end.
    cbn [host] in R.
    exact (proj2 (ready_shaderIdEffect dev (shaderId p) _ _ R)). }
  split; [|split; [|split]].
  - intros vao. rewrite T.
    pose proof (startEffect_spares dev). pose proof (shaderIdEffect_spares dev).
    assert (A : always (spares vao)
                  (modifyRefs (set_uniformsRef (uniforms p)) ;;
                   modifyRefs (set_showDebugRef (showDebug p)) ;;
                   startEffect dev (shaderId p) ;;
                   shaderIdEffect dev (shaderId p)))
      by sparing vao.
    apply A.
  - rewrite T. rewrite trace_bind. cbn [modifyRefs value world trace List.app].
    rewrite trace_bind. cbn [modifyRefs value world trace List.app refs host].
    rewrite trace_bind. apply in_or_app. left.
    match goal with
    | |- In _ (trace (startEffect dev ?i ?w2)) =>
        exact (startEffect_creates dev i w2 Hctx Hvao)
    end.
  - exact V.
  - rewrite V. intros [= E]. lia.
Qed.

(* ====================================================================== *)
(** * A browser without WebGL2 *)
(* ====================================================================== *)

Section Unsupported.

Variable dev : Device.
Hypothesis no_context : getContext dev = false.

Lemma dead_effects (changed : bool) (p : Props) (w : World) :
  (changed = true \/ dead w) ->
  glRef (refs w) = false -> vaoRef (refs w) = None ->
  programRef (refs w) = None ->
  scheduled (host w) = None -> listening (host w) = false ->
  dead (world (effects dev changed p w))
  /\ forallb isReport (trace (effects dev changed p w)) = true
  /\ (changed = true ->
      lastError (trace (effects dev changed p w))
      = Some "WebGL2 is not supported in this browser").
Proof.
  destruct w as [r o]. destruct r, o. cbn [refs host glRef vaoRef programRef
    scheduled listening]. intros Hd -> -> -> -> ->.
  unfold effects, startEffect, createWebGLContext, shaderIdEffect, fail.
  rewrite no_context. destruct changed; run.
  - repeat split.
  - destruct Hd as [Hd | [_ [_ [_ [He _]]]]]; [discriminate|].
    cbn in He. subst. repeat split. intros [=].
Qed.

Lemma dead_update (prev p : Props) (w : World) :
  dead w ->
  dead (world (update dev prev p w))
  /\ forallb isReport (trace (update dev prev p w)) = true.
Proof.
  intros Hd. pose proof Hd as [Hg [Hv [Hp [He [Hs Hl]]]]].
  unfold update, evaluate. rewrite world_bind, trace_bind.
  assert (E : forall w0 : World,
             (t0 <- now dev ;; t1 <- now dev ;; ret (t0, t1)) w0
             = {| value := (performance_now dev (reads (host w0)),
                            performance_now dev (S (reads (host w0))));
                  world := {| refs := refs w0;
                              host := set_reads (S (S (reads (host w0))))
                                        (host w0) |};
                  trace := [] |})
    by (intros w0; unfold now; run; reflexivity).
  rewrite E. cbn [value world trace List.app].
  destruct (dead_effects (negb (String.eqb (shaderId prev) (shaderId p))) p
              {| refs := refs w;
                 host := set_reads (S (S (reads (host w)))) (host w) |})
    as [H1 [H2 _]]; try assumption.
  - right. repeat split; assumption.
  - split; assumption.
Qed.

Lemma forallb_isReport_app (a b : list Call) :
  forallb isReport a = true -> forallb isReport b = true ->
  forallb isReport (a ++ b) = true.
Proof. intros Ha Hb. now rewrite forallb_app, Ha, Hb. Qed.

Lemma dead_surface (made : list Call) (app : App) :
  dead (canvas app) -> forallb isReport (calls app) = true ->
  dead (canvas (surface dev made app))
  /\ forallb isReport (calls (surface dev made app)) = true.
Proof.
  intros Hd Hc. unfold surface. destruct (lastError made); [|now split].
  cbn [then_ canvas calls page props].
  destruct (dead_update (props (page app)) (props (page app)) (canvas app) Hd)
    as [H1 H2].
  split; [exact H1 | now apply forallb_isReport_app].
Qed.

Lemma dead_rerender (next : option Page) (app : App) :
  dead (canvas app) -> forallb isReport (calls app) = true ->
  dead (canvas (rerender dev next app))
  /\ forallb isReport (calls (rerender dev next app)) = true.
Proof.
  intros Hd Hc. unfold rerender. destruct next as [next|]; [|now split].
  destruct (dead_update (props (page app)) (props next) (canvas app) Hd)
    as [H1 H2].
  apply dead_surface; cbn [canvas calls];
    [exact H1 | now apply forallb_isReport_app].
Qed.

Lemma dead_step (e : Event) (app : App) :
  dead (canvas app) -> forallb isReport (calls app) = true ->
  dead (canvas (step dev e app))
  /\ forallb isReport (calls (step dev e app)) = true.
Proof.
  intros Hd Hc. pose proof Hd as [Hg [Hv [Hp [He [Hs Hl]]]]].
  destruct e; cbn [step]; try (now apply dead_rerender);
    cbn [then_ canvas calls].
  - unfold animate. run. rewrite Hs. cbn. rewrite app_nil_r. now split.
  - unfold listen. run. rewrite Hl. cbn. rewrite app_nil_r. now split.
  - unfold listen. run. rewrite Hl. cbn. rewrite app_nil_r. now split.
  - unfold listen. run. rewrite Hl. cbn. rewrite app_nil_r.
    split; [|exact Hc]. repeat split; assumption.
Qed.

Lemma dead_open (parent_w parent_h : Q) :
  dead (canvas (open dev parent_w parent_h))
  /\ forallb isReport (calls (open dev parent_w parent_h)) = true
  /\ error (page (open dev parent_w parent_h))
     = Some "WebGL2 is not supported in this browser".
Proof.
  unfold open, mount.
  match goal with
  | |- context [effects dev true ?p ?w0] =>
      destruct (dead_effects true p w0) as [H1 [H2 H3]];
        try reflexivity; [now left|]
  end.
  unfold surface. rewrite (H3 eq_refl). cbn [then_ canvas calls page error].
  match goal with
  | |- context [update dev ?p ?q ?w1] =>
      destruct (dead_update p q w1 H1) as [H4 H5]
  end.
  split; [exact H4|]. split; [now apply forallb_isReport_app | reflexivity].
Qed.

End Unsupported.

(** X20.  In a browser without WebGL2 the page opens with the error
    "WebGL2 is not supported in this browser", and whatever the user does
    afterwards the canvas makes no GL call and schedules no frame: every
    call is a report to the console or to the page, and selecting another
    shader only reports the same error again. *)
Theorem without_webgl2_nothing_is_drawn (dev : Device)
    (parent_w parent_h : Q) (es : list Event) :
  getContext dev = false ->
  let app := run dev es (open dev parent_w parent_h) in
  error (page (open dev parent_w parent_h))
  = Some "WebGL2 is not supported in this browser"
  /\ forallb isReport (calls app) = true
  /\ scheduled (host (canvas app)) = None
  /\ hasErrorRef (refs (canvas app)) = true
  /\ forall id,
       getShaderById id <> None ->
       shaderId (props (page app)) <> id ->
       error (page (step dev (select id) app))
       = Some "WebGL2 is not supported in this browser".
Proof.
  intros Hctx. cbv zeta.
  destruct (dead_open dev Hctx parent_w parent_h) as [Hd [Hc He]].
  split; [exact He|]. clear He.
  assert (H : dead (canvas (run dev es (open dev parent_w parent_h)))
              /\ forallb isReport
                   (calls (run dev es (open dev parent_w parent_h))) = true).
  { revert Hd Hc. generalize (open dev parent_w parent_h). unfold run.
    induction es as [|e es IH]; intros app Hd Hc; cbn [fold_left];
      [now split|].
    destruct (dead_step dev Hctx e app Hd Hc) as [Hd' Hc']. now apply IH. }
  destruct H as [Hd' Hc']. split; [exact Hc'|].
  pose proof Hd' as [Hg [Hv [Hp [Hf [Hs Hl]]]]].
  split; [exact Hs|]. split; [exact Hf|].
  intros id Hid Hne. cbn [step]. unfold handleShaderSelect.
  destruct (getShaderById id) as [shaderDef|]; [|now elim Hid].
  unfold rerender, update. cbv zeta. cbn [props shaderId].
  apply (proj2 (String.eqb_neq _ _)) in Hne. rewrite Hne. cbn [negb].
  rewrite trace_bind, world_bind.
  set (w1 := world (evaluate dev
                      (canvas (run dev es (open dev parent_w parent_h))))).
  assert (Hw1 : dead w1).
  { unfold w1. revert Hd'. apply evaluate_preserves; intros; assumption. }
  assert (Ht : trace (evaluate dev
                        (canvas (run dev es (open dev parent_w parent_h))))
               = []).
  { unfold evaluate, now. run. reflexivity. }
  rewrite Ht. cbn [List.app].
  pose proof Hw1 as [Hg1 [Hv1 [Hp1 [Hf1 [Hs1 Hl1]]]]].
  destruct (dead_effects dev Hctx true
              {| shaderId := id; uniforms := getDefaultUniforms shaderDef;
                 showDebug :=
                   showDebug
                     (props (page (run dev es (open dev parent_w parent_h))))
              |} w1 (or_introl eq_refl) Hg1 Hv1 Hp1 Hs1 Hl1)
    as [_ [_ H3]].
  cbn [value]. unfold surface. rewrite (H3 eq_refl). reflexivity.
Qed.

(* ====================================================================== *)
(** * Builds that fail *)
(* ====================================================================== *)




(* ====================================================================== *)
(** * Instances *)
(* ====================================================================== *)

Lemma cycleShader_stays_in_catalog_witness :
  exists shader,
    In shader SHADERS
    /\ cycleShader 1 initialPage
       = normal (Some {| props :=
                           {| shaderId := ShaderDefinition.id shader;
                              uniforms := getDefaultUniforms shader;
                              showDebug := showDebug (props initialPage) |};
                         error := None |}).
Proof.
  exact (proj1 (cycleShader_stays_in_catalog 1 initialPage
                  (or_introl eq_refl))).
Defined.

Lemma pointer_inside_canvas_witness :
  inUnitSquare
    (pointer 60 45 {| left := 10; top := 20; width := 200; height := 100 |}).
Proof.
  apply (pointer_inside_canvas 60 45
           {| left := 10; top := 20; width := 200; height := 100 |});
    cbn [left top width height]; lra.
Defined.

Lemma working_device_keeps_rendering_witness :
  rendering
    (canvas (run desktop [select "sphere"; frame; change "u_speed" 2; frame]
               (open desktop 800 600))).
Proof.
  assert (Hw : working desktop) by (repeat split).
  exact (proj1 (working_device_keeps_rendering desktop 800 600
                  [select "sphere"; frame; change "u_speed" 2; frame] Hw)).
Defined.

Lemma switch_builds_twice_witness :
  links (calls (open desktop 800 600)) = 2%nat.
Proof.
  apply (switch_builds_twice desktop 800 600 session "sphere").
  - repeat split.
  - discriminate.
  - discriminate.
Defined.

Lemma slider_reaches_next_frame_witness :
  In (gl_uniform1f 3 (num 2))
    (trace (animate desktop (canvas (step desktop (change "u_speed" 2)
                                       session)))).
Proof.
  apply (slider_reaches_next_frame desktop session "u_speed" 2 4 0 3);
    try reflexivity.
  discriminate.
Defined.

Lemma resize_reaches_next_frame_witness :
  In (gl_uniform2fv 1 (arr [inject_Z 1024; inject_Z 768]))
    (trace (animate desktop
              (canvas (step desktop (resize (inject_Z 1024) (inject_Z 768))
                         session)))).
Proof.
  apply (resize_reaches_next_frame desktop session 1024 768 4 1).
  - repeat split; discriminate.
  - reflexivity.
  - reflexivity.
Defined.

Lemma overlay_waits_for_restart_witness :
  filter isOverlay (calls (run desktop [debug; frame; frame] session)) = [].
Proof.
  apply (overlay_waits_for_restart desktop [debug; frame; frame] session).
  - reflexivity.
  - repeat constructor.
Defined.

Lemma shader_time_is_never_negative_witness :
  0 <= elapsed
         (performance_now desktop
            (S (reads (host (canvas (run desktop [frame; select "noise"]
                                       (open desktop 800 600)))))))
         (canvas (run desktop [frame; select "noise"] (open desktop 800 600))).
Proof.
  apply (shader_time_is_never_negative desktop 800 600
           [frame; select "noise"]).
  intros i j H. cbn [desktop performance_now].
  apply Qmult_le_compat_r; [|discriminate].
  rewrite <- Zle_Qle. lia.
Defined.

Lemma failed_start_leaves_its_quad_witness :
  vaoRef (refs (canvas stalled)) = Some 9%nat
  /\ ~ In (gl_deleteVertexArray 9)
         (trace (effects picky true
                   {| shaderId := "noise"; uniforms := []; showDebug := false |}
                   (canvas stalled)))
  /\ vaoRef (refs (world (effects picky true
                            {| shaderId := "noise"; uniforms := [];
                               showDebug := false |}
                            (canvas stalled))))
     = Some 15%nat.
Proof.
  assert (Hv : vaoRef (refs (canvas stalled)) = Some 9%nat)
    by (vm_compute; reflexivity).
  assert (Hn : nextName (host (canvas stalled)) = 15%nat)
    by (vm_compute; reflexivity).
  split; [exact Hv|].
  destruct (failed_start_leaves_its_quad picky
              {| shaderId := "noise"; uniforms := []; showDebug := false |}
              (canvas stalled) 9 Hv) as [Hd [_ [Hnew _]]].
  - rewrite Hn. lia.
  - vm_compute. reflexivity.
  - reflexivity.
  - rewrite Hn. reflexivity.
  - split; [apply Hd | rewrite Hnew, Hn; reflexivity].
Defined.

Lemma without_webgl2_nothing_is_drawn_witness :
  forallb isReport
    (calls (run legacy [frame; select "noise"; frame] (open legacy 800 600)))
  = true.
Proof.
  exact (proj1 (proj2 (without_webgl2_nothing_is_drawn legacy 800 600
                         [frame; select "noise"; frame] eq_refl))).
Defined.

Lemma handleUniformChange_sets_one_key_witness :
  exists next,
    handleUniformChange "glow" 0.5 initialPage = Some next
    /\ lookup "glow" (uniforms (props next)) = Some 0.5
    /\ keys (uniforms (props next))
       = (keys (uniforms (props initialPage)) ++ ["glow"])%list.
Proof.
  destruct (handleUniformChange_sets_one_key "glow" 0.5 initialPage)
    as [next [E [L [_ [K _]]]]].
  exists next. split; [exact E|]. split; [exact L|].
  rewrite K; reflexivity.
Defined.

Lemma getDefaultUniforms_lists_the_defaults_witness :
  forallb ordinaryKey (names plasmaShader) = true
  /\ getDefaultUniforms plasmaShader = defaultsOf plasmaShader.
Proof.
  split; [reflexivity|].
  apply (getDefaultUniforms_lists_the_defaults plasmaShader eq_refl).
  repeat constructor; cbn; intuition discriminate.
Defined.

(** ** C2 *)



(** ** C7 *)


